(** * chibicc back end: WebAssembly code generator and JSON dumper

    A shallow embedding of [codegen_wasm.c] and [dump.c] together with the
    properties stated for them.  The C functions write to a stream; here
    the stream is a value: the code generator appends formatted lines to an
    emitter state, the dumper returns the text it prints.  C [int]s are
    integers of [Z] with the 32-bit wrap-around written out where the code
    computes with them. *)

From Stdlib Require Import ZArith List String Ascii Bool Lia.
From Stdlib Require DecimalString HexadecimalString.
From stdpp Require Import gmap strings.
Import ListNotations.

#[local] Open Scope Z_scope.
#[local] Open Scope string_scope.
#[local] Open Scope list_scope.

(** ** printf conversions *)

(** The double quote character, and a text between double quotes. *)
Definition dq : string := String "034"%char EmptyString.
Definition quoted (s : string) : string := dq +:+ s +:+ dq.

(** [%d], [%ld] and [%lld]: signed decimal. *)
Definition dec (z : Z) : string :=
  DecimalString.NilZero.string_of_int (Z.to_int z).

(** [%x]: lowercase hexadecimal of a non-negative number. *)
Definition hex (z : Z) : string :=
  HexadecimalString.NilZero.string_of_uint (N.to_hex_uint (Z.to_N z)).

Fixpoint zeros (n : nat) : string :=
  match n with O => EmptyString | S k => String "0" (zeros k) end.

(** [%0Nx]: zero padded to [width] digits. *)
Definition hex_pad (width : nat) (z : Z) : string :=
  let h := hex z in zeros (width - String.length h) +:+ h.

(** Two's complement wrap-around of a C [int]. *)
Definition wrap32 (z : Z) : Z := (z + 2^31) mod 2^32 - 2^31.
Definition int_add (a b : Z) : Z := wrap32 (a + b).

(** The source prints [long double] values with [%f] (after a cast to
    [float] or [double]) and with [%Lg].  Floating point and its decimal
    rendering are outside this development: the type of values and the
    three renderings are an interface. *)
Class LongDouble := {
  fval_t : Type;
  fmt_f_float : fval_t -> string;   (* printf("%f", (float)v) *)
  fmt_f_double : fval_t -> string;  (* printf("%f", (double)v) *)
  fmt_Lg : fval_t -> string         (* printf("%Lg", v) *)
}.

Section Printf.
Context `{LongDouble}.

(** One variadic argument of a printf call. *)
Inductive arg : Type :=
| Str (s : string)      (* %s *)
| Int (z : Z)           (* %d %ld %lld %02x %04x *)
| Chr (c : ascii)       (* %c *)
| Flt (v : fval_t)      (* %f of a float *)
| Dbl (v : fval_t)      (* %f of a double *)
| LDbl (v : fval_t).    (* %Lg *)

Definition conv_int (f : Z -> string) (args : list arg) : string :=
  match args with Int z :: _ => f z | _ => EmptyString end.

Definition conv_s (args : list arg) : string :=
  match args with Str s :: _ => s | _ => EmptyString end.

Definition conv_c (args : list arg) : string :=
  match args with Chr c :: _ => String c EmptyString | _ => EmptyString end.

Definition conv_f (args : list arg) : string :=
  match args with
  | Flt v :: _ => fmt_f_float v
  | Dbl v :: _ => fmt_f_double v
  | _ => EmptyString
  end.

Definition conv_Lg (args : list arg) : string :=
  match args with LDbl v :: _ => fmt_Lg v | _ => EmptyString end.

(** The conversions the two source files use: [%d %s %c %f %ld %Lg %lld
    %02x %04x].  Any other character after [%] is copied. *)
Fixpoint sprintf (fmt : string) (args : list arg) {struct fmt} : string :=
  match fmt with
  | EmptyString => EmptyString
  | String c rest =>
    if negb (Ascii.eqb c "%") then String c (sprintf rest args) else
    match rest with
    | EmptyString => String c EmptyString
    | String c1 rest1 =>
      if Ascii.eqb c1 "d" then conv_int dec args +:+ sprintf rest1 (tl args)
      else if Ascii.eqb c1 "s" then conv_s args +:+ sprintf rest1 (tl args)
      else if Ascii.eqb c1 "c" then conv_c args +:+ sprintf rest1 (tl args)
      else if Ascii.eqb c1 "f" then conv_f args +:+ sprintf rest1 (tl args)
      else
      match rest1 with
      | EmptyString => String c (sprintf rest args)
      | String c2 rest2 =>
        if Ascii.eqb c1 "l" && Ascii.eqb c2 "d"
        then conv_int dec args +:+ sprintf rest2 (tl args)
        else if Ascii.eqb c1 "L" && Ascii.eqb c2 "g"
        then conv_Lg args +:+ sprintf rest2 (tl args)
        else
        match rest2 with
        | EmptyString => String c (sprintf rest args)
        | String c3 rest3 =>
          if Ascii.eqb c1 "l" && Ascii.eqb c2 "l" && Ascii.eqb c3 "d"
          then conv_int dec args +:+ sprintf rest3 (tl args)
          else if Ascii.eqb c1 "0" && Ascii.eqb c2 "2" && Ascii.eqb c3 "x"
          then conv_int (hex_pad 2) args +:+ sprintf rest3 (tl args)
          else if Ascii.eqb c1 "0" && Ascii.eqb c2 "4" && Ascii.eqb c3 "x"
          then conv_int (hex_pad 4) args +:+ sprintf rest3 (tl args)
          else String c (sprintf rest args)
        end
      end
    end
  end.

End Printf.


(** ** Data model (the declarations of [chibicc.h] the two files use) *)

Inductive TypeKind : Set :=
| TY_VOID | TY_BOOL | TY_CHAR | TY_SHORT | TY_INT | TY_LONG
| TY_FLOAT | TY_DOUBLE | TY_LDOUBLE | TY_ENUM | TY_PTR | TY_FUNC
| TY_ARRAY | TY_VLA | TY_STRUCT | TY_UNION.

#[local] Unset Elimination Schemes.

(** [struct Type].  A [Type *] that may be null is an [option CType]. *)
Inductive CType : Type := mkType {
  ty_kind : TypeKind;
  ty_size : Z;
  ty_align : Z;
  ty_is_unsigned : bool;
  ty_base : option CType;
  ty_return_ty : option CType;
  ty_array_len : Z
}.

#[local] Set Elimination Schemes.

Inductive TokenKind : Set :=
| TK_IDENT | TK_PUNCT | TK_KEYWORD | TK_STR | TK_NUM | TK_PP_NUM | TK_EOF.

Inductive NodeKind : Set :=
| ND_NULL_EXPR | ND_ADD | ND_SUB | ND_MUL | ND_DIV | ND_NEG | ND_MOD
| ND_BITAND | ND_BITOR | ND_BITXOR | ND_SHL | ND_SHR | ND_EQ | ND_NE
| ND_LT | ND_LE | ND_ASSIGN | ND_COND | ND_COMMA | ND_MEMBER | ND_ADDR
| ND_DEREF | ND_NOT | ND_BITNOT | ND_LOGAND | ND_LOGOR | ND_RETURN
| ND_IF | ND_FOR | ND_DO | ND_SWITCH | ND_CASE | ND_BLOCK | ND_GOTO
| ND_GOTO_EXPR | ND_LABEL | ND_LABEL_VAL | ND_FUNCALL | ND_EXPR_STMT
| ND_STMT_EXPR | ND_VAR | ND_VLA_PTR | ND_NUM | ND_CAST | ND_MEMZERO
| ND_ASM | ND_CAS | ND_EXCH.

Definition TypeKind_eqb (a b : TypeKind) : bool :=
  match a, b with
  | TY_VOID, TY_VOID | TY_BOOL, TY_BOOL | TY_CHAR, TY_CHAR
  | TY_SHORT, TY_SHORT | TY_INT, TY_INT | TY_LONG, TY_LONG
  | TY_FLOAT, TY_FLOAT | TY_DOUBLE, TY_DOUBLE | TY_LDOUBLE, TY_LDOUBLE
  | TY_ENUM, TY_ENUM | TY_PTR, TY_PTR | TY_FUNC, TY_FUNC
  | TY_ARRAY, TY_ARRAY | TY_VLA, TY_VLA | TY_STRUCT, TY_STRUCT
  | TY_UNION, TY_UNION => true
  | _, _ => false
  end.

(** How a call ends when it does not return: [error_tok] reports and
    terminates the process; a read through a null pointer, or past the
    end of a buffer, is undefined and treated as a crash. *)
Inductive failure : Type :=
| error_tok (msg : string) (kind : NodeKind)
| invalid_read.

Inductive result (A : Type) : Type :=
| Ok (a : A)
| Stop (f : failure).
Arguments Ok {A} a.
Arguments Stop {A} f.

Section DataModel.
Context `{LongDouble}.

(** [struct Token]: [tk_text] is the [len] bytes at [loc]; the list linked
    through [next] is a [list Token]. *)
Record Token : Type := mkToken {
  tk_kind : TokenKind;
  tk_text : string;
  tk_line_no : Z;
  tk_filename : option string;
  tk_ty : option CType;
  tk_val : Z;
  tk_fval : fval_t
}.

(** [struct Member], as far as it is read. *)
Record Member : Type := mkMember {
  mem_offset : Z;
  mem_name : option Token
}.

(** [node->var] points back to an [Obj].  The generator and the dumper
    read four things through it: the name, the type, [is_local] and the
    offset.  The first three never change and are kept here; the offset is
    written by the layout pass and lives in the object store under
    [ref_id], which stands for the address of the [Obj]. *)
Record ObjRef : Type := mkObjRef {
  ref_id : positive;
  ref_name : string;
  ref_ty : option CType;
  ref_is_local : bool
}.

#[local] Unset Elimination Schemes.

(** [struct Node].  Children that may be null are options; the lists
    linked through [next] ([body], [args]) are lists.  [nd_case_next]
    holds the [begin] value of every case node on the [case_next] chain
    of a switch, in chain order: the only field the generator reads
    there.  [default_case] is tested by the generator and never used; it
    is left out. *)
Inductive Node : Type := mkNode {
  nd_kind : NodeKind;
  nd_ty : option CType;
  nd_tok : option Token;
  nd_lhs : option Node;
  nd_rhs : option Node;
  nd_cond : option Node;
  nd_then : option Node;
  nd_els : option Node;
  nd_init : option Node;
  nd_inc : option Node;
  nd_body : list Node;
  nd_args : list Node;
  nd_var : option ObjRef;
  nd_member : option Member;
  nd_brk_label : string;
  nd_cont_label : string;
  nd_case_next : list Z;
  nd_begin : Z;
  nd_end : Z;
  nd_label : option string;
  nd_unique_label : string;
  nd_val : Z;
  nd_fval : fval_t;
  nd_asm_str : option string;
  nd_cas_addr : option Node;
  nd_cas_old : option Node;
  nd_cas_new : option Node
}.

(** [struct Obj]: a global variable, a function, or a local of a
    function.  [obj_id] stands for its address; its [offset] and
    [stack_size] fields are in the object store. *)
Inductive Obj : Type := mkObj {
  obj_id : positive;
  obj_name : string;
  obj_ty : option CType;
  obj_is_local : bool;
  obj_is_function : bool;
  obj_is_definition : bool;
  obj_is_static : bool;
  obj_is_live : bool;
  obj_is_tentative : bool;
  obj_is_tls : bool;
  obj_init_data : option (list ascii);
  obj_params : list Obj;
  obj_locals : list Obj;
  obj_body : option Node
}.

#[local] Set Elimination Schemes.

(** The two fields of an [Obj] the layout pass writes, for every object. *)
Record ObjStore : Type := mkStore {
  offsets : gmap positive Z;       (* obj->offset *)
  stack_sizes : gmap positive Z    (* fn->stack_size *)
}.

Definition offset_of (st : ObjStore) (id : positive) : Z :=
  default 0 (offsets st !! id).
Definition stack_size_of (st : ObjStore) (id : positive) : Z :=
  default 0 (stack_sizes st !! id).
Definition set_offset (id : positive) (v : Z) (st : ObjStore) : ObjStore :=
  {| offsets := <[id := v]> (offsets st); stack_sizes := stack_sizes st |}.
Definition set_stack_size (id : positive) (v : Z) (st : ObjStore) : ObjStore :=
  {| offsets := offsets st; stack_sizes := <[id := v]> (stack_sizes st) |}.

(** ** The output stream of the code generator *)

(** What one call writes: [println] writes an indented line, [fprintf]
    writes its text as it is. *)
Inductive item : Type :=
| Line (indent : Z) (fmt : string) (args : list arg)
| Text (fmt : string) (args : list arg).

Definition nl : string := String "010"%char EmptyString.

Fixpoint spaces2 (n : nat) : string :=
  match n with O => EmptyString | S k => "  " +:+ spaces2 k end.

Definition render_item (i : item) : string :=
  match i with
  | Line ind fmt args => spaces2 (Z.to_nat ind) +:+ sprintf fmt args +:+ nl
  | Text fmt args => sprintf fmt args
  end.

Fixpoint render (l : list item) : string :=
  match l with
  | [] => EmptyString
  | i :: r => render_item i +:+ render r
  end.

(** The statics [output_file] and [indent_level]. *)
Record emitter : Type := mkEmitter {
  output_file : list item;
  indent_level : Z
}.

(** The other two statics of [codegen_wasm.c].  [gen_expr], [gen_stmt] and
    the functions below them touch [output_file] and [indent_level] only;
    [current_fn] and [wasm_label_count] are written by [emit_functions]. *)
Record statics : Type := mkStatics {
  st_emitter : emitter;
  current_fn : option positive;
  wasm_label_count : Z
}.

End DataModel.

(** State passing with early termination, over a state [S]. *)
Definition MS (S A : Type) : Type := S -> result A * S.

Definition ret {S A} (a : A) : MS S A := fun s => (Ok a, s).
Definition bind {S A B} (m : MS S A) (k : A -> MS S B) : MS S B :=
  fun s => match m s with
           | (Ok a, s') => k a s'
           | (Stop f, s') => (Stop f, s')
           end.
Definition stop {S A} (f : failure) : MS S A := fun s => (Stop f, s).
Definition skip {S} : MS S unit := ret tt.

(** [f(p)] for a function that starts with [if (!p) return;]. *)
Definition opt {S A} (f : A -> MS S unit) (p : option A) : MS S unit :=
  match p with Some a => f a | None => skip end.

(** [f(p)] for a function that reads through [p] at once. *)
Definition must {S A} (f : A -> MS S unit) (p : option A) : MS S unit :=
  match p with Some a => f a | None => stop invalid_read end.

Declare Scope cg_scope.
Delimit Scope cg_scope with cg.
Notation "m1 ;; m2" := (bind m1 (fun _ => m2))
  (at level 100, right associativity) : cg_scope.

Section CodegenWasm.
Context `{LongDouble}.
#[local] Open Scope cg_scope.

Definition M : Type -> Type := MS emitter.

Definition fprintf (fmt : string) (args : list arg) : M unit :=
  fun s => (Ok tt, {| output_file := output_file s ++ [Text fmt args];
                      indent_level := indent_level s |}).

Definition println (fmt : string) (args : list arg) : M unit :=
  fun s => (Ok tt, {| output_file :=
                        output_file s ++ [Line (indent_level s) fmt args];
                      indent_level := indent_level s |}).

Definition indent : M unit :=
  fun s => (Ok tt, {| output_file := output_file s;
                      indent_level := indent_level s + 1 |}).
Definition dedent : M unit :=
  fun s => (Ok tt, {| output_file := output_file s;
                      indent_level := indent_level s - 1 |}).

(** *** Type utilities *)

Definition wasm_type (ty : option CType) : string :=
  match ty with
  | None => "i32"
  | Some ty =>
    match ty_kind ty with
    | TY_FLOAT => "f32"
    | TY_DOUBLE | TY_LDOUBLE => "f64"
    | TY_LONG => if (ty_size ty =? 8)%Z then "i64" else "i32"
    | _ => "i32"
    end
  end.

Definition is_wasm_i64 (ty : option CType) : bool :=
  match ty with
  | Some ty => TypeKind_eqb (ty_kind ty) TY_LONG && (ty_size ty =? 8)%Z
  | None => false
  end.

Definition is_wasm_f32 (ty : option CType) : bool :=
  match ty with
  | Some ty => TypeKind_eqb (ty_kind ty) TY_FLOAT
  | None => false
  end.

Definition is_wasm_f64 (ty : option CType) : bool :=
  match ty with
  | Some ty => TypeKind_eqb (ty_kind ty) TY_DOUBLE
               || TypeKind_eqb (ty_kind ty) TY_LDOUBLE
  | None => false
  end.

Definition is_wasm_float (ty : option CType) : bool :=
  is_wasm_f32 ty || is_wasm_f64 ty.

Definition wasm_size (ty : option CType) : Z :=
  match ty with
  | None => 4
  | Some ty =>
    if TypeKind_eqb (ty_kind ty) TY_PTR || TypeKind_eqb (ty_kind ty) TY_FUNC
    then 4
    else if TypeKind_eqb (ty_kind ty) TY_LONG then 4
    else ty_size ty
  end.

Definition wasm_load (ty : option CType) : M unit :=
  match ty with
  | None => skip
  | Some t =>
    if TypeKind_eqb (ty_kind t) TY_ARRAY || TypeKind_eqb (ty_kind t) TY_STRUCT
       || TypeKind_eqb (ty_kind t) TY_UNION || TypeKind_eqb (ty_kind t) TY_FUNC
    then skip
    else if TypeKind_eqb (ty_kind t) TY_FLOAT then println "(f32.load)" []
    else if TypeKind_eqb (ty_kind t) TY_DOUBLE
            || TypeKind_eqb (ty_kind t) TY_LDOUBLE
    then println "(f64.load)" []
    else
      let sz := wasm_size ty in
      if (sz =? 1)%Z then
        println (if ty_is_unsigned t then "(i32.load8_u)" else "(i32.load8_s)") []
      else if (sz =? 2)%Z then
        println (if ty_is_unsigned t then "(i32.load16_u)" else "(i32.load16_s)") []
      else println "(i32.load)" []
  end.

Definition wasm_store (ty : option CType) : M unit :=
  match ty with
  | None => skip
  | Some t =>
    if TypeKind_eqb (ty_kind t) TY_STRUCT || TypeKind_eqb (ty_kind t) TY_UNION
    then
      println ";; TODO: struct store (size=%d)" [Int (ty_size t)] ;;
      println "(drop)" [] ;;
      println "(drop)" []
    else if TypeKind_eqb (ty_kind t) TY_FLOAT then println "(f32.store)" []
    else if TypeKind_eqb (ty_kind t) TY_DOUBLE
            || TypeKind_eqb (ty_kind t) TY_LDOUBLE
    then println "(f64.store)" []
    else
      let sz := wasm_size ty in
      if (sz =? 1)%Z then println "(i32.store8)" []
      else if (sz =? 2)%Z then println "(i32.store16)" []
      else println "(i32.store)" []
  end.

End CodegenWasm.


Section Generator.
Context `{LongDouble}.
#[local] Open Scope cg_scope.

(** [for (n = first; n; n = n->next) f(n);] *)
Fixpoint for_each {S A} (f : A -> MS S unit) (l : list A) : MS S unit :=
  match l with
  | [] => skip
  | a :: r => f a ;; for_each f r
  end.

Definition type_is_unsigned (ty : option CType) : bool :=
  match ty with Some t => ty_is_unsigned t | None => false end.

Definition is_kind (ty : option CType) (k : TypeKind) : bool :=
  match ty with Some t => TypeKind_eqb (ty_kind t) k | None => false end.

(** *** Address generator

    The three generators call each other; [gen_expr] calls [gen_addr] on
    the node it was given.  Each body is written over the functions it
    calls, and the recursive knot is tied below. *)
Definition gen_addr_body (st : ObjStore) (gen_expr : Node -> M unit)
  : Node -> M unit :=
  fix gen_addr (node : Node) : M unit :=
    match nd_kind node with
    | ND_VAR =>
      match nd_var node with
      | None => stop invalid_read
      | Some var =>
        if ref_is_local var then
          println "(i32.add (local.get $__bp) (i32.const %d))"
                  [Int (offset_of st (ref_id var))]
        else
          println "(i32.const %d) ;; &%s"
                  [Int (offset_of st (ref_id var)); Str (ref_name var)]
      end
    | ND_DEREF =>
      opt gen_expr (nd_lhs node)
    | ND_COMMA =>
      opt gen_expr (nd_lhs node) ;;
      println "(drop)" [] ;;
      must gen_addr (nd_rhs node)
    | ND_MEMBER =>
      must gen_addr (nd_lhs node) ;;
      match nd_member node with
      | None => stop invalid_read
      | Some member =>
        println "(i32.const %d)" [Int (mem_offset member)] ;;
        println "(i32.add)" []
      end
    | k => stop (error_tok "not an lvalue (wasm gen_addr)" k)
    end.

(** *** Expression generator *)

(** The part of [gen_expr] after its first switch: binary operations. *)
Definition gen_binary (gen_expr : Node -> M unit) (node : Node) : M unit :=
  let unsupported :=
    stop (error_tok "unsupported expression in wasm codegen (kind=%d)"
                    (nd_kind node)) in
  match nd_lhs node, nd_rhs node with
  | Some lhs, Some rhs =>
    gen_expr lhs ;;
    gen_expr rhs ;;
    let is_unsigned_int := type_is_unsigned (nd_ty lhs) in
    let is_float := is_wasm_float (nd_ty node) in
    let t := if is_float then wasm_type (nd_ty node) else "i32" in
    match nd_kind node with
    | ND_ADD => println "(%s.add)" [Str t]
    | ND_SUB => println "(%s.sub)" [Str t]
    | ND_MUL => println "(%s.mul)" [Str t]
    | ND_DIV =>
      if is_float then println "(%s.div)" [Str t]
      else println (if is_unsigned_int then "(%s.div_u)" else "(%s.div_s)")
                   [Str t]
    | ND_MOD =>
      println (if is_unsigned_int then "(%s.rem_u)" else "(%s.rem_s)") [Str t]
    | ND_BITAND => println "(%s.and)" [Str t]
    | ND_BITOR => println "(%s.or)" [Str t]
    | ND_BITXOR => println "(%s.xor)" [Str t]
    | ND_SHL => println "(%s.shl)" [Str t]
    | ND_SHR =>
      println (if is_unsigned_int then "(%s.shr_u)" else "(%s.shr_s)") [Str t]
    | ND_EQ => println "(%s.eq)" [Str t]
    | ND_NE => println "(%s.ne)" [Str t]
    | ND_LT =>
      if is_float then println "(%s.lt)" [Str t]
      else println (if is_unsigned_int then "(%s.lt_u)" else "(%s.lt_s)")
                   [Str t]
    | ND_LE =>
      if is_float then println "(%s.le)" [Str t]
      else println (if is_unsigned_int then "(%s.le_u)" else "(%s.le_s)")
                   [Str t]
    | _ => unsupported
    end
  | _, _ => unsupported
  end.

(** The conversion a [ND_CAST] emits once its operand is on the stack. *)
Definition gen_cast (from to : option CType) : M unit :=
  match from, to with
  | Some from_, Some to_ =>
    if negb (is_wasm_float from) && negb (is_wasm_float to)
       && negb (is_wasm_i64 from) && negb (is_wasm_i64 to)
    then
      if TypeKind_eqb (ty_kind to_) TY_BOOL then
        println "(i32.const 0)" [] ;;
        println "(i32.ne)" []
      else if (ty_size to_ =? 1)%Z then
        println (if ty_is_unsigned to_ then "(i32.const 255) (i32.and)"
                 else "(i32.extend8_s)") []
      else if (ty_size to_ =? 2)%Z then
        println (if ty_is_unsigned to_ then "(i32.const 65535) (i32.and)"
                 else "(i32.extend16_s)") []
      else skip
    else if is_wasm_f32 from && is_wasm_f64 to then
      println "(f64.promote_f32)" []
    else if is_wasm_f64 from && is_wasm_f32 to then
      println "(f32.demote_f64)" []
    else if is_wasm_float from && negb (is_wasm_float to) then
      if is_wasm_f32 from then
        println (if ty_is_unsigned to_ then "(i32.trunc_f32_u)"
                 else "(i32.trunc_f32_s)") []
      else
        println (if ty_is_unsigned to_ then "(i32.trunc_f64_u)"
                 else "(i32.trunc_f64_s)") []
    else if negb (is_wasm_float from) && is_wasm_float to then
      if is_wasm_f32 to then
        println (if ty_is_unsigned from_ then "(f32.convert_i32_u)"
                 else "(f32.convert_i32_s)") []
      else
        println (if ty_is_unsigned from_ then "(f64.convert_i32_u)"
                 else "(f64.convert_i32_s)") []
    else skip
  | _, _ => skip
  end.

(** The loop of [ND_STMT_EXPR] over the statements of the body. *)
Definition gen_stmt_expr_body (gen_expr gen_stmt : Node -> M unit)
  : list Node -> M unit :=
  fix loop (l : list Node) : M unit :=
    match l with
    | [] => skip
    | n :: rest =>
      (match rest with
       | [] =>
         match nd_kind n with
         | ND_EXPR_STMT => opt gen_expr (nd_lhs n)
         | _ => gen_stmt n ;; println "(i32.const 0)" []
         end
       | _ :: _ => gen_stmt n
       end) ;;
      loop rest
    end.

Definition gen_expr_body (st : ObjStore) (gen_expr gen_stmt : Node -> M unit)
  (node : Node) : M unit :=
  let gen_addr := gen_addr_body st gen_expr in
  match nd_kind node with
  | ND_NULL_EXPR =>
    println "(i32.const 0)" []
  | ND_NUM =>
    if is_wasm_f32 (nd_ty node) then
      println "(f32.const %f)" [Flt (nd_fval node)]
    else if is_wasm_f64 (nd_ty node) then
      println "(f64.const %f)" [Dbl (nd_fval node)]
    else if is_wasm_i64 (nd_ty node) then
      println "(i64.const %lld)" [Int (nd_val node)]
    else
      println "(i32.const %d)" [Int (wrap32 (nd_val node))]
  | ND_VAR =>
    gen_addr node ;;
    wasm_load (nd_ty node)
  | ND_MEMBER =>
    gen_addr node ;;
    wasm_load (nd_ty node)
  | ND_ADDR =>
    must gen_addr (nd_lhs node)
  | ND_DEREF =>
    opt gen_expr (nd_lhs node) ;;
    wasm_load (nd_ty node)
  | ND_NEG =>
    if is_wasm_f32 (nd_ty node) then
      opt gen_expr (nd_lhs node) ;;
      println "(f32.neg)" []
    else if is_wasm_f64 (nd_ty node) then
      opt gen_expr (nd_lhs node) ;;
      println "(f64.neg)" []
    else
      println "(i32.const 0)" [] ;;
      opt gen_expr (nd_lhs node) ;;
      println "(i32.sub)" []
  | ND_NOT =>
    opt gen_expr (nd_lhs node) ;;
    println "(i32.eqz)" []
  | ND_BITNOT =>
    opt gen_expr (nd_lhs node) ;;
    println "(i32.const -1)" [] ;;
    println "(i32.xor)" []
  | ND_ASSIGN =>
    must gen_addr (nd_lhs node) ;;
    opt gen_expr (nd_rhs node) ;;
    if is_wasm_float (nd_ty node) then
      let wt := wasm_type (nd_ty node) in
      println "(local.set $__tmp_%s)" [Str wt] ;;
      println "(local.get $__tmp_%s)" [Str wt] ;;
      wasm_store (nd_ty node) ;;
      println "(local.get $__tmp_%s)" [Str wt]
    else
      println "(local.set $__tmp_i32)" [] ;;
      println "(local.get $__tmp_i32)" [] ;;
      wasm_store (nd_ty node) ;;
      println "(local.get $__tmp_i32)" []
  | ND_COMMA =>
    opt gen_expr (nd_lhs node) ;;
    println "(drop)" [] ;;
    opt gen_expr (nd_rhs node)
  | ND_CAST =>
    opt gen_expr (nd_lhs node) ;;
    match nd_lhs node with
    | None => stop invalid_read
    | Some lhs => gen_cast (nd_ty lhs) (nd_ty node)
    end
  | ND_COND =>
    let wt := wasm_type (nd_ty node) in
    opt gen_expr (nd_cond node) ;;
    println "(if (result %s)" [Str wt] ;;
    indent ;;
    println "(then" [] ;;
    indent ;;
    opt gen_expr (nd_then node) ;;
    dedent ;;
    println ")" [] ;;
    println "(else" [] ;;
    indent ;;
    match nd_els node with
    | Some els => gen_expr els
    | None => println "(%s.const 0)" [Str wt]
    end ;;
    dedent ;;
    println ")" [] ;;
    dedent ;;
    println ")" []
  | ND_LOGAND =>
    opt gen_expr (nd_lhs node) ;;
    println "(if (result i32)" [] ;;
    indent ;;
    println "(then" [] ;;
    indent ;;
    opt gen_expr (nd_rhs node) ;;
    println "(i32.const 0)" [] ;;
    println "(i32.ne)" [] ;;
    dedent ;;
    println ")" [] ;;
    println "(else (i32.const 0))" [] ;;
    dedent ;;
    println ")" []
  | ND_LOGOR =>
    opt gen_expr (nd_lhs node) ;;
    println "(if (result i32)" [] ;;
    indent ;;
    println "(then (i32.const 1))" [] ;;
    println "(else" [] ;;
    indent ;;
    opt gen_expr (nd_rhs node) ;;
    println "(i32.const 0)" [] ;;
    println "(i32.ne)" [] ;;
    dedent ;;
    println ")" [] ;;
    dedent ;;
    println ")" []
  | ND_FUNCALL =>
    for_each gen_expr (nd_args node) ;;
    match nd_lhs node with
    | None => stop invalid_read
    | Some lhs =>
      match nd_kind lhs with
      | ND_VAR =>
        match nd_var lhs with
        | None => stop invalid_read
        | Some var => println "(call $%s)" [Str (ref_name var)]
        end
      | _ =>
        println ";; TODO: indirect call" [] ;;
        println "(drop)" [] ;;
        println "(i32.const 0)" []
      end
    end
  | ND_STMT_EXPR =>
    gen_stmt_expr_body gen_expr gen_stmt (nd_body node)
  | ND_MEMZERO =>
    match nd_var node with
    | None => stop invalid_read
    | Some var =>
      match ref_ty var with
      | None => stop invalid_read
      | Some vty =>
        let size := ty_size vty in
        println ";; memzero %s (%d bytes)" [Str (ref_name var); Int size] ;;
        println "(i32.add (local.get $__bp) (i32.const %d))"
                [Int (offset_of st (ref_id var))] ;;
        println "(i32.const 0)" [] ;;
        println "(i32.const %d)" [Int size] ;;
        println "(memory.fill)" []
      end
    end
  | _ => gen_binary gen_expr node
  end.

(** *** Statement generator *)

Definition gen_stmt_body (gen_expr gen_stmt : Node -> M unit) (node : Node)
  : M unit :=
  match nd_kind node with
  | ND_RETURN =>
    opt gen_expr (nd_lhs node) ;;
    println "(br $__return)" []
  | ND_EXPR_STMT =>
    opt gen_expr (nd_lhs node) ;;
    match nd_lhs node with
    | Some lhs =>
      match nd_ty lhs with
      | Some lty =>
        if negb (TypeKind_eqb (ty_kind lty) TY_VOID)
        then println "(drop)" [] else skip
      | None => skip
      end
    | None => skip
    end
  | ND_BLOCK =>
    for_each gen_stmt (nd_body node)
  | ND_IF =>
    opt gen_expr (nd_cond node) ;;
    println "(if" [] ;;
    indent ;;
    println "(then" [] ;;
    indent ;;
    opt gen_stmt (nd_then node) ;;
    dedent ;;
    println ")" [] ;;
    match nd_els node with
    | Some els =>
      println "(else" [] ;;
      indent ;;
      gen_stmt els ;;
      dedent ;;
      println ")" []
    | None => skip
    end ;;
    dedent ;;
    println ")" []
  | ND_FOR =>
    opt gen_stmt (nd_init node) ;;
    println "(block $%s ;; break target" [Str (nd_brk_label node)] ;;
    indent ;;
    println "(loop $%s ;; continue target" [Str (nd_cont_label node)] ;;
    indent ;;
    match nd_cond node with
    | Some cond =>
      gen_expr cond ;;
      println "(i32.eqz)" [] ;;
      println "(br_if $%s)" [Str (nd_brk_label node)]
    | None => skip
    end ;;
    opt gen_stmt (nd_then node) ;;
    match nd_inc node with
    | Some inc =>
      gen_expr inc ;;
      println "(drop)" []
    | None => skip
    end ;;
    println "(br $%s)" [Str (nd_cont_label node)] ;;
    dedent ;;
    println ") ;; end loop" [] ;;
    dedent ;;
    println ") ;; end block" []
  | ND_DO =>
    println "(block $%s ;; break target" [Str (nd_brk_label node)] ;;
    indent ;;
    println "(loop $%s ;; continue target" [Str (nd_cont_label node)] ;;
    indent ;;
    opt gen_stmt (nd_then node) ;;
    opt gen_expr (nd_cond node) ;;
    println "(br_if $%s)" [Str (nd_cont_label node)] ;;
    dedent ;;
    println ") ;; end loop" [] ;;
    dedent ;;
    println ") ;; end block" []
  | ND_SWITCH =>
    opt gen_expr (nd_cond node) ;;
    println "(local.set $__tmp_i32)" [] ;;
    println "(block $%s ;; break target" [Str (nd_brk_label node)] ;;
    indent ;;
    for_each (fun begin =>
                println "(local.get $__tmp_i32)" [] ;;
                println "(i32.const %ld)" [Int begin] ;;
                println "(i32.eq)" [] ;;
                println "(if (then" [] ;;
                indent)
             (nd_case_next node) ;;
    opt gen_stmt (nd_then node) ;;
    for_each (fun _ : Z => dedent ;; println "))" []) (nd_case_next node) ;;
    dedent ;;
    println ") ;; end break block" []
  | ND_CASE =>
    opt gen_stmt (nd_lhs node)
  | ND_GOTO =>
    println ";; TODO: goto %s" [Str (nd_unique_label node)]
  | ND_LABEL =>
    (* a null [label] is printed the way glibc prints a null [%s] *)
    println ";; label: %s" [Str (default "(null)" (nd_label node))] ;;
    opt gen_stmt (nd_lhs node)
  | k => stop (error_tok "unsupported statement in wasm codegen (kind=%d)" k)
  end.

Fixpoint gen_expr (st : ObjStore) (node : Node) {struct node} : M unit :=
  gen_expr_body st (gen_expr st) (gen_stmt st) node
with gen_stmt (st : ObjStore) (node : Node) {struct node} : M unit :=
  gen_stmt_body (gen_expr st) (gen_stmt st) node.

Definition gen_addr (st : ObjStore) : Node -> M unit :=
  gen_addr_body st (gen_expr st).

End Generator.


(** *** Memory layout *)

(** Modelled from the spec: [align_to] is declared in [chibicc.h] and
    defined in a file that is not part of the two sources.  Section 6
    says it rounds [n] up to a positive power-of-two alignment: the
    result is the least multiple of [align] that is not below [n]. *)
Definition align_to (n align : Z) : Z := (n + align - 1) / align * align.

(** The callers keep the result of [align_to] in an [int]: the running
    offset, [var->offset], [fn->stack_size], the value
    [assign_global_offsets] returns and [stack_start]. *)
Definition int_align_to (n align : Z) : Z := wrap32 (align_to n align).

Section Layout.
Context `{LongDouble}.
#[local] Open Scope cg_scope.

(** The layout functions run over the object store.  [var->ty->align]
    reads through [var->ty]. *)
Definition L : Type -> Type := MS ObjStore.

Definition store_offset (id : positive) (v : Z) : L unit :=
  fun st => (Ok tt, set_offset id v st).
Definition store_stack_size (id : positive) (v : Z) : L unit :=
  fun st => (Ok tt, set_stack_size id v st).

(** The inner loop of [assign_wasm_offsets], from running offset [offset];
    it returns the offset after the last local. *)
Fixpoint assign_local_offsets (locals : list Obj) (offset : Z) : L Z :=
  match locals with
  | [] => ret offset
  | var :: rest =>
    match obj_ty var with
    | None => stop invalid_read
    | Some ty =>
      let offset :=
        int_align_to offset (if (ty_align ty >? 0)%Z then ty_align ty else 1) in
      store_offset (obj_id var) offset ;;
      assign_local_offsets rest (int_add offset (ty_size ty))
    end
  end.

Fixpoint assign_wasm_offsets (prog : list Obj) : L unit :=
  match prog with
  | [] => skip
  | fn :: rest =>
    (if negb (obj_is_function fn) then skip
     else
       bind (assign_local_offsets (obj_locals fn) 0) (fun offset =>
       store_stack_size (obj_id fn) (int_align_to offset 16))) ;;
    assign_wasm_offsets rest
  end.

(** The loop of [assign_global_offsets] from running offset [offset]. *)
Fixpoint assign_global_offsets_from (prog : list Obj) (offset : Z) : L Z :=
  match prog with
  | [] => ret (int_align_to offset 16)
  | var :: rest =>
    if obj_is_function var then assign_global_offsets_from rest offset
    else
      match obj_ty var with
      | None => stop invalid_read
      | Some ty =>
        let offset :=
          int_align_to offset (if (ty_align ty >? 0)%Z then ty_align ty else 1) in
        store_offset (obj_id var) offset ;;
        assign_global_offsets_from rest (int_add offset (ty_size ty))
      end
  end.

Definition assign_global_offsets (prog : list Obj) : L Z :=
  assign_global_offsets_from prog 0.

End Layout.

(** *** Module emitter *)

Section ModuleEmitter.
Context `{LongDouble}.
#[local] Open Scope cg_scope.

(** The byte loop of [emit_data]: [var->init_data[i]] for [i] from [i] on,
    [n] more times. *)
Fixpoint emit_data_bytes (data : list ascii) (i : nat) (n : nat) : M unit :=
  match n with
  | O => skip
  | S n' =>
    match nth_error data i with
    | None => stop invalid_read
    | Some c =>
      let code := Z.of_N (N_of_ascii c) in
      (if (32 <=? code)%Z && (code <? 127)%Z
          && negb (Ascii.eqb c "034") && negb (Ascii.eqb c "\")
       then fprintf "%c" [Chr c]
       else fprintf "\%02x" [Int code]) ;;
      emit_data_bytes data (S i) n'
    end
  end.

Fixpoint emit_data (st : ObjStore) (prog : list Obj) : M unit :=
  match prog with
  | [] => skip
  | var :: rest =>
    (if obj_is_function var then skip
     else
       match obj_init_data var with
       | None => skip
       | Some data =>
         match obj_ty var with
         | None => stop invalid_read
         | Some ty =>
           println ";; global: %s (offset=%d, size=%d)"
                   [Str (obj_name var); Int (offset_of st (obj_id var));
                    Int (ty_size ty)] ;;
           fprintf ("  (data (i32.const %d) " +:+ dq)
                   [Int (offset_of st (obj_id var))] ;;
           emit_data_bytes data 0 (Z.to_nat (ty_size ty)) ;;
           fprintf (dq +:+ ")" +:+ nl) []
         end
       end) ;;
    emit_data st rest
  end.

(** [emit_functions] runs over all four statics. *)
Definition G : Type -> Type := MS statics.

Definition lift {A} (m : M A) : G A :=
  fun s => let (r, e) := m (st_emitter s) in
           (r, {| st_emitter := e;
                  current_fn := current_fn s;
                  wasm_label_count := wasm_label_count s |}).

Definition set_current_fn (fn : Obj) : G unit :=
  fun s => (Ok tt, {| st_emitter := st_emitter s;
                      current_fn := Some (obj_id fn);
                      wasm_label_count := wasm_label_count s |}).

Definition set_wasm_label_count (n : Z) : G unit :=
  fun s => (Ok tt, {| st_emitter := st_emitter s;
                      current_fn := current_fn s;
                      wasm_label_count := n |}).

Definition set_indent_level (n : Z) : M unit :=
  fun s => (Ok tt, {| output_file := output_file s; indent_level := n |}).

Definition wasm_count : G Z :=
  fun s => (Ok (wasm_label_count s),
            {| st_emitter := st_emitter s;
               current_fn := current_fn s;
               wasm_label_count := int_add (wasm_label_count s) 1 |}).

Definition emit_function (st : ObjStore) (fn : Obj) : G unit :=
  set_current_fn fn ;;
  set_wasm_label_count 0 ;;
  lift (
    fprintf "  (func $%s" [Str (obj_name fn)] ;;
    (if String.eqb (obj_name fn) "main"
     then fprintf (" (export " +:+ quoted "_start" +:+ ")") []
     else skip) ;;
    for_each (fun param =>
                fprintf " (param $p_%s %s)"
                        [Str (obj_name param); Str (wasm_type (obj_ty param))])
             (obj_params fn) ;;
    match obj_ty fn with
    | None => stop invalid_read
    | Some fty =>
      let ret := ty_return_ty fty in
      let has_return :=
        match ret with
        | Some r => negb (TypeKind_eqb (ty_kind r) TY_VOID)
        | None => false
        end in
      (if has_return then fprintf " (result %s)" [Str (wasm_type ret)]
       else skip) ;;
      fprintf nl [] ;;
      set_indent_level 2 ;;
      println "(local $__bp i32)  ;; base pointer" [] ;;
      println "(local $__tmp_i32 i32)" [] ;;
      println "(local $__tmp_f32 f32)" [] ;;
      println "(local $__tmp_f64 f64)" [] ;;
      println ";; prologue: allocate %d bytes"
              [Int (stack_size_of st (obj_id fn))] ;;
      println "(global.set $__sp (i32.sub (global.get $__sp) (i32.const %d)))"
              [Int (stack_size_of st (obj_id fn))] ;;
      println "(local.set $__bp (global.get $__sp))" [] ;;
      for_each (fun param =>
                  println ";; store param %s at bp+%d"
                          [Str (obj_name param);
                           Int (offset_of st (obj_id param))] ;;
                  println "(i32.add (local.get $__bp) (i32.const %d))"
                          [Int (offset_of st (obj_id param))] ;;
                  println "(local.get $p_%s)" [Str (obj_name param)] ;;
                  wasm_store (obj_ty param))
               (obj_params fn) ;;
      (if has_return
       then println "(block $__return (result %s)" [Str (wasm_type ret)]
       else println "(block $__return" []) ;;
      indent ;;
      opt (gen_stmt st) (obj_body fn) ;;
      (if has_return then
         if String.eqb (obj_name fn) "main"
         then println "(i32.const 0)" []
         else println "(%s.const 0) ;; implicit return" [Str (wasm_type ret)]
       else skip) ;;
      dedent ;;
      println ") ;; end block $__return" [] ;;
      println ";; epilogue" [] ;;
      println "(global.set $__sp (i32.add (local.get $__bp) (i32.const %d)))"
              [Int (stack_size_of st (obj_id fn))] ;;
      set_indent_level 1 ;;
      println ") ;; end func $%s" [Str (obj_name fn)] ;;
      fprintf nl []
    end).

Fixpoint emit_functions (st : ObjStore) (prog : list Obj) : G unit :=
  match prog with
  | [] => skip
  | fn :: rest =>
    (if negb (obj_is_function fn) || negb (obj_is_definition fn) then skip
     else if negb (obj_is_live fn) then skip
     else emit_function st fn) ;;
    emit_functions st rest
  end.

(** The state [codegen_wasm] runs in: the statics of the file and the
    fields of the program graph it writes. *)
Record world : Type := mkWorld {
  w_statics : statics;
  w_objs : ObjStore
}.

Definition W : Type -> Type := MS world.

Definition on_objs {A} (m : L A) : W A :=
  fun w => let (r, st) := m (w_objs w) in
           (r, {| w_statics := w_statics w; w_objs := st |}).

Definition on_statics {A} (m : G A) : W A :=
  fun w => let (r, s) := m (w_statics w) in
           (r, {| w_statics := s; w_objs := w_objs w |}).

Definition get_objs : W ObjStore := fun w => (Ok (w_objs w), w).

(** [output_file = out; indent_level = 0;] where [out] is a stream
    nothing was written to. *)
Definition open_output : G unit :=
  fun s => (Ok tt, {| st_emitter := {| output_file := []; indent_level := 0 |};
                      current_fn := current_fn s;
                      wasm_label_count := wasm_label_count s |}).

Definition codegen_wasm (prog : list Obj) : W unit :=
  on_statics open_output ;;
  bind (on_objs (assign_global_offsets prog)) (fun data_size =>
  on_objs (assign_wasm_offsets prog) ;;
  let stack_start := int_align_to (int_add data_size 1024) 65536 in
  let stack_start := if (stack_start <? 65536)%Z then 65536 else stack_start in
  bind get_objs (fun st =>
  on_statics (
    lift (
      println "(module" [] ;;
      indent ;;
      println ("(memory (export " +:+ quoted "memory" +:+ ") 2)") [] ;;
      fprintf nl [] ;;
      println ";; Stack pointer (grows downward from %d)" [Int stack_start] ;;
      println "(global $__sp (mut i32) (i32.const %d))" [Int stack_start] ;;
      fprintf nl [] ;;
      emit_data st prog ;;
      fprintf nl []) ;;
    emit_functions st prog ;;
    lift (
      dedent ;;
      println ")" [])))).

(** What a run wrote to [out]. *)
Definition output_of (w : world) : string :=
  render (output_file (st_emitter (w_statics w))).

End ModuleEmitter.


(** ** The JSON dumper ([dump.c])

    Every function of the dumper writes to a stream and returns nothing;
    its embedding returns the text written. *)

Definition MAX_DEPTH : Z := 20.

Section Dump.
Context `{LongDouble}.

Definition json_escape_byte (c : ascii) : string :=
  let code := Z.of_N (N_of_ascii c) in
  if Ascii.eqb c "034" then "\" +:+ dq
  else if Ascii.eqb c "\" then "\\"
  else if Ascii.eqb c "010" then "\n"
  else if Ascii.eqb c "013" then "\r"
  else if Ascii.eqb c "009" then "\t"
  else if Ascii.eqb c "000" then "\u0000"
  else if (code <? 32)%Z then sprintf "\u%04x" [Int code]
  else String c EmptyString.

Fixpoint json_escape (s : string) : string :=
  match s with
  | EmptyString => EmptyString
  | String c rest => json_escape_byte c +:+ json_escape rest
  end.

(** [json_print_escaped(out, s, len)], with [s] the [len] bytes. *)
Definition json_print_escaped (s : string) : string :=
  dq +:+ json_escape s +:+ dq.

Definition json_print_str (s : option string) : string :=
  match s with
  | None => "null"
  | Some s => json_print_escaped s
  end.

Definition token_kind_name (kind : TokenKind) : string :=
  match kind with
  | TK_IDENT => "TK_IDENT"
  | TK_PUNCT => "TK_PUNCT"
  | TK_KEYWORD => "TK_KEYWORD"
  | TK_STR => "TK_STR"
  | TK_NUM => "TK_NUM"
  | TK_PP_NUM => "TK_PP_NUM"
  | TK_EOF => "TK_EOF"
  end.

Definition node_kind_name (kind : NodeKind) : string :=
  match kind with
  | ND_NULL_EXPR => "ND_NULL_EXPR"
  | ND_ADD => "ND_ADD"
  | ND_SUB => "ND_SUB"
  | ND_MUL => "ND_MUL"
  | ND_DIV => "ND_DIV"
  | ND_NEG => "ND_NEG"
  | ND_MOD => "ND_MOD"
  | ND_BITAND => "ND_BITAND"
  | ND_BITOR => "ND_BITOR"
  | ND_BITXOR => "ND_BITXOR"
  | ND_SHL => "ND_SHL"
  | ND_SHR => "ND_SHR"
  | ND_EQ => "ND_EQ"
  | ND_NE => "ND_NE"
  | ND_LT => "ND_LT"
  | ND_LE => "ND_LE"
  | ND_ASSIGN => "ND_ASSIGN"
  | ND_COND => "ND_COND"
  | ND_COMMA => "ND_COMMA"
  | ND_MEMBER => "ND_MEMBER"
  | ND_ADDR => "ND_ADDR"
  | ND_DEREF => "ND_DEREF"
  | ND_NOT => "ND_NOT"
  | ND_BITNOT => "ND_BITNOT"
  | ND_LOGAND => "ND_LOGAND"
  | ND_LOGOR => "ND_LOGOR"
  | ND_RETURN => "ND_RETURN"
  | ND_IF => "ND_IF"
  | ND_FOR => "ND_FOR"
  | ND_DO => "ND_DO"
  | ND_SWITCH => "ND_SWITCH"
  | ND_CASE => "ND_CASE"
  | ND_BLOCK => "ND_BLOCK"
  | ND_GOTO => "ND_GOTO"
  | ND_GOTO_EXPR => "ND_GOTO_EXPR"
  | ND_LABEL => "ND_LABEL"
  | ND_LABEL_VAL => "ND_LABEL_VAL"
  | ND_FUNCALL => "ND_FUNCALL"
  | ND_EXPR_STMT => "ND_EXPR_STMT"
  | ND_STMT_EXPR => "ND_STMT_EXPR"
  | ND_VAR => "ND_VAR"
  | ND_VLA_PTR => "ND_VLA_PTR"
  | ND_NUM => "ND_NUM"
  | ND_CAST => "ND_CAST"
  | ND_MEMZERO => "ND_MEMZERO"
  | ND_ASM => "ND_ASM"
  | ND_CAS => "ND_CAS"
  | ND_EXCH => "ND_EXCH"
  end.

(** [type_to_str] of a type that is not null. *)
Fixpoint type_to_str_at (ty : CType) : string :=
  match ty_kind ty with
  | TY_VOID => if ty_is_unsigned ty then "unsigned void" else "void"
  | TY_BOOL => "_Bool"
  | TY_CHAR => if ty_is_unsigned ty then "unsigned char" else "char"
  | TY_SHORT => if ty_is_unsigned ty then "unsigned short" else "short"
  | TY_INT => if ty_is_unsigned ty then "unsigned int" else "int"
  | TY_LONG => if ty_is_unsigned ty then "unsigned long" else "long"
  | TY_FLOAT => "float"
  | TY_DOUBLE => "double"
  | TY_LDOUBLE => "long double"
  | TY_ENUM => "enum"
  | TY_STRUCT => sprintf "struct(%d)" [Int (ty_size ty)]
  | TY_UNION => sprintf "union(%d)" [Int (ty_size ty)]
  | TY_PTR =>
    let base := match ty_base ty with
                | Some b => type_to_str_at b
                | None => "(null)"
                end in
    sprintf "%s *" [Str base]
  | TY_ARRAY =>
    let base := match ty_base ty with
                | Some b => type_to_str_at b
                | None => "(null)"
                end in
    sprintf "%s[%d]" [Str base; Int (ty_array_len ty)]
  | TY_VLA =>
    let base := match ty_base ty with
                | Some b => type_to_str_at b
                | None => "(null)"
                end in
    sprintf "%s[*]" [Str base]
  | TY_FUNC =>
    let ret := match ty_return_ty ty with
               | Some r => type_to_str_at r
               | None => "(null)"
               end in
    sprintf "%s (*)()" [Str ret]
  end.

Definition type_to_str (ty : option CType) : string :=
  match ty with
  | None => "(null)"
  | Some ty => type_to_str_at ty
  end.

Definition is_flonum (ty : option CType) : bool :=
  match ty with
  | Some t => TypeKind_eqb (ty_kind t) TY_FLOAT
              || TypeKind_eqb (ty_kind t) TY_DOUBLE
              || TypeKind_eqb (ty_kind t) TY_LDOUBLE
  | None => false
  end.

(** *** --dump-tokens *)

(** What the loop body of [dump_tokens] prints for one token. *)
Definition dump_token (first : bool) (t : Token) : string :=
  (if negb first then "," +:+ nl else EmptyString) +:+
  ("  {" +:+ dq +:+ "kind" +:+ dq +:+ ":") +:+
  json_print_str (Some (token_kind_name (tk_kind t))) +:+
  ("," +:+ dq +:+ "text" +:+ dq +:+ ":") +:+
  json_print_escaped (tk_text t) +:+
  sprintf ("," +:+ dq +:+ "line" +:+ dq +:+ ":%d") [Int (tk_line_no t)] +:+
  ("," +:+ dq +:+ "file" +:+ dq +:+ ":") +:+
  json_print_str (tk_filename t) +:+
  (match tk_kind t with
   | TK_NUM =>
     if is_flonum (tk_ty t)
     then sprintf ("," +:+ dq +:+ "fval" +:+ dq +:+ ":%Lg") [LDbl (tk_fval t)]
     else sprintf ("," +:+ dq +:+ "val" +:+ dq +:+ ":%ld") [Int (tk_val t)]
   | _ => EmptyString
   end) +:+
  "}".

Fixpoint dump_tokens_loop (tok : list Token) (first : bool) : string :=
  match tok with
  | [] => EmptyString
  | t :: rest =>
    match tk_kind t with
    | TK_EOF => EmptyString
    | _ => dump_token first t +:+ dump_tokens_loop rest false
    end
  end.

Definition dump_tokens (tok : list Token) : string :=
  ("[" +:+ nl) +:+ dump_tokens_loop tok true +:+ (nl +:+ "]" +:+ nl).

(** *** --dump-ast *)

Definition truncated : string :=
  "{" +:+ dq +:+ "kind" +:+ dq +:+ ":" +:+ dq +:+ "...(truncated)" +:+ dq +:+ "}".

Section DumpNode.
(** [dump_node] on a node that is not null; the three functions below
    call it on the children. *)
Variable dump_node_at : Node -> Z -> string.

Definition dump_node_of (node : option Node) (depth : Z) : string :=
  match node with
  | None => "null"
  | Some n => dump_node_at n depth
  end.

Definition dump_node_list_of (key : string) (node : list Node) (depth : Z)
  : string :=
  sprintf ("," +:+ dq +:+ "%s" +:+ dq +:+ ":[") [Str key] +:+
  (fix loop (l : list Node) (first : bool) : string :=
     match l with
     | [] => EmptyString
     | n :: rest =>
       (if negb first then "," else EmptyString) +:+
       dump_node_at n depth +:+ loop rest false
     end) node true +:+
  "]".

Definition dump_node_field_of (key : string) (node : option Node) (depth : Z)
  : string :=
  sprintf ("," +:+ dq +:+ "%s" +:+ dq +:+ ":") [Str key] +:+
  match node with
  | Some n => dump_node_at n depth
  | None => "null"
  end.

(** [if (p) dump_node_field(out, key, p, depth);] *)
Definition field_if_set (key : string) (node : option Node) (depth : Z)
  : string :=
  match node with
  | Some _ => dump_node_field_of key node depth
  | None => EmptyString
  end.

Definition label_if_set (label : option string) : string :=
  match label with
  | Some _ => ("," +:+ dq +:+ "label" +:+ dq +:+ ":") +:+ json_print_str label
  | None => EmptyString
  end.

Definition name_if_var (var : option ObjRef) : string :=
  match var with
  | Some v =>
    ("," +:+ dq +:+ "name" +:+ dq +:+ ":") +:+ json_print_str (Some (ref_name v))
  | None => EmptyString
  end.

(** The kind-specific fields: the switch of [dump_node]. *)
Definition dump_node_fields (node : Node) (depth : Z) : string :=
  match nd_kind node with
  | ND_NUM =>
    if is_flonum (nd_ty node)
    then sprintf ("," +:+ dq +:+ "fval" +:+ dq +:+ ":%Lg") [LDbl (nd_fval node)]
    else sprintf ("," +:+ dq +:+ "val" +:+ dq +:+ ":%ld") [Int (nd_val node)]
  | ND_VAR => name_if_var (nd_var node)
  | ND_FUNCALL =>
    dump_node_field_of "func" (nd_lhs node) (depth + 1) +:+
    dump_node_list_of "args" (nd_args node) (depth + 1)
  | ND_MEMBER =>
    dump_node_field_of "lhs" (nd_lhs node) (depth + 1) +:+
    match nd_member node with
    | Some m =>
      match mem_name m with
      | Some name =>
        ("," +:+ dq +:+ "member" +:+ dq +:+ ":") +:+
        json_print_escaped (tk_text name)
      | None => EmptyString
      end
    | None => EmptyString
    end
  | ND_IF =>
    dump_node_field_of "cond" (nd_cond node) (depth + 1) +:+
    dump_node_field_of "then" (nd_then node) (depth + 1) +:+
    field_if_set "els" (nd_els node) (depth + 1)
  | ND_FOR =>
    field_if_set "init" (nd_init node) (depth + 1) +:+
    field_if_set "cond" (nd_cond node) (depth + 1) +:+
    field_if_set "inc" (nd_inc node) (depth + 1) +:+
    dump_node_field_of "then" (nd_then node) (depth + 1)
  | ND_DO =>
    dump_node_field_of "body" (nd_then node) (depth + 1) +:+
    dump_node_field_of "cond" (nd_cond node) (depth + 1)
  | ND_SWITCH =>
    dump_node_field_of "cond" (nd_cond node) (depth + 1) +:+
    dump_node_field_of "then" (nd_then node) (depth + 1)
  | ND_CASE =>
    sprintf ("," +:+ dq +:+ "begin" +:+ dq +:+ ":%ld," +:+ dq +:+ "end" +:+ dq +:+ ":%ld")
            [Int (nd_begin node); Int (nd_end node)] +:+
    dump_node_field_of "body" (nd_lhs node) (depth + 1)
  | ND_BLOCK | ND_STMT_EXPR =>
    dump_node_list_of "body" (nd_body node) (depth + 1)
  | ND_RETURN | ND_EXPR_STMT | ND_NEG | ND_ADDR | ND_DEREF | ND_NOT
  | ND_BITNOT | ND_CAST =>
    field_if_set "lhs" (nd_lhs node) (depth + 1)
  | ND_GOTO => label_if_set (nd_label node)
  | ND_GOTO_EXPR =>
    dump_node_field_of "expr" (nd_lhs node) (depth + 1)
  | ND_LABEL =>
    label_if_set (nd_label node) +:+
    dump_node_field_of "body" (nd_lhs node) (depth + 1)
  | ND_LABEL_VAL => label_if_set (nd_label node)
  | ND_ASM =>
    match nd_asm_str node with
    | Some _ =>
      ("," +:+ dq +:+ "asm" +:+ dq +:+ ":") +:+ json_print_str (nd_asm_str node)
    | None => EmptyString
    end
  | ND_CAS =>
    dump_node_field_of "addr" (nd_cas_addr node) (depth + 1) +:+
    dump_node_field_of "old" (nd_cas_old node) (depth + 1) +:+
    dump_node_field_of "new" (nd_cas_new node) (depth + 1)
  | ND_EXCH =>
    dump_node_field_of "lhs" (nd_lhs node) (depth + 1) +:+
    dump_node_field_of "rhs" (nd_rhs node) (depth + 1)
  | ND_COND =>
    dump_node_field_of "cond" (nd_cond node) (depth + 1) +:+
    dump_node_field_of "then" (nd_then node) (depth + 1) +:+
    dump_node_field_of "els" (nd_els node) (depth + 1)
  | ND_MEMZERO => name_if_var (nd_var node)
  | ND_VLA_PTR => name_if_var (nd_var node)
  | _ =>
    field_if_set "lhs" (nd_lhs node) (depth + 1) +:+
    field_if_set "rhs" (nd_rhs node) (depth + 1)
  end.

(** [dump_node] after its null test. *)
Definition dump_node_body (node : Node) (depth : Z) : string :=
  if (depth >? MAX_DEPTH)%Z then truncated
  else
    ("{" +:+ dq +:+ "kind" +:+ dq +:+ ":") +:+
    json_print_str (Some (node_kind_name (nd_kind node))) +:+
    (match nd_ty node with
     | Some _ =>
       ("," +:+ dq +:+ "type" +:+ dq +:+ ":") +:+
       json_print_str (Some (type_to_str (nd_ty node)))
     | None => EmptyString
     end) +:+
    (match nd_tok node with
     | Some tok =>
       sprintf ("," +:+ dq +:+ "line" +:+ dq +:+ ":%d") [Int (tk_line_no tok)]
     | None => EmptyString
     end) +:+
    dump_node_fields node depth +:+
    "}".

End DumpNode.

Fixpoint dump_node_at (node : Node) (depth : Z) {struct node} : string :=
  dump_node_body dump_node_at node depth.

Definition dump_node : option Node -> Z -> string :=
  dump_node_of dump_node_at.
Definition dump_node_list : string -> list Node -> Z -> string :=
  dump_node_list_of dump_node_at.
Definition dump_node_field : string -> option Node -> Z -> string :=
  dump_node_field_of dump_node_at.

Definition dump_type_json (ty : option CType) : string :=
  json_print_str (Some (type_to_str ty)).

Definition bool_text (b : bool) : string := if b then "true" else "false".

(** One entry of a [params] or [locals] array of [dump_ast]. *)
Definition dump_local (st : ObjStore) (first : bool) (p : Obj) : string :=
  (if negb first then "," else EmptyString) +:+
  "{" +:+
  (dq +:+ "name" +:+ dq +:+ ":") +:+
  json_print_str (Some (obj_name p)) +:+
  ("," +:+ dq +:+ "type" +:+ dq +:+ ":") +:+
  dump_type_json (obj_ty p) +:+
  sprintf ("," +:+ dq +:+ "offset" +:+ dq +:+ ":%d") [Int (offset_of st (obj_id p))] +:+
  "}".

Fixpoint dump_locals (st : ObjStore) (l : list Obj) (first : bool) : string :=
  match l with
  | [] => EmptyString
  | p :: rest => dump_local st first p +:+ dump_locals st rest false
  end.

(** What the loop body of [dump_ast] prints for one object. *)
Definition dump_obj (st : ObjStore) (first : bool) (obj : Obj) : string :=
  (if negb first then "," +:+ nl else EmptyString) +:+
  "  {" +:+
  (dq +:+ "name" +:+ dq +:+ ":") +:+
  json_print_str (Some (obj_name obj)) +:+
  sprintf ("," +:+ dq +:+ "is_function" +:+ dq +:+ ":%s")
          [Str (bool_text (obj_is_function obj))] +:+
  sprintf ("," +:+ dq +:+ "is_definition" +:+ dq +:+ ":%s")
          [Str (bool_text (obj_is_definition obj))] +:+
  sprintf ("," +:+ dq +:+ "is_static" +:+ dq +:+ ":%s")
          [Str (bool_text (obj_is_static obj))] +:+
  (match obj_ty obj with
   | Some _ =>
     ("," +:+ dq +:+ "type" +:+ dq +:+ ":") +:+ dump_type_json (obj_ty obj)
   | None => EmptyString
   end) +:+
  (if obj_is_function obj then
     (match obj_ty obj with
      | Some fty =>
        match ty_return_ty fty with
        | Some _ =>
          ("," +:+ dq +:+ "return_type" +:+ dq +:+ ":") +:+
          dump_type_json (ty_return_ty fty)
        | None => EmptyString
        end
      | None => EmptyString
      end) +:+
     ("," +:+ dq +:+ "params" +:+ dq +:+ ":[") +:+
     dump_locals st (obj_params obj) true +:+
     "]" +:+
     (match obj_body obj with
      | Some _ =>
        ("," +:+ dq +:+ "body" +:+ dq +:+ ":") +:+ dump_node (obj_body obj) 0
      | None => EmptyString
      end) +:+
     ("," +:+ dq +:+ "locals" +:+ dq +:+ ":[") +:+
     dump_locals st (obj_locals obj) true +:+
     "]"
   else
     (if obj_is_tentative obj
      then "," +:+ dq +:+ "is_tentative" +:+ dq +:+ ":true" else EmptyString) +:+
     (if obj_is_tls obj
      then "," +:+ dq +:+ "is_tls" +:+ dq +:+ ":true" else EmptyString) +:+
     (match obj_init_data obj with
      | Some _ => "," +:+ dq +:+ "has_init_data" +:+ dq +:+ ":true"
      | None => EmptyString
      end)) +:+
  "}".

Fixpoint dump_ast_loop (st : ObjStore) (prog : list Obj) (first : bool)
  : string :=
  match prog with
  | [] => EmptyString
  | obj :: rest => dump_obj st first obj +:+ dump_ast_loop st rest false
  end.

Definition dump_ast (st : ObjStore) (prog : list Obj) : string :=
  ("{" +:+ dq +:+ "globals" +:+ dq +:+ ":[" +:+ nl) +:+
  dump_ast_loop st prog true +:+
  (nl +:+ "]}" +:+ nl).

End Dump.


(** ** The operand stack of the emitted instructions

    The stack discipline is a property of the lines [gen_expr] and
    [gen_stmt] write.  Each line is read back as an instruction and run
    on the types of the operand stack, the way a WebAssembly validator
    types a function body. *)

Inductive valtype : Set := I32 | I64 | F32 | F64.

Definition valtype_eqb (a b : valtype) : bool :=
  match a, b with
  | I32, I32 | I64, I64 | F32, F32 | F64, F64 => true
  | _, _ => false
  end.

Definition valtype_name (t : valtype) : string :=
  match t with I32 => "i32" | I64 => "i64" | F32 => "f32" | F64 => "f64" end.

Definition valtype_of_name (s : string) : option valtype :=
  if String.eqb s "i32" then Some I32
  else if String.eqb s "i64" then Some I64
  else if String.eqb s "f32" then Some F32
  else if String.eqb s "f64" then Some F64
  else None.

Fixpoint stack_eqb (a b : list valtype) : bool :=
  match a, b with
  | [], [] => true
  | x :: a', y :: b' => valtype_eqb x y && stack_eqb a' b'
  | _, _ => false
  end.

(** What a line does to the operand stack and to the open blocks. *)
Inductive winstr : Set :=
| Nop                                             (* a comment *)
| Op (pops pushes : list valtype)                 (* top of stack first *)
| Drop
| Call (name : string)
| IfOpen (result : option valtype)                (* (if  and (if (result t) *)
| ThenOpen                                        (* (then *)
| ThenConst1                                      (* (then (i32.const 1)) *)
| ElseOpen                                        (* (else *)
| ElseConst0                                      (* (else (i32.const 0)) *)
| Close                                           (* ) *)
| IfThenOpen                                      (* (if (then *)
| Close2                                          (* )) *)
| BlockOpen
| LoopOpen
| BlockClose
| LoopClose
| BrReturn                                        (* (br $__return) *)
| Br                                              (* (br $label) of a loop *)
| BrIf.                                           (* (br_if $label) *)

Definition push (t : valtype) : winstr := Op [] [t].

Section Validator.
Context `{LongDouble}.

(** The lines with no argument. *)
Definition plain_lines : list (string * winstr) :=
  [ ("(i32.const 0)", push I32);
    ("(i32.const -1)", push I32);
    ("(f32.load)", Op [I32] [F32]);
    ("(f64.load)", Op [I32] [F64]);
    ("(i32.load8_u)", Op [I32] [I32]);
    ("(i32.load8_s)", Op [I32] [I32]);
    ("(i32.load16_u)", Op [I32] [I32]);
    ("(i32.load16_s)", Op [I32] [I32]);
    ("(i32.load)", Op [I32] [I32]);
    ("(f32.store)", Op [F32; I32] []);
    ("(f64.store)", Op [F64; I32] []);
    ("(i32.store8)", Op [I32; I32] []);
    ("(i32.store16)", Op [I32; I32] []);
    ("(i32.store)", Op [I32; I32] []);
    ("(drop)", Drop);
    ("(i32.add)", Op [I32; I32] [I32]);
    ("(i32.sub)", Op [I32; I32] [I32]);
    ("(i32.xor)", Op [I32; I32] [I32]);
    ("(i32.ne)", Op [I32; I32] [I32]);
    ("(i32.eq)", Op [I32; I32] [I32]);
    ("(i32.eqz)", Op [I32] [I32]);
    ("(f32.neg)", Op [F32] [F32]);
    ("(f64.neg)", Op [F64] [F64]);
    ("(local.set $__tmp_i32)", Op [I32] []);
    ("(local.get $__tmp_i32)", push I32);
    ("(i32.const 255) (i32.and)", Op [I32] [I32]);
    ("(i32.extend8_s)", Op [I32] [I32]);
    ("(i32.const 65535) (i32.and)", Op [I32] [I32]);
    ("(i32.extend16_s)", Op [I32] [I32]);
    ("(f64.promote_f32)", Op [F32] [F64]);
    ("(f32.demote_f64)", Op [F64] [F32]);
    ("(i32.trunc_f32_u)", Op [F32] [I32]);
    ("(i32.trunc_f32_s)", Op [F32] [I32]);
    ("(i32.trunc_f64_u)", Op [F64] [I32]);
    ("(i32.trunc_f64_s)", Op [F64] [I32]);
    ("(f32.convert_i32_u)", Op [I32] [F32]);
    ("(f32.convert_i32_s)", Op [I32] [F32]);
    ("(f64.convert_i32_u)", Op [I32] [F64]);
    ("(f64.convert_i32_s)", Op [I32] [F64]);
    ("(memory.fill)", Op [I32; I32; I32] []);
    ("(if (result i32)", IfOpen (Some I32));
    ("(if", IfOpen None);
    ("(then", ThenOpen);
    ("(then (i32.const 1))", ThenConst1);
    ("(else", ElseOpen);
    ("(else (i32.const 0))", ElseConst0);
    (")", Close);
    ("(if (then", IfThenOpen);
    ("))", Close2);
    (") ;; end loop", LoopClose);
    (") ;; end block", BlockClose);
    (") ;; end break block", BlockClose);
    ("(br $__return)", BrReturn) ].

(** The lines printed with one integer, or an integer and a name. *)
Definition number_lines : list (string * winstr) :=
  [ ("(i32.const %d)", push I32);
    ("(i32.const %ld)", push I32);
    ("(i32.const %d) ;; &%s", push I32);
    ("(i64.const %lld)", push I64);
    ("(i32.add (local.get $__bp) (i32.const %d))", push I32) ].

(** The lines printed with a label. *)
Definition label_lines : list (string * winstr) :=
  [ ("(block $%s ;; break target", BlockOpen);
    ("(loop $%s ;; continue target", LoopOpen);
    ("(br_if $%s)", BrIf);
    ("(br $%s)", Br) ].

(** The lines printed with a value type [t]: the scratch locals exist
    for [i32], [f32] and [f64]; an integer operator has no float form. *)
Definition typed_line (fmt : string) (t : valtype) : option winstr :=
  let any := [ ("(if (result %s)", IfOpen (Some t));
               ("(%s.const 0)", push t);
               ("(%s.add)", Op [t; t] [t]);
               ("(%s.sub)", Op [t; t] [t]);
               ("(%s.mul)", Op [t; t] [t]);
               ("(%s.eq)", Op [t; t] [I32]);
               ("(%s.ne)", Op [t; t] [I32]) ] in
  let scratch := [ ("(local.set $__tmp_%s)", Op [t] []);
                   ("(local.get $__tmp_%s)", push t) ] in
  let float := [ ("(%s.div)", Op [t; t] [t]);
                 ("(%s.lt)", Op [t; t] [I32]);
                 ("(%s.le)", Op [t; t] [I32]) ] in
  let int := [ ("(%s.div_u)", Op [t; t] [t]);
               ("(%s.div_s)", Op [t; t] [t]);
               ("(%s.rem_u)", Op [t; t] [t]);
               ("(%s.rem_s)", Op [t; t] [t]);
               ("(%s.and)", Op [t; t] [t]);
               ("(%s.or)", Op [t; t] [t]);
               ("(%s.xor)", Op [t; t] [t]);
               ("(%s.shl)", Op [t; t] [t]);
               ("(%s.shr_u)", Op [t; t] [t]);
               ("(%s.shr_s)", Op [t; t] [t]);
               ("(%s.lt_u)", Op [t; t] [I32]);
               ("(%s.lt_s)", Op [t; t] [I32]);
               ("(%s.le_u)", Op [t; t] [I32]);
               ("(%s.le_s)", Op [t; t] [I32]) ] in
  let table :=
    match t with
    | I32 => any ++ scratch ++ int
    | I64 => any ++ int
    | F32 | F64 => any ++ scratch ++ float
    end in
  snd <$> find (fun e => String.eqb (fst e) fmt) table.

Definition lookup_line (fmt : string) (table : list (string * winstr))
  : option winstr :=
  snd <$> find (fun e => String.eqb (fst e) fmt) table.

(** The instruction of a line. *)
Definition parse_line (fmt : string) (args : list arg) : option winstr :=
  if String.prefix ";;" fmt then Some Nop
  else
    match args with
    | [] => lookup_line fmt plain_lines
    | [Int _] | [Int _; Str _] => lookup_line fmt number_lines
    | [Flt _] => if String.eqb fmt "(f32.const %f)" then Some (push F32) else None
    | [Dbl _] => if String.eqb fmt "(f64.const %f)" then Some (push F64) else None
    | [Str s] =>
      if String.eqb fmt "(call $%s)" then Some (Call s)
      else
        match lookup_line fmt label_lines with
        | Some i => Some i
        | None =>
          match valtype_of_name s with
          | Some t => typed_line fmt t
          | None => None
          end
        end
    | _ => None
    end.

(** An open block: what was opened, and the operand stack below it. *)
Inductive frame_kind : Set :=
| IfWait (result : option valtype)     (* after (if, before (then *)
| InThen (result : option valtype)
| AfterThen (result : option valtype)
| InElse (result : option valtype)
| AfterElse (result : option valtype)
| InThenOnly                           (* inside (if (then *)
| InBlock
| InLoop.

Record vstate : Set := VS {
  vs_stack : list valtype;                    (* top first *)
  vs_frames : list (frame_kind * list valtype)
}.

(** The functions a call may name, with their parameter types and their
    result, and the result of the function the code belongs to. *)
Record vctx : Type := mkCtx {
  functions : string -> option (list valtype * option valtype);
  return_type : option valtype
}.

Definition results (r : option valtype) : list valtype :=
  match r with Some t => [t] | None => [] end.

(** The stack without [ts] on top of it. *)
Fixpoint pop (ts stack : list valtype) : option (list valtype) :=
  match ts with
  | [] => Some stack
  | t :: ts' =>
    match stack with
    | x :: stack' => if valtype_eqb t x then pop ts' stack' else None
    | [] => None
    end
  end.

(** One instruction on the operand stack.  Branch labels are not
    resolved: a branch to [$__return] carries the result of the
    function, a branch to the label of a loop or of a break block
    carries nothing, and the code after a branch is typed like any
    other (an instance of the polymorphic typing of [br]). *)
Definition exec (ctx : vctx) (i : winstr) (v : vstate) : option vstate :=
  let (stack, frames) := v in
  match i with
  | Nop => Some v
  | Op pops pushes =>
    match pop pops stack with
    | Some rest => Some (VS (pushes ++ rest) frames)
    | None => None
    end
  | Drop =>
    match stack with
    | _ :: rest => Some (VS rest frames)
    | [] => None
    end
  | Call name =>
    match functions ctx name with
    | Some (params, result) =>
      match pop (rev params) stack with
      | Some rest => Some (VS (results result ++ rest) frames)
      | None => None
      end
    | None => None
    end
  | IfOpen r =>
    match stack with
    | I32 :: rest => Some (VS [] ((IfWait r, rest) :: frames))
    | _ => None
    end
  | ThenOpen =>
    match stack, frames with
    | [], (IfWait r, below) :: outer => Some (VS [] ((InThen r, below) :: outer))
    | _, _ => None
    end
  | ThenConst1 =>
    match stack, frames with
    | [], (IfWait (Some I32), below) :: outer =>
      Some (VS [] ((AfterThen (Some I32), below) :: outer))
    | _, _ => None
    end
  | ElseOpen =>
    match stack, frames with
    | [], (AfterThen r, below) :: outer => Some (VS [] ((InElse r, below) :: outer))
    | _, _ => None
    end
  | ElseConst0 =>
    match stack, frames with
    | [], (AfterThen (Some I32), below) :: outer =>
      Some (VS [] ((AfterElse (Some I32), below) :: outer))
    | _, _ => None
    end
  | Close =>
    match frames with
    | (InThen r, below) :: outer =>
      if stack_eqb stack (results r)
      then Some (VS [] ((AfterThen r, below) :: outer)) else None
    | (InElse r, below) :: outer =>
      if stack_eqb stack (results r)
      then Some (VS [] ((AfterElse r, below) :: outer)) else None
    | (AfterThen None, below) :: outer =>
      match stack with [] => Some (VS below outer) | _ => None end
    | (AfterElse r, below) :: outer =>
      match stack with [] => Some (VS (results r ++ below) outer) | _ => None end
    | _ => None
    end
  | IfThenOpen =>
    match stack with
    | I32 :: rest => Some (VS [] ((InThenOnly, rest) :: frames))
    | _ => None
    end
  | Close2 =>
    match stack, frames with
    | [], (InThenOnly, below) :: outer => Some (VS below outer)
    | _, _ => None
    end
  | BlockOpen => Some (VS [] ((InBlock, stack) :: frames))
  | LoopOpen => Some (VS [] ((InLoop, stack) :: frames))
  | BlockClose =>
    match stack, frames with
    | [], (InBlock, below) :: outer => Some (VS below outer)
    | _, _ => None
    end
  | LoopClose =>
    match stack, frames with
    | [], (InLoop, below) :: outer => Some (VS below outer)
    | _, _ => None
    end
  | BrReturn =>
    match pop (results (return_type ctx)) stack with
    | Some rest => Some (VS rest frames)
    | None => None
    end
  | Br => Some v
  | BrIf =>
    match stack with
    | I32 :: rest => Some (VS rest frames)
    | _ => None
    end
  end.

(** One written item: a line is an instruction, anything else is not
    part of a function body. *)
Definition step (ctx : vctx) (i : item) (v : vstate) : option vstate :=
  match i with
  | Line _ fmt args =>
    match parse_line fmt args with
    | Some w => exec ctx w v
    | None => None
    end
  | Text _ _ => None
  end.

Fixpoint validate (ctx : vctx) (items : list item) (v : vstate)
  : option vstate :=
  match items with
  | [] => Some v
  | i :: rest =>
    match step ctx i v with
    | Some v' => validate ctx rest v'
    | None => None
    end
  end.

(** *** The value a node stands for *)

Definition value_type (ty : option CType) : valtype :=
  if is_wasm_f32 ty then F32
  else if is_wasm_f64 ty then F64
  else if is_wasm_i64 ty then I64
  else I32.

Definition is_void (ty : option CType) : bool := is_kind ty TY_VOID.

(** The type of the value of a node: none for a node of type [void]. *)
Definition node_result (n : Node) : option valtype :=
  if is_void (nd_ty n) then None else Some (value_type (nd_ty n)).

Definition result_eqb (a b : option valtype) : bool :=
  match a, b with
  | Some x, Some y => valtype_eqb x y
  | None, None => true
  | _, _ => false
  end.

(** The computation [m], from any emitter state, returns, leaves the
    indentation [d] deeper, and appends lines that take the validator
    from [pre] to [post]. *)
Definition validates {A} (ctx : vctx) (m : M A) (d : Z) (pre post : vstate)
  : Prop :=
  forall s : emitter,
    exists (a : A) (items : list item),
      m s = (Ok a, {| output_file := output_file s ++ items;
                      indent_level := indent_level s + d |})
      /\ validate ctx items pre = Some post.


(** [gen_expr] on [n] pushes nothing. *)
Definition pushes_nothing (ctx : vctx) (st : ObjStore) (n : Node) : Prop :=
  forall stack frames,
    validates ctx (gen_expr st n) 0 (VS stack frames) (VS stack frames).


End Validator.


(** ** Nodes that are well typed for the generator

    What the front end guarantees of a tree, as far as the stack
    discipline needs it: the children a kind reads are there, the type of
    an operand is the type its operator is emitted at, no value is a
    64-bit [long], and a node of type [void] is a call, a comma whose
    right operand is one, or a statement expression that ends in one.
    The kinds and shapes the generator mishandles are left out: a
    [ND_MEMZERO], a call through an expression, a cast to [void], a
    comparison or a logical operator on floats, and a [for] whose
    increment has type [void]. *)

Section Typed.
Context `{LongDouble}.
Variable ctx : vctx.

Definition has_result (n : Node) (t : valtype) : bool :=
  result_eqb (node_result n) (Some t).

Definition has_value (n : Node) : bool :=
  match node_result n with Some _ => true | None => false end.

(** A value of this type can be loaded, and stored, as the type says. *)
Definition load_ok (ty : option CType) : bool :=
  negb (is_void ty) && negb (is_wasm_i64 ty).

Definition store_ok (ty : option CType) : bool :=
  match ty with Some _ => load_ok ty | None => false end.

(** The type of the value a cast leaves, given the type [tin] of its
    operand; none when the conversion it emits does not take a [tin]. *)
Definition cast_out (from to : option CType) (tin : valtype) : option valtype :=
  let given (t out : valtype) :=
    if valtype_eqb tin t then Some out else None in
  match from, to with
  | Some _, Some to_ =>
    if negb (is_wasm_float from) && negb (is_wasm_float to)
       && negb (is_wasm_i64 from) && negb (is_wasm_i64 to)
    then
      if TypeKind_eqb (ty_kind to_) TY_BOOL || (ty_size to_ =? 1)%Z
         || (ty_size to_ =? 2)%Z
      then given I32 I32 else Some tin
    else if is_wasm_f32 from && is_wasm_f64 to then given F32 F64
    else if is_wasm_f64 from && is_wasm_f32 to then given F64 F32
    else if is_wasm_float from && negb (is_wasm_float to) then
      if is_wasm_f32 from then given F32 I32 else given F64 I32
    else if negb (is_wasm_float from) && is_wasm_float to then
      if is_wasm_f32 to then given I32 F32 else given I32 F64
    else Some tin
  | _, _ => Some tin
  end.

(** The types of the values of the arguments, when each has one. *)
Fixpoint arg_types (args : list Node) : option (list valtype) :=
  match args with
  | [] => Some []
  | a :: rest =>
    match node_result a, arg_types rest with
    | Some t, Some ts => Some (t :: ts)
    | _, _ => None
    end
  end.

Definition signature_eqb (a b : list valtype * option valtype) : bool :=
  stack_eqb (fst a) (fst b) && result_eqb (snd a) (snd b).

Definition typed_addr_body (typed_expr : Node -> bool) : Node -> bool :=
  fix typed_addr (n : Node) : bool :=
    match nd_kind n with
    | ND_VAR => match nd_var n with Some _ => true | None => false end
    | ND_DEREF =>
      match nd_lhs n with
      | Some l => typed_expr l && has_result l I32
      | None => false
      end
    | ND_COMMA =>
      match nd_lhs n, nd_rhs n with
      | Some l, Some r => typed_expr l && has_value l && typed_addr r
      | _, _ => false
      end
    | ND_MEMBER =>
      match nd_lhs n, nd_member n with
      | Some l, Some _ => typed_addr l
      | _, _ => false
      end
    | _ => false
    end.

(** Both operands are there and have the type the operator is emitted
    at; the node has the type of its result. *)
Definition typed_operands (typed_expr : Node -> bool) (n : Node)
  (operand result : valtype) : bool :=
  match nd_lhs n, nd_rhs n with
  | Some l, Some r =>
    typed_expr l && typed_expr r && has_result l operand
    && has_result r operand && has_result n result
  | _, _ => false
  end.

Definition typed_binary (typed_expr : Node -> bool) (n : Node) : bool :=
  let float := is_wasm_float (nd_ty n) in
  let t := if float then value_type (nd_ty n) else I32 in
  match nd_kind n with
  | ND_ADD | ND_SUB | ND_MUL | ND_DIV => typed_operands typed_expr n t t
  | ND_MOD | ND_BITAND | ND_BITOR | ND_BITXOR | ND_SHL | ND_SHR
  | ND_EQ | ND_NE | ND_LT | ND_LE =>
    negb float && typed_operands typed_expr n I32 I32
  | _ => false
  end.

(** The statements of a statement expression [node]. *)
Definition typed_stmt_expr_body (typed_expr typed_stmt : Node -> bool)
  (node : Node) : list Node -> bool :=
  fix loop (l : list Node) : bool :=
    match l with
    | [] => result_eqb (node_result node) None
    | n :: rest =>
      match rest with
      | [] =>
        match nd_kind n with
        | ND_EXPR_STMT =>
          match nd_lhs n with
          | Some e =>
            typed_expr e && result_eqb (node_result e) (node_result node)
          | None => result_eqb (node_result node) None
          end
        | _ => typed_stmt n && has_result node I32
        end
      | _ :: _ => typed_stmt n && loop rest
      end
    end.

Definition typed_expr_body (typed_expr typed_stmt : Node -> bool) (n : Node)
  : bool :=
  let typed_addr := typed_addr_body typed_expr in
  match nd_kind n with
  | ND_NULL_EXPR => has_result n I32
  | ND_NUM => has_value n
  | ND_VAR | ND_MEMBER => typed_addr n && load_ok (nd_ty n)
  | ND_ADDR =>
    match nd_lhs n with
    | Some l => typed_addr l && has_result n I32
    | None => false
    end
  | ND_DEREF =>
    match nd_lhs n with
    | Some l => typed_expr l && has_result l I32 && load_ok (nd_ty n)
    | None => false
    end
  | ND_NEG =>
    match nd_lhs n with
    | Some l =>
      typed_expr l && has_result l (value_type (nd_ty n))
      && has_value n && negb (is_wasm_i64 (nd_ty n))
    | None => false
    end
  | ND_NOT | ND_BITNOT =>
    match nd_lhs n with
    | Some l => typed_expr l && has_result l I32 && has_result n I32
    | None => false
    end
  | ND_ASSIGN =>
    match nd_lhs n, nd_rhs n with
    | Some l, Some r =>
      typed_addr l && typed_expr r && store_ok (nd_ty n)
      && has_result r (value_type (nd_ty n))
    | _, _ => false
    end
  | ND_COMMA =>
    match nd_lhs n, nd_rhs n with
    | Some l, Some r =>
      typed_expr l && has_value l && typed_expr r
      && result_eqb (node_result r) (node_result n)
    | _, _ => false
    end
  | ND_CAST =>
    match nd_lhs n with
    | Some l =>
      typed_expr l &&
      match node_result l with
      | Some tin =>
        match cast_out (nd_ty l) (nd_ty n) tin with
        | Some tout => has_result n tout
        | None => false
        end
      | None => false
      end
    | None => false
    end
  | ND_COND =>
    match nd_cond n, nd_then n with
    | Some c, Some t =>
      typed_expr c && has_result c I32
      && typed_expr t && has_result t (value_type (nd_ty n))
      && match nd_els n with
         | Some e => typed_expr e && has_result e (value_type (nd_ty n))
         | None => true
         end
      && has_value n
    | _, _ => false
    end
  | ND_LOGAND | ND_LOGOR =>
    typed_operands typed_expr n I32 I32
  | ND_FUNCALL =>
    forallb typed_expr (nd_args n) &&
    match nd_lhs n with
    | Some callee =>
      match nd_kind callee, nd_var callee, arg_types (nd_args n) with
      | ND_VAR, Some var, Some ts =>
        match functions ctx (ref_name var) with
        | Some sig => signature_eqb sig (ts, node_result n)
        | None => false
        end
      | _, _, _ => false
      end
    | None => false
    end
  | ND_STMT_EXPR =>
    typed_stmt_expr_body typed_expr typed_stmt n (nd_body n)
  | _ => typed_binary typed_expr n
  end.

Definition typed_opt (typed : Node -> bool) (o : option Node) : bool :=
  match o with Some n => typed n | None => true end.

Definition typed_condition (typed_expr : Node -> bool) (o : option Node)
  : bool :=
  match o with
  | Some c => typed_expr c && has_result c I32
  | None => false
  end.

Definition typed_stmt_body (typed_expr typed_stmt : Node -> bool) (n : Node)
  : bool :=
  match nd_kind n with
  | ND_RETURN =>
    match nd_lhs n with
    | Some e => typed_expr e && result_eqb (node_result e) (return_type ctx)
    | None => result_eqb None (return_type ctx)
    end
  | ND_EXPR_STMT =>
    match nd_lhs n with
    | Some e =>
      typed_expr e && match nd_ty e with Some _ => true | None => false end
    | None => true
    end
  | ND_BLOCK => forallb typed_stmt (nd_body n)
  | ND_IF =>
    typed_condition typed_expr (nd_cond n)
    && typed_opt typed_stmt (nd_then n) && typed_opt typed_stmt (nd_els n)
  | ND_FOR =>
    typed_opt typed_stmt (nd_init n)
    && match nd_cond n with
       | Some c => typed_expr c && has_result c I32
       | None => true
       end
    && typed_opt typed_stmt (nd_then n)
    && match nd_inc n with
       | Some i => typed_expr i && has_value i
       | None => true
       end
  | ND_DO =>
    typed_opt typed_stmt (nd_then n) && typed_condition typed_expr (nd_cond n)
  | ND_SWITCH =>
    typed_condition typed_expr (nd_cond n) && typed_opt typed_stmt (nd_then n)
  | ND_CASE => typed_opt typed_stmt (nd_lhs n)
  | ND_GOTO => true
  | ND_LABEL => typed_opt typed_stmt (nd_lhs n)
  | _ => false
  end.

Fixpoint typed_expr (n : Node) {struct n} : bool :=
  typed_expr_body typed_expr typed_stmt n
with typed_stmt (n : Node) {struct n} : bool :=
  typed_stmt_body typed_expr typed_stmt n.

Definition typed_addr : Node -> bool := typed_addr_body typed_expr.

(** The stack discipline of the three generators on one node. *)
Definition expr_ok (st : ObjStore) (n : Node) : Prop :=
  typed_expr n = true ->
  forall stack frames,
    validates ctx (gen_expr st n) 0
              (VS stack frames) (VS (results (node_result n) ++ stack) frames).

Definition stmt_ok (st : ObjStore) (n : Node) : Prop :=
  typed_stmt n = true ->
  forall stack frames,
    validates ctx (gen_stmt st n) 0 (VS stack frames) (VS stack frames).

Definition addr_ok (st : ObjStore) (n : Node) : Prop :=
  typed_addr n = true ->
  forall stack frames,
    validates ctx (gen_addr st n) 0 (VS stack frames) (VS (I32 :: stack) frames).

Definition node_ok (st : ObjStore) (n : Node) : Prop :=
  expr_ok st n /\ stmt_ok st n /\ addr_ok st n.

End Typed.


(** ** Properties of the dumper stated in the words of the specification *)

Section DumpSpec.
Context `{LongDouble}.

(** The tokens strictly before the first [TK_EOF]. *)
Fixpoint tokens_before_eof (tok : list Token) : list Token :=
  match tok with
  | [] => []
  | t :: rest =>
    match tk_kind t with
    | TK_EOF => []
    | _ => t :: tokens_before_eof rest
    end
  end.

(** *** JSON values and their text

    The documents of the dumper as values, and the compact text of a
    value: members and items separated by commas, nothing else
    between them. *)
#[local] Unset Elimination Schemes.

Inductive json : Type :=
| JNull
| JBool (b : bool)
| JInt (z : Z)
| JFloat (v : fval_t)
| JStr (s : string)
| JArr (items : list json)
| JObj (members : list (string * json)).

#[local] Set Elimination Schemes.

Definition hex_digit (n : Z) : string :=
  match String.get (Z.to_nat n) "0123456789abcdef" with
  | Some c => String c EmptyString
  | None => EmptyString
  end.

(** "Strings are escaped conservatively: the quote, the backslash,
    control characters below 0x20 use [\n], [\r], [\t] where
    applicable and [\uXXXX] otherwise." *)
Definition escape_char (c : ascii) : string :=
  let code := Z.of_N (N_of_ascii c) in
  if (code =? 34)%Z then "\" +:+ dq
  else if (code =? 92)%Z then "\\"
  else if (code =? 10)%Z then "\n"
  else if (code =? 13)%Z then "\r"
  else if (code =? 9)%Z then "\t"
  else if (code <? 32)%Z
       then "\u00" +:+ hex_digit (code / 16) +:+ hex_digit (code mod 16)
  else String c EmptyString.

Fixpoint escape (s : string) : string :=
  match s with
  | EmptyString => EmptyString
  | String c rest => escape_char c +:+ escape rest
  end.

Fixpoint print_json (v : json) : string :=
  match v with
  | JNull => "null"
  | JBool b => if b then "true" else "false"
  | JInt z => dec z
  | JFloat x => fmt_Lg x
  | JStr s => quoted (escape s)
  | JArr items =>
    "[" +:+
    match items with
    | [] => EmptyString
    | x :: rest =>
      print_json x +:+
      (fix more (l : list json) : string :=
         match l with
         | [] => EmptyString
         | y :: r => "," +:+ print_json y +:+ more r
         end) rest
    end +:+ "]"
  | JObj members =>
    "{" +:+
    match members with
    | [] => EmptyString
    | (k, x) :: rest =>
      quoted k +:+ ":" +:+ print_json x +:+
      (fix more (l : list (string * json)) : string :=
         match l with
         | [] => EmptyString
         | (k', y) :: r => "," +:+ quoted k' +:+ ":" +:+ print_json y +:+ more r
         end) rest
    end +:+ "}"
  end.

(** The text of the members, and of the items, after the first. *)
Definition member_text (m : string * json) : string :=
  "," +:+ quoted (fst m) +:+ ":" +:+ print_json (snd m).

Fixpoint members_text (l : list (string * json)) : string :=
  match l with
  | [] => EmptyString
  | m :: r => member_text m +:+ members_text r
  end.

Fixpoint items_text (l : list json) : string :=
  match l with
  | [] => EmptyString
  | y :: r => "," +:+ print_json y +:+ items_text r
  end.

(** A type of floating point. *)
Definition floating (ty : option CType) : bool :=
  match ty with
  | Some t =>
    match ty_kind t with
    | TY_FLOAT | TY_DOUBLE | TY_LDOUBLE => true
    | _ => false
    end
  | None => false
  end.

Definition text_or_null (s : option string) : json :=
  match s with Some s => JStr s | None => JNull end.

(** "Tokens: array of objects {kind, text, line, file, val|fval?}": the
    value of a number token is [fval] when its type is of floating
    point and [val] otherwise. *)
Definition token_value (t : Token) : json :=
  JObj ([ ("kind", JStr (token_kind_name (tk_kind t)));
          ("text", JStr (tk_text t));
          ("line", JInt (tk_line_no t));
          ("file", text_or_null (tk_filename t)) ]
        ++ match tk_kind t with
           | TK_NUM =>
             if floating (tk_ty t) then [("fval", JFloat (tk_fval t))]
             else [("val", JInt (tk_val t))]
           | _ => []
           end).

(** The line of one token in the text of the array. *)
Definition token_json (t : Token) : string :=
  "  " +:+ print_json (token_value t).

(** "Nodes: object with kind, type, line, and kind-specific fields."
    [child] is the value of a sub-node.  A member the dumper writes
    whether the sub-node is there or not holds [null] when it is not. *)
Section NodeMembers.
Variable child : Node -> json.

Definition always (key : string) (o : option Node) : list (string * json) :=
  [(key, match o with Some c => child c | None => JNull end)].

Definition if_present (key : string) (o : option Node)
  : list (string * json) :=
  match o with Some c => [(key, child c)] | None => [] end.

Definition all_of (key : string) (l : list Node) : list (string * json) :=
  [(key, JArr (map child l))].

Definition text_if_present (key : string) (s : option string)
  : list (string * json) :=
  match s with Some s => [(key, JStr s)] | None => [] end.

Definition name_of (var : option ObjRef) : list (string * json) :=
  match var with Some v => [("name", JStr (ref_name v))] | None => [] end.

Definition kind_members (n : Node) : list (string * json) :=
  match nd_kind n with
  | ND_NUM =>
    if floating (nd_ty n) then [("fval", JFloat (nd_fval n))]
    else [("val", JInt (nd_val n))]
  | ND_VAR | ND_MEMZERO | ND_VLA_PTR => name_of (nd_var n)
  | ND_FUNCALL => always "func" (nd_lhs n) ++ all_of "args" (nd_args n)
  | ND_MEMBER =>
    always "lhs" (nd_lhs n) ++
    match nd_member n with
    | Some m => text_if_present "member" (tk_text <$> mem_name m)
    | None => []
    end
  | ND_IF =>
    always "cond" (nd_cond n) ++ always "then" (nd_then n)
    ++ if_present "els" (nd_els n)
  | ND_COND =>
    always "cond" (nd_cond n) ++ always "then" (nd_then n)
    ++ always "els" (nd_els n)
  | ND_FOR =>
    if_present "init" (nd_init n) ++ if_present "cond" (nd_cond n)
    ++ if_present "inc" (nd_inc n) ++ always "then" (nd_then n)
  | ND_DO => always "body" (nd_then n) ++ always "cond" (nd_cond n)
  | ND_SWITCH => always "cond" (nd_cond n) ++ always "then" (nd_then n)
  | ND_CASE =>
    [("begin", JInt (nd_begin n)); ("end", JInt (nd_end n))]
    ++ always "body" (nd_lhs n)
  | ND_BLOCK | ND_STMT_EXPR => all_of "body" (nd_body n)
  | ND_RETURN | ND_EXPR_STMT | ND_NEG | ND_ADDR | ND_DEREF | ND_NOT
  | ND_BITNOT | ND_CAST => if_present "lhs" (nd_lhs n)
  | ND_GOTO | ND_LABEL_VAL => text_if_present "label" (nd_label n)
  | ND_GOTO_EXPR => always "expr" (nd_lhs n)
  | ND_LABEL =>
    text_if_present "label" (nd_label n) ++ always "body" (nd_lhs n)
  | ND_ASM => text_if_present "asm" (nd_asm_str n)
  | ND_CAS =>
    always "addr" (nd_cas_addr n) ++ always "old" (nd_cas_old n)
    ++ always "new" (nd_cas_new n)
  | ND_EXCH => always "lhs" (nd_lhs n) ++ always "rhs" (nd_rhs n)
  | _ => if_present "lhs" (nd_lhs n) ++ if_present "rhs" (nd_rhs n)
  end.

Definition node_members (n : Node) : list (string * json) :=
  [("kind", JStr (node_kind_name (nd_kind n)))]
  ++ match nd_ty n with
     | Some _ => [("type", JStr (type_to_str (nd_ty n)))]
     | None => []
     end
  ++ match nd_tok n with
     | Some tok => [("line", JInt (tk_line_no tok))]
     | None => []
     end
  ++ kind_members n.

End NodeMembers.

(** The sentinel that stands for a subtree that is cut. *)
Definition cut : json := JObj [("kind", JStr "...(truncated)")].

(** The value of a tree with [levels] levels left: a node is written
    with its members while a level is left, each sub-node with one
    level less, and is the sentinel when none is left. *)
Fixpoint node_value (levels : nat) (n : Node) : json :=
  match levels with
  | O => cut
  | S k => JObj (node_members (node_value k) n)
  end.

(** The levels left at depth [depth]: 21 at the root, depth 0, one at
    depth 20, none below. *)
Definition levels_at (depth : Z) : nat := Z.to_nat (21 - depth).

(** "Each entry contains name, is_function, is_definition, is_static,
    type.  For functions: return_type, params[], body, locals[].  For
    globals: flags is_tentative, is_tls, has_init_data." *)
Definition local_value (st : ObjStore) (p : Obj) : json :=
  JObj [ ("name", JStr (obj_name p));
         ("type", JStr (type_to_str (obj_ty p)));
         ("offset", JInt (offset_of st (obj_id p))) ].

Definition obj_value (st : ObjStore) (o : Obj) : json :=
  JObj ([ ("name", JStr (obj_name o));
          ("is_function", JBool (obj_is_function o));
          ("is_definition", JBool (obj_is_definition o));
          ("is_static", JBool (obj_is_static o)) ]
        ++ match obj_ty o with
           | Some _ => [("type", JStr (type_to_str (obj_ty o)))]
           | None => []
           end
        ++ if obj_is_function o then
             match obj_ty o with
             | Some fty =>
               match ty_return_ty fty with
               | Some _ => [("return_type", JStr (type_to_str (ty_return_ty fty)))]
               | None => []
               end
             | None => []
             end
             ++ [("params", JArr (map (local_value st) (obj_params o)))]
             ++ match obj_body o with
                | Some b => [("body", node_value (levels_at 0) b)]
                | None => []
                end
             ++ [("locals", JArr (map (local_value st) (obj_locals o)))]
           else
             (if obj_is_tentative o then [("is_tentative", JBool true)] else [])
             ++ (if obj_is_tls o then [("is_tls", JBool true)] else [])
             ++ match obj_init_data o with
                | Some _ => [("has_init_data", JBool true)]
                | None => []
                end).

(** The line of one object in the text of the program. *)
Definition obj_json (st : ObjStore) (o : Obj) : string :=
  "  " +:+ print_json (obj_value st o).

(** The texts of [l] with [sep] between them. *)
Fixpoint join (sep : string) (l : list string) : string :=
  match l with
  | [] => EmptyString
  | [s] => s
  | s :: rest => s +:+ sep +:+ join sep rest
  end.

(** A text without its line feeds. *)
Fixpoint without_newlines (s : string) : string :=
  match s with
  | EmptyString => EmptyString
  | String c rest =>
    if Ascii.eqb c "010" then without_newlines rest
    else String c (without_newlines rest)
  end.

End DumpSpec.

(** ** Sample inputs *)

(** The floating-point interface with one value, zero. *)
Definition zero_only : LongDouble :=
  {| fval_t := unit;
     fmt_f_float := fun _ => "0.000000";
     fmt_f_double := fun _ => "0.000000";
     fmt_Lg := fun _ => "0" |}.

Definition empty_store : ObjStore := {| offsets := ∅; stack_sizes := ∅ |}.

Section Samples.
#[local] Existing Instance zero_only.

Definition ty_void : CType := mkType TY_VOID 1 1 false None None 0.
Definition ty_char : CType := mkType TY_CHAR 1 1 false None None 0.
Definition ty_int : CType := mkType TY_INT 4 4 false None None 0.
Definition ty_long : CType := mkType TY_LONG 4 4 false None None 0.
Definition ty_long8 : CType := mkType TY_LONG 8 8 false None None 0.
Definition ty_float : CType := mkType TY_FLOAT 4 4 false None None 0.
Definition ty_double : CType := mkType TY_DOUBLE 8 8 false None None 0.
Definition ty_ptr_int : CType := mkType TY_PTR 8 8 false (Some ty_int) None 0.
Definition ty_fn_void : CType := mkType TY_FUNC 1 1 false None (Some ty_void) 0.

(** A node of kind [k] and type [ty] with every other field empty. *)
Definition node_of (k : NodeKind) (ty : option CType) : Node :=
  mkNode k ty None None None None None None None None [] [] None None
         "" "" [] 0 0 None "" 0 tt None None None None.

Definition with_lhs (n : Node) (l : Node) : Node :=
  mkNode (nd_kind n) (nd_ty n) (nd_tok n) (Some l) (nd_rhs n) (nd_cond n)
         (nd_then n) (nd_els n) (nd_init n) (nd_inc n) (nd_body n)
         (nd_args n) (nd_var n) (nd_member n) (nd_brk_label n)
         (nd_cont_label n) (nd_case_next n) (nd_begin n) (nd_end n)
         (nd_label n) (nd_unique_label n) (nd_val n) (nd_fval n)
         (nd_asm_str n) (nd_cas_addr n) (nd_cas_old n) (nd_cas_new n).

Definition with_rhs (n : Node) (r : Node) : Node :=
  mkNode (nd_kind n) (nd_ty n) (nd_tok n) (nd_lhs n) (Some r) (nd_cond n)
         (nd_then n) (nd_els n) (nd_init n) (nd_inc n) (nd_body n)
         (nd_args n) (nd_var n) (nd_member n) (nd_brk_label n)
         (nd_cont_label n) (nd_case_next n) (nd_begin n) (nd_end n)
         (nd_label n) (nd_unique_label n) (nd_val n) (nd_fval n)
         (nd_asm_str n) (nd_cas_addr n) (nd_cas_old n) (nd_cas_new n).

Definition with_val (n : Node) (v : Z) : Node :=
  mkNode (nd_kind n) (nd_ty n) (nd_tok n) (nd_lhs n) (nd_rhs n) (nd_cond n)
         (nd_then n) (nd_els n) (nd_init n) (nd_inc n) (nd_body n)
         (nd_args n) (nd_var n) (nd_member n) (nd_brk_label n)
         (nd_cont_label n) (nd_case_next n) (nd_begin n) (nd_end n)
         (nd_label n) (nd_unique_label n) v (nd_fval n)
         (nd_asm_str n) (nd_cas_addr n) (nd_cas_old n) (nd_cas_new n).

Definition with_var (n : Node) (v : ObjRef) : Node :=
  mkNode (nd_kind n) (nd_ty n) (nd_tok n) (nd_lhs n) (nd_rhs n) (nd_cond n)
         (nd_then n) (nd_els n) (nd_init n) (nd_inc n) (nd_body n)
         (nd_args n) (Some v) (nd_member n) (nd_brk_label n)
         (nd_cont_label n) (nd_case_next n) (nd_begin n) (nd_end n)
         (nd_label n) (nd_unique_label n) (nd_val n) (nd_fval n)
         (nd_asm_str n) (nd_cas_addr n) (nd_cas_old n) (nd_cas_new n).

(** The literal [7] and the expression [-e]. *)
Definition num7 : Node := with_val (node_of ND_NUM (Some ty_int)) 7.
Definition neg_of (e : Node) : Node := with_lhs (node_of ND_NEG (Some ty_int)) e.

(** [7] under [k] negations. *)
Definition nested_neg (k : nat) : Node := Nat.iter k neg_of num7.

(** The JSON of [-e] given the JSON of [e], and the JSON of [7]. *)
Definition neg_json (inner : string) : string :=
  "{" +:+ quoted "kind" +:+ ":" +:+ quoted "ND_NEG" +:+ ","
  +:+ quoted "type" +:+ ":" +:+ quoted "int" +:+ ","
  +:+ quoted "lhs" +:+ ":" +:+ inner +:+ "}".
Definition num7_json : string :=
  "{" +:+ quoted "kind" +:+ ":" +:+ quoted "ND_NUM" +:+ ","
  +:+ quoted "type" +:+ ":" +:+ quoted "int" +:+ ","
  +:+ quoted "val" +:+ ":7}".

Definition tok_of (k : TokenKind) (text : string) : Token :=
  mkToken k text 1 (Some "a.c") None 0 tt.

End Samples.


(** ** The layout pass in the words of the specification *)

Section LayoutSpec.
Context `{LongDouble}.

(** The variables of a program: the objects that are not functions, in
    declaration order, each with its type. *)
Fixpoint variables (prog : list Obj) : list (positive * CType) :=
  match prog with
  | [] => []
  | o :: rest =>
    match obj_is_function o, obj_ty o with
    | false, Some ty => (obj_id o, ty) :: variables rest
    | _, _ => variables rest
    end
  end.

(** "For each variable, align the running offset upward to max(align, 1),
    assign it as the variable's offset, then advance by ty.size."  The
    result is the list of assigned offsets and the final offset. *)
Fixpoint spec_layout (vars : list (positive * CType)) (offset : Z)
  : list (positive * Z) * Z :=
  match vars with
  | [] => ([], offset)
  | (id, ty) :: rest =>
    let at_ := align_to offset (Z.max (ty_align ty) 1) in
    let (assigned, final) := spec_layout rest (at_ + ty_size ty) in
    ((id, at_) :: assigned, final)
  end.

(** "Return the final offset rounded up to 16." *)
Definition spec_globals_size (prog : list Obj) : Z :=
  align_to (snd (spec_layout (variables prog) 0)) 16.

(** "max(65536, align_up(globals_size + 1024, 65536))" *)
Definition spec_stack_start (globals_size : Z) : Z :=
  Z.max 65536 (align_to (globals_size + 1024) 65536).

(** The object store after the offsets of [assigned] are written, first
    to last. *)
Definition write_offsets (assigned : list (positive * Z)) (st : ObjStore)
  : ObjStore :=
  fold_left (fun st a => set_offset (fst a) (snd a) st) assigned st.

(** Every object the layout pass reads the type of has one: a variable
    of the program, and a local of a function of the program. *)
Definition has_types (prog : list Obj) : Prop :=
  Forall (fun o =>
            if obj_is_function o
            then Forall (fun l => obj_ty l <> None) (obj_locals o)
            else obj_ty o <> None) prog.

(** The first lines of a module whose stack starts at [stack_start]. *)
Definition module_header (stack_start : Z) : list item :=
  [ Line 0 "(module" [];
    Line 1 ("(memory (export " +:+ quoted "memory" +:+ ") 2)") [];
    Text nl [];
    Line 1 ";; Stack pointer (grows downward from %d)" [Int stack_start];
    Line 1 "(global $__sp (mut i32) (i32.const %d))" [Int stack_start];
    Text nl [] ].

(** A write of the layout pass: an [offset] or a [stack_size]. *)
Inductive write : Type :=
| WOffset (id : positive) (v : Z)
| WStackSize (id : positive) (v : Z).

Definition apply_write (st : ObjStore) (w : write) : ObjStore :=
  match w with
  | WOffset id v => set_offset id v st
  | WStackSize id v => set_stack_size id v st
  end.

Definition apply_writes (ws : list write) (st : ObjStore) : ObjStore :=
  fold_left apply_write ws st.

(** All sub-nodes [gen_expr], [gen_stmt] and [dump_node] can descend to. *)
Definition children (n : Node) : list Node :=
  option_list (nd_lhs n) ++ option_list (nd_rhs n) ++
  option_list (nd_cond n) ++ option_list (nd_then n) ++
  option_list (nd_els n) ++ option_list (nd_init n) ++
  option_list (nd_inc n) ++ nd_body n ++ nd_args n ++
  option_list (nd_cas_addr n) ++ option_list (nd_cas_old n) ++
  option_list (nd_cas_new n).

End LayoutSpec.


(** ** Properties of computations used in the proofs *)

Section ComputationProperties.
Context `{LongDouble}.
#[local] Open Scope cg_scope.

(** A computation leaves what was written before it in place. *)
Definition appends {A} (m : M A) : Prop :=
  forall s, exists l, output_file (snd (m s)) = output_file s ++ l.

(** The same for a computation over all the statics. *)
Definition appendsG {A} (g : G A) : Prop :=
  forall s, exists l,
    output_file (st_emitter (snd (g s))) = output_file (st_emitter s) ++ l.

(** A layout computation ends the same way from every store, after the
    same writes. *)
Definition writes_only {A} (m : L A) : Prop :=
  exists (r : result A) (ws : list write),
    forall st, m st = (r, apply_writes ws st).

Definition insert_all (l : list (positive * Z)) (m : gmap positive Z)
  : gmap positive Z :=
  fold_left (fun m a => <[fst a := snd a]> m) l m.

Definition offset_writes (ws : list write) : list (positive * Z) :=
  flat_map (fun w => match w with WOffset id v => [(id, v)] | _ => [] end) ws.
Definition stack_size_writes (ws : list write) : list (positive * Z) :=
  flat_map (fun w => match w with WStackSize id v => [(id, v)] | _ => [] end) ws.

(** Two runs of [g] from statics with the same emitter end the same
    way, with the same emitter, and leave in each of the other two
    statics either the same value or the value it had. *)
Definition stable {A} (g : G A) : Prop :=
  forall s s', st_emitter s = st_emitter s' ->
    fst (g s) = fst (g s') /\
    st_emitter (snd (g s)) = st_emitter (snd (g s')) /\
    (current_fn (snd (g s)) = current_fn (snd (g s')) \/
     (current_fn (snd (g s)) = current_fn s /\
      current_fn (snd (g s')) = current_fn s')) /\
    (wasm_label_count (snd (g s)) = wasm_label_count (snd (g s')) \/
     (wasm_label_count (snd (g s)) = wasm_label_count s /\
      wasm_label_count (snd (g s')) = wasm_label_count s')).

(** [codegen_wasm] as the layout pass followed by the emission. *)
Definition layout (prog : list Obj) : L Z :=
  bind (assign_global_offsets prog) (fun data_size =>
  assign_wasm_offsets prog ;; ret data_size).

Definition emission (prog : list Obj) (data_size : Z) (st : ObjStore) : G unit :=
  let stack_start := int_align_to (int_add data_size 1024) 65536 in
  let stack_start := if (stack_start <? 65536)%Z then 65536 else stack_start in
  lift (
    println "(module" [] ;;
    indent ;;
    println ("(memory (export " +:+ quoted "memory" +:+ ") 2)") [] ;;
    fprintf nl [] ;;
    println ";; Stack pointer (grows downward from %d)" [Int stack_start] ;;
    println "(global $__sp (mut i32) (i32.const %d))" [Int stack_start] ;;
    fprintf nl [] ;;
    emit_data st prog ;;
    fprintf nl []) ;;
  emit_functions st prog ;;
  lift (
    dedent ;;
    println ")" []).

End ComputationProperties.


(** ** The cast rules in the words of the specification *)

Section CastSpec.
Context `{LongDouble}.

Definition wasm_type_is (ty : CType) (name : string) : bool :=
  String.eqb (wasm_type (Some ty)) name.

Definition spec_is_float (ty : CType) : bool :=
  wasm_type_is ty "f32" || wasm_type_is ty "f64".

Definition sign_suffix (ty : CType) : string :=
  if ty_is_unsigned ty then "u" else "s".

(** The lines a cast from [from] to [to] emits after its operand:
    rule 1 when neither side is float or i64, then rules 2, 3 and 4. *)
Definition cast_rule (from to : CType) : list string :=
  if negb (spec_is_float from) && negb (spec_is_float to)
     && negb (wasm_type_is from "i64") && negb (wasm_type_is to "i64")
  then
    if TypeKind_eqb (ty_kind to) TY_BOOL then ["(i32.const 0)"; "(i32.ne)"]
    else if (ty_size to =? 1)%Z then
      [if ty_is_unsigned to then "(i32.const 255) (i32.and)"
       else "(i32.extend8_s)"]
    else if (ty_size to =? 2)%Z then
      [if ty_is_unsigned to then "(i32.const 65535) (i32.and)"
       else "(i32.extend16_s)"]
    else []
  else if wasm_type_is from "f32" && wasm_type_is to "f64"
  then ["(f64.promote_f32)"]
  else if wasm_type_is from "f64" && wasm_type_is to "f32"
  then ["(f32.demote_f64)"]
  else if spec_is_float from && negb (spec_is_float to)
  then ["(i32.trunc_" +:+ wasm_type (Some from) +:+ "_" +:+ sign_suffix to +:+ ")"]
  else if negb (spec_is_float from) && spec_is_float to
  then ["(" +:+ wasm_type (Some to) +:+ ".convert_i32_" +:+ sign_suffix from +:+ ")"]
  else [].

End CastSpec.

(** ** More sample inputs *)

Section MoreSamples.
#[local] Existing Instance zero_only.

Definition ref_f : ObjRef := mkObjRef 1 "f" (Some ty_fn_void) false.
Definition ref_x : ObjRef := mkObjRef 2 "x" (Some ty_int) true.

(** The call [f()] of a function [void f(void)]. *)
Definition call_f : Node :=
  with_lhs (node_of ND_FUNCALL (Some ty_void))
           (with_var (node_of ND_VAR (Some ty_fn_void)) ref_f).

(** The module has one function, [void f(void)]; the code belongs to a
    function that returns an [int]. *)
Definition ctx_f : vctx :=
  {| functions := fun name => if String.eqb name "f" then Some ([], None) else None;
     return_type := Some I32 |}.

(** [x = 7] for a local [int x]. *)
Definition var_x : Node := with_var (node_of ND_VAR (Some ty_int)) ref_x.
Definition assign_x : Node :=
  with_rhs (with_lhs (node_of ND_ASSIGN (Some ty_int)) var_x) num7.

(** [(char)7]. *)
Definition cast_char : Node := with_lhs (node_of ND_CAST (Some ty_char)) num7.

Definition stmt_of (e : Node) : Node := with_lhs (node_of ND_EXPR_STMT None) e.

(** [return -7;] *)
Definition return_neg : Node :=
  with_lhs (node_of ND_RETURN None) (neg_of num7).

(** [for (;; f()) ;] with the labels of the front end. *)
Definition for_void_inc : Node :=
  mkNode ND_FOR None None None None None None None None (Some call_f) [] []
         None None "L1" "L2" [] 0 0 None "" 0 tt None None None None.

(** A node of kind [k] and type [ty] with the given children. *)
Definition tree (k : NodeKind) (ty : option CType)
  (lhs rhs cond then_ els init inc : option Node) (body : list Node) : Node :=
  mkNode k ty None lhs rhs cond then_ els init inc body [] None None
         "L.brk" "L.cont" [] 0 0 None "" 0 tt None None None None.

Definition binary (k : NodeKind) (ty : CType) (l r : Node) : Node :=
  tree k (Some ty) (Some l) (Some r) None None None None None [].

Definition switch_on (e body : Node) (cases : list Z) : Node :=
  mkNode ND_SWITCH None None None None (Some e) (Some body) None None None
         [] [] None None "L.sw" "" cases 0 0 None "" 0 tt None None None None.

(** The body of
[[
  int g(void) {
    int x;
    x = 7;
    for (x = 7; x < 7; x = x + 7) { if (x && !x) f(); }
    do { x = (char)x; } while (x == 7);
    switch (x) { case 1: case 2: f(); }
    return x ? -x : ({ f(); x; });
  }
]] *)
Definition sample_body : Node :=
  let x := var_x in
  let int_ := Some ty_int in
  let stmt e := stmt_of e in
  let block l := tree ND_BLOCK None None None None None None None None l in
  block
    [ stmt assign_x;
      tree ND_FOR None None None
           (Some (binary ND_LT ty_int x num7))
           (Some (block
                    [ tree ND_IF None None None
                           (Some (binary ND_LOGAND ty_int x
                                         (tree ND_NOT int_ (Some x) None None
                                               None None None None [])))
                           (Some (stmt call_f)) None None None [] ]))
           None
           (Some (stmt assign_x))
           (Some (binary ND_ASSIGN ty_int x (binary ND_ADD ty_int x num7)))
           [];
      tree ND_DO None None None
           (Some (binary ND_EQ ty_int x num7))
           (Some (block
                    [ stmt (binary ND_ASSIGN ty_int x
                                   (tree ND_CAST (Some ty_char) (Some x) None
                                         None None None None None [])) ]))
           None None None [];
      switch_on x
                (block
                   [ tree ND_CASE None
                          (Some (tree ND_CASE None (Some (stmt call_f)) None
                                      None None None None None []))
                          None None None None None None [] ])
                [1; 2];
      tree ND_RETURN None
           (Some (tree ND_COND int_ None None (Some x)
                       (Some (neg_of x))
                       (Some (tree ND_STMT_EXPR int_ None None None None None
                                   None None [stmt call_f; stmt x]))
                       None None []))
           None None None None None None [] ].

(** Two globals, [int a] and [char b], and a declaration of [f]. *)
Definition global_of (id : positive) (name : string) (ty : CType) : Obj :=
  mkObj id name (Some ty) false false true false true false false None [] [] None.
Definition sample_prog : list Obj :=
  [ global_of 10 "a" ty_int;
    mkObj 1 "f" (Some ty_fn_void) false true false false true false false
          None [] [] None;
    global_of 11 "b" ty_char ].

Definition fresh_world : world :=
  {| w_statics := {| st_emitter := {| output_file := []; indent_level := 0 |};
                     current_fn := None; wasm_label_count := 0 |};
     w_objs := empty_store |}.

End MoreSamples.


(** ** Readers of the two escaped forms the program writes *)

Section Readers.
Context `{LongDouble}.

(** The value of a hexadecimal digit. *)
Definition hex_value (c : ascii) : option Z :=
  let n := Z.of_N (N_of_ascii c) in
  if (48 <=? n)%Z && (n <=? 57)%Z then Some (n - 48)
  else if (97 <=? n)%Z && (n <=? 102)%Z then Some (n - 87)
  else if (65 <=? n)%Z && (n <=? 70)%Z then Some (n - 55)
  else None.

Definition byte_of (z : Z) : ascii := ascii_of_N (Z.to_N z).

Definition prepend (c : ascii) (r : option (string * string))
  : option (string * string) :=
  match r with
  | Some (body, rest) => Some (String c body, rest)
  | None => None
  end.

(** The code point of [\uXXXX], from its four digits. *)
Definition hex4 (a b c d : ascii) : option Z :=
  match hex_value a, hex_value b, hex_value c, hex_value d with
  | Some x, Some y, Some z, Some w => Some (((x * 16 + y) * 16 + z) * 16 + w)
  | _, _, _, _ => None
  end.

(** A reader of a JSON string after its opening quote (RFC 8259,
    section 7): the bytes up to the closing quote, and the text after
    it.  A control character that is not escaped, an escape that does
    not exist and a text that ends before the closing quote are
    refused; so is [\uXXXX] above 127, which stands for more than one
    byte. *)
Fixpoint json_read_body (s : string) : option (string * string) :=
  match s with
  | EmptyString => None
  | String c rest =>
    if Ascii.eqb c "034" then Some (EmptyString, rest)
    else if Ascii.eqb c "\" then
      match rest with
      | EmptyString => None
      | String e rest1 =>
        if Ascii.eqb e "034" then prepend "034" (json_read_body rest1)
        else if Ascii.eqb e "\" then prepend "\" (json_read_body rest1)
        else if Ascii.eqb e "/" then prepend "/" (json_read_body rest1)
        else if Ascii.eqb e "b" then prepend "008" (json_read_body rest1)
        else if Ascii.eqb e "f" then prepend "012" (json_read_body rest1)
        else if Ascii.eqb e "n" then prepend "010" (json_read_body rest1)
        else if Ascii.eqb e "r" then prepend "013" (json_read_body rest1)
        else if Ascii.eqb e "t" then prepend "009" (json_read_body rest1)
        else if Ascii.eqb e "u" then
          match rest1 with
          | String x (String y (String z (String w rest2))) =>
            match hex4 x y z w with
            | Some code =>
              if (code <? 128)%Z
              then prepend (byte_of code) (json_read_body rest2)
              else None
            | None => None
            end
          | _ => None
          end
        else None
      end
    else if (Z.of_N (N_of_ascii c) <? 32)%Z then None
    else prepend c (json_read_body rest)
  end.

(** A reader of a JSON string at the head of a text. *)
Definition json_read_string (s : string) : option (string * string) :=
  match s with
  | String c rest => if Ascii.eqb c "034" then json_read_body rest else None
  | EmptyString => None
  end.

(** A text that stands for a C string: no byte of it is NUL. *)
Fixpoint c_string (s : string) : bool :=
  match s with
  | EmptyString => true
  | String c rest => negb (Ascii.eqb c "000") && c_string rest
  end.

Definition c_string_or_null (s : option string) : bool :=
  match s with Some s => c_string s | None => true end.

(** A reader of the body of a string of the WebAssembly text format
    up to its closing quote: a printable ASCII character other than the
    quote and the backslash stands for itself, [\hh] for the byte with
    the two-digit hexadecimal code [hh]. *)
Fixpoint wat_read_body (s : string) : option (list ascii * string) :=
  match s with
  | EmptyString => None
  | String c rest =>
    let more (b : ascii) (r : option (list ascii * string)) :=
      match r with
      | Some (body, rest) => Some (b :: body, rest)
      | None => None
      end in
    if Ascii.eqb c "034" then Some ([], rest)
    else if Ascii.eqb c "\" then
      match rest with
      | String x (String y rest1) =>
        match hex_value x, hex_value y with
        | Some h, Some l => more (byte_of (h * 16 + l)) (wat_read_body rest1)
        | _, _ => None
        end
      | _ => None
      end
    else if (Z.of_N (N_of_ascii c) <? 32)%Z
            || (126 <? Z.of_N (N_of_ascii c))%Z then None
    else more c (wat_read_body rest)
  end.

(** What the byte loop of [emit_data] writes for the byte [c]. *)
Definition data_byte (c : ascii) : item :=
  let code := Z.of_N (N_of_ascii c) in
  if (32 <=? code)%Z && (code <? 127)%Z
     && negb (Ascii.eqb c "034") && negb (Ascii.eqb c "\")
  then Text "%c" [Chr c]
  else Text "\%02x" [Int code].

End Readers.

(** ** What a layout is *)

Section LayoutInvariants.
Context `{LongDouble}.

(** The objects of [l] with their types, in list order: what the layout
    loop of a function runs over when every local has a type. *)
Definition local_vars (l : list Obj) : list (positive * CType) :=
  flat_map (fun o => match obj_ty o with
                     | Some ty => [(obj_id o, ty)]
                     | None => []
                     end) l.

(** The variables [vars] lie one after the other between [lo] and [hi]:
    each at the first multiple of its alignment (1 when the alignment
    is not positive) that is not below the end of the one before. *)
Fixpoint laid_out (offset : positive -> Z) (vars : list (positive * CType))
         (lo hi : Z) : Prop :=
  match vars with
  | [] => lo <= hi
  | (id, ty) :: rest =>
    let a := Z.max (ty_align ty) 1 in
    lo <= offset id < lo + a /\
    (offset id) mod a = 0 /\
    laid_out offset rest (offset id + ty_size ty) hi
  end.

(** The functions of a program. *)
Definition functions_of (prog : list Obj) : list Obj :=
  List.filter obj_is_function prog.

(** The locals of [fn] have sizes that are not negative and the size of
    the frame of [fn], rounded up to 16, fits in an [int]. *)
Definition frame_fits (fn : Obj) : Prop :=
  Forall (fun v => 0 <= ty_size (snd v)) (local_vars (obj_locals fn)) /\
  align_to (snd (spec_layout (local_vars (obj_locals fn)) 0)) 16 < 2^31.

(** The locals of all functions of a program, as objects. *)
Definition local_ids (prog : list Obj) : list positive :=
  flat_map (fun fn => map obj_id (obj_locals fn)) (functions_of prog).

(** The writes of the frame layout of the specification for one
    function: the offsets of its locals, laid out from 0, and then its
    stack size, the final offset rounded up to 16. *)
Definition frame_of (fn : Obj) : list write :=
  map (fun a => WOffset (fst a) (snd a))
      (fst (spec_layout (local_vars (obj_locals fn)) 0))
  ++ [WStackSize (obj_id fn)
                 (align_to (snd (spec_layout (local_vars (obj_locals fn)) 0)) 16)].

Definition frame_writes (prog : list Obj) : list write :=
  flat_map frame_of (functions_of prog).

End LayoutInvariants.

(** ** More properties of computations *)

Section MoreComputationProperties.
Context `{LongDouble}.

(** When [m] returns it leaves the indentation at [n]. *)
Definition ends_at {A} (m : M A) (n : Z) : Prop :=
  forall s a s', m s = (Ok a, s') -> indent_level s' = n.

(** [m] appends to the stream and leaves the indentation as it was,
    however it ends. *)
Definition writes_level {A} (m : M A) : Prop :=
  forall s, exists l,
    snd (m s) = {| output_file := output_file s ++ l;
                   indent_level := indent_level s |}.

(** When [m] returns it leaves the indentation [d] deeper than it
    found it. *)
Definition shifts {A} (m : M A) (d : Z) : Prop :=
  forall s a s', m s = (Ok a, s') -> indent_level s' = indent_level s + d.

End MoreComputationProperties.

(** ** The objects each pass looks at *)

Section Selections.
Context `{LongDouble}.

(** The functions [emit_functions] writes: live definitions. *)
Definition is_emitted (fn : Obj) : bool :=
  obj_is_function fn && obj_is_definition fn && obj_is_live fn.

(** The variables [emit_data] writes a segment for. *)
Definition has_data (var : Obj) : bool :=
  negb (obj_is_function var) &&
  match obj_init_data var with Some _ => true | None => false end.

Definition is_variable (o : Obj) : bool := negb (obj_is_function o).

End Selections.

(** ** The height of a tree *)

Section Height.
Context `{LongDouble}.

Section HeightBody.
Variable height : Node -> nat.

Definition height_opt (o : option Node) : nat :=
  match o with Some n => height n | None => O end.

Definition height_list (l : list Node) : nat :=
  (fix go (l : list Node) : nat :=
     match l with
     | [] => O
     | n :: r => Nat.max (height n) (go r)
     end) l.

Definition height_body (n : Node) : nat :=
  S (Nat.max (height_opt (nd_lhs n))
    (Nat.max (height_opt (nd_rhs n))
    (Nat.max (height_opt (nd_cond n))
    (Nat.max (height_opt (nd_then n))
    (Nat.max (height_opt (nd_els n))
    (Nat.max (height_opt (nd_init n))
    (Nat.max (height_opt (nd_inc n))
    (Nat.max (height_list (nd_body n))
    (Nat.max (height_list (nd_args n))
    (Nat.max (height_opt (nd_cas_addr n))
    (Nat.max (height_opt (nd_cas_old n))
             (height_opt (nd_cas_new n))))))))))))).

End HeightBody.

(** The number of nodes on the longest path from [n] down through the
    sub-nodes [children] lists. *)
Fixpoint height (n : Node) {struct n} : nat := height_body height n.

(** The members of the sentinel object, and a value with the sentinel
    somewhere in it. *)
Definition is_sentinel (members : list (string * json)) : bool :=
  match members with
  | [(key, JStr s)] => String.eqb key "kind" && String.eqb s "...(truncated)"
  | _ => false
  end.

Fixpoint has_cut (v : json) : bool :=
  match v with
  | JArr items => existsb has_cut items
  | JObj members =>
    is_sentinel members || existsb (fun m => has_cut (snd m)) members
  | _ => false
  end.

(** Members none of whose values holds the sentinel. *)
Definition whole (members : list (string * json)) : Prop :=
  existsb (fun m => has_cut (snd m)) members = false.

End Height.

(** ** Memory accesses *)

(** The value type and the width in bytes of a load instruction, and of
    a store instruction. *)
Definition load_access (instr : string) : option (valtype * Z) :=
  if String.eqb instr "(i32.load8_s)" then Some (I32, 1)
  else if String.eqb instr "(i32.load8_u)" then Some (I32, 1)
  else if String.eqb instr "(i32.load16_s)" then Some (I32, 2)
  else if String.eqb instr "(i32.load16_u)" then Some (I32, 2)
  else if String.eqb instr "(i32.load)" then Some (I32, 4)
  else if String.eqb instr "(f32.load)" then Some (F32, 4)
  else if String.eqb instr "(f64.load)" then Some (F64, 8)
  else None.

Definition store_access (instr : string) : option (valtype * Z) :=
  if String.eqb instr "(i32.store8)" then Some (I32, 1)
  else if String.eqb instr "(i32.store16)" then Some (I32, 2)
  else if String.eqb instr "(i32.store)" then Some (I32, 4)
  else if String.eqb instr "(f32.store)" then Some (F32, 4)
  else if String.eqb instr "(f64.store)" then Some (F64, 8)
  else None.

(** A type [wasm_load] loads a value of: not an array, a struct, a
    union or a function. *)
Definition is_loaded (ty : CType) : bool :=
  negb (TypeKind_eqb (ty_kind ty) TY_ARRAY || TypeKind_eqb (ty_kind ty) TY_STRUCT
        || TypeKind_eqb (ty_kind ty) TY_UNION || TypeKind_eqb (ty_kind ty) TY_FUNC).

(** The kinds of node [gen_addr] takes the address of. *)
Definition is_lvalue_kind (k : NodeKind) : bool :=
  match k with
  | ND_VAR | ND_DEREF | ND_COMMA | ND_MEMBER => true
  | _ => false
  end.

(** ** More sample inputs *)

Section FurtherSamples.
#[local] Existing Instance zero_only.

Definition ty_fn_int : CType := mkType TY_FUNC 1 1 false None (Some ty_int) 0.
Definition ty_char4 : CType := mkType TY_ARRAY 4 1 false (Some ty_char) None 4.

(** [char msg[4] = "hi\n";] *)
Definition msg_data : list ascii := ["h"; "i"; "010"; "000"]%char.
Definition msg : Obj :=
  mkObj 12 "msg" (Some ty_char4) false false true false true false false
        (Some msg_data) [] [] None.

Definition local_of (id : positive) (name : string) (ty : CType) : Obj :=
  mkObj id name (Some ty) true false true false true false false None [] [] None.

(** [int g(void)] with the locals [int x; char c; int y;] and the body
    of the sample function. *)
Definition fn_g : Obj :=
  mkObj 20 "g" (Some ty_fn_int) false true true false true false false None
        [] [local_of 2 "x" ty_int; local_of 3 "c" ty_char; local_of 4 "y" ty_int]
        (Some sample_body).

(** The sample program with [msg] and [g] after it. *)
Definition full_prog : list Obj := sample_prog ++ [msg; fn_g].

(** [memzero a] for a local [char a[4]], and [(f(), 7)] for a function
    [void f(void)]. *)
Definition ref_a : ObjRef := mkObjRef 5 "a" (Some ty_char4) true.
Definition memzero_a : Node := with_var (node_of ND_MEMZERO None) ref_a.
Definition comma_call : Node :=
  with_rhs (with_lhs (node_of ND_COMMA (Some ty_int)) call_f) num7.

End FurtherSamples.


(** * Theorems *)

(** ** Type utilities *)

Section TypeUtilities.
Context `{LongDouble}.

(** C3. [wasm_type] is [f32] for float, [f64] for double and long double,
    [i64] for a long of size 8 and [i32] for every other type;
    [wasm_size] is 4 for pointers and functions, 4 for long whatever its
    size, and the size of the type otherwise. *)
Theorem wasm_type_and_size_mapping (ty : CType) :
  (ty_kind ty = TY_FLOAT -> wasm_type (Some ty) = "f32") /\
  (ty_kind ty = TY_DOUBLE \/ ty_kind ty = TY_LDOUBLE ->
   wasm_type (Some ty) = "f64") /\
  (ty_kind ty = TY_LONG -> ty_size ty = 8 -> wasm_type (Some ty) = "i64") /\
  (ty_kind ty <> TY_FLOAT -> ty_kind ty <> TY_DOUBLE ->
   ty_kind ty <> TY_LDOUBLE ->
   (ty_kind ty = TY_LONG -> ty_size ty <> 8) ->
   wasm_type (Some ty) = "i32") /\
  (ty_kind ty = TY_PTR \/ ty_kind ty = TY_FUNC -> wasm_size (Some ty) = 4) /\
  (ty_kind ty = TY_LONG -> wasm_size (Some ty) = 4) /\
  (ty_kind ty <> TY_PTR -> ty_kind ty <> TY_FUNC -> ty_kind ty <> TY_LONG ->
   wasm_size (Some ty) = ty_size ty).
Proof.
  unfold wasm_type, wasm_size.
  repeat split.
  - intros ->. reflexivity.
  - intros [-> | ->]; reflexivity.
  - intros -> ->. reflexivity.
  - intros Hf Hd Hl Hlong.
    destruct (ty_kind ty) eqn:K; try reflexivity; try congruence.
    destruct (Z.eqb_spec (ty_size ty) 8) as [E | E]; [ | reflexivity].
    exfalso. apply Hlong; [reflexivity | exact E].
  - intros [-> | ->]; reflexivity.
  - intros ->. reflexivity.
  - intros Hp Hf Hl.
    destruct (ty_kind ty); try reflexivity; congruence.
Qed.

Lemma wasm_load_returns (ty : option CType) (s : emitter) :
  exists s', wasm_load ty s = (Ok tt, s').
Proof.
  unfold wasm_load, skip, ret, println.
  destruct ty as [t | ]; [ | eexists; reflexivity].
  repeat match goal with
         | |- context [if ?b then _ else _] => destruct b
         end; eexists; reflexivity.
Qed.

Lemma wasm_store_returns (ty : option CType) (s : emitter) :
  exists s', wasm_store ty s = (Ok tt, s').
Proof.
  unfold wasm_store, skip, ret, println, bind.
  destruct ty as [t | ]; [ | eexists; reflexivity].
  repeat match goal with
         | |- context [if ?b then _ else _] => destruct b
         end; eexists; reflexivity.
Qed.

(** C9. At a null type [wasm_type] is ["i32"], [wasm_size] is 4 and
    [wasm_load] and [wasm_store] write nothing and return; and for every
    type, null or not, [wasm_type] is one of the four value types and
    [wasm_load] and [wasm_store] return. *)
Theorem type_utilities_total :
  wasm_type None = "i32" /\
  wasm_size None = 4 /\
  (forall s : emitter, wasm_load None s = (Ok tt, s)) /\
  (forall s : emitter, wasm_store None s = (Ok tt, s)) /\
  (forall ty : option CType, In (wasm_type ty) ["i32"; "i64"; "f32"; "f64"]) /\
  (forall (ty : option CType) (s : emitter),
     exists s', wasm_load ty s = (Ok tt, s')) /\
  (forall (ty : option CType) (s : emitter),
     exists s', wasm_store ty s = (Ok tt, s')).
Proof.
  repeat split; try reflexivity.
  - intros [t | ]; unfold wasm_type; [ | simpl; tauto].
    destruct (ty_kind t); try (simpl; tauto).
    destruct (ty_size t =? 8)%Z; simpl; tauto.
  - apply wasm_load_returns.
  - apply wasm_store_returns.
Qed.

End TypeUtilities.

(** ** The text of a JSON value *)

Section JsonText.
Context `{LongDouble}.
#[local] Arguments String.append : simpl nomatch.

Lemma append_assoc (a b c : string) : (a +:+ b) +:+ c = a +:+ (b +:+ c).
Proof. induction a as [ | x a IH]; simpl; [reflexivity | f_equal; exact IH]. Qed.

Lemma append_empty_r (a : string) : a +:+ EmptyString = a.
Proof. induction a as [ | x a IH]; simpl; [reflexivity | f_equal; exact IH]. Qed.

Lemma escape_char_byte (c : ascii) : escape_char c = json_escape_byte c.
Proof. destruct c as [[] [] [] [] [] [] [] []]; reflexivity. Qed.

Lemma escape_json_escape (s : string) : escape s = json_escape s.
Proof.
  induction s as [ | c s IH]; [reflexivity | ].
  cbn [escape json_escape]. now rewrite escape_char_byte, IH.
Qed.

Lemma print_json_obj (k : string) (x : json) (rest : list (string * json)) :
  print_json (JObj ((k, x) :: rest)) =
  "{" +:+ quoted k +:+ ":" +:+ print_json x +:+ members_text rest +:+ "}".
Proof.
  cbn [print_json].
  match goal with
  | |- context [?F rest] =>
    is_fix F;
    assert (Hm : forall l, F l = members_text l);
      [ induction l as [ | [k' y] l IHl];
        [ reflexivity
        | change (F ((k', y) :: l))
            with ("," +:+ quoted k' +:+ ":" +:+ print_json y +:+ F l);
          rewrite IHl; cbn [members_text]; unfold member_text;
          cbn [fst snd]; now rewrite !append_assoc ]
      | rewrite Hm ]
  end.
  now rewrite !append_assoc.
Qed.

Lemma print_json_arr (x : json) (rest : list json) :
  print_json (JArr (x :: rest)) =
  "[" +:+ print_json x +:+ items_text rest +:+ "]".
Proof.
  cbn [print_json].
  match goal with
  | |- context [?F rest] =>
    is_fix F;
    assert (Hm : forall l, F l = items_text l);
      [ induction l as [ | y l IHl];
        [ reflexivity
        | change (F (y :: l)) with ("," +:+ print_json y +:+ F l);
          now rewrite IHl ]
      | rewrite Hm ]
  end.
  now rewrite !append_assoc.
Qed.

Lemma members_text_app (a b : list (string * json)) :
  members_text (a ++ b) = members_text a +:+ members_text b.
Proof.
  induction a as [ | m a IH]; [reflexivity | ].
  cbn [app members_text]. now rewrite IH, append_assoc.
Qed.

Lemma print_json_str (s : string) : print_json (JStr s) = json_print_str (Some s).
Proof. cbn. now rewrite escape_json_escape. Qed.

Lemma is_flonum_floating (ty : option CType) : is_flonum ty = floating ty.
Proof. destruct ty as [t | ]; [ | reflexivity]. cbn. now destruct (ty_kind t). Qed.

End JsonText.

(** Both sides of an equation between texts, as characters and the
    texts that are not known, appended to the right. *)
Ltac texts :=
  repeat (progress
            (unfold member_text, text_or_null, json_print_escaped,
               json_print_str, quoted, dq;
             cbn [members_text items_text fst snd print_json app
                  String.append sprintf conv_int conv_s conv_Lg conv_c tl
                  negb andb orb Ascii.eqb Bool.eqb];
             rewrite ?escape_json_escape, ?append_assoc, ?append_empty_r)).

(** ** The dumper *)

Section DumpTheorems.
Context `{LongDouble}.
#[local] Arguments String.append : simpl nomatch.

(** What [dump_tokens] writes for a token is the text of its value. *)
Lemma dump_token_value (t : Token) : dump_token true t = token_json t.
Proof.
  unfold dump_token, token_json, token_value.
  cbn [app]. rewrite print_json_obj.
  rewrite is_flonum_floating.
  destruct (tk_kind t), (tk_filename t), (floating (tk_ty t)); texts;
    reflexivity.
Qed.

Lemma dump_token_separator (t : Token) :
  dump_token false t = ("," +:+ nl) +:+ token_json t.
Proof. rewrite <- dump_token_value. reflexivity. Qed.

Lemma dump_tokens_loop_rest (tok : list Token) :
  dump_tokens_loop tok false =
  match tokens_before_eof tok with
  | [] => EmptyString
  | _ :: _ => ("," +:+ nl) +:+ join ("," +:+ nl) (map token_json (tokens_before_eof tok))
  end.
Proof.
  induction tok as [ | t rest IH]; [reflexivity | ].
  cbn [dump_tokens_loop tokens_before_eof].
  destruct (tk_kind t) eqn:K; try reflexivity;
    rewrite IH, dump_token_separator;
    destruct (tokens_before_eof rest) as [ | u more];
    cbn [map join]; rewrite ?append_empty_r, ?append_assoc; reflexivity.
Qed.

Lemma dump_tokens_loop_first (tok : list Token) :
  dump_tokens_loop tok true =
  join ("," +:+ nl) (map token_json (tokens_before_eof tok)).
Proof.
  destruct tok as [ | t rest]; [reflexivity | ].
  cbn [dump_tokens_loop tokens_before_eof].
  destruct (tk_kind t) eqn:K; try reflexivity;
    rewrite dump_tokens_loop_rest, dump_token_value;
    destruct (tokens_before_eof rest) as [ | u more];
    cbn [map join]; rewrite ?append_empty_r; reflexivity.
Qed.

Lemma tokens_before_eof_split (pre post : list Token) (eof : Token) :
  Forall (fun t => tk_kind t <> TK_EOF) pre ->
  tk_kind eof = TK_EOF ->
  tokens_before_eof (pre ++ eof :: post) = pre.
Proof.
  intros Hpre Heof.
  induction Hpre as [ | t pre Ht Hpre IH]; cbn [app tokens_before_eof].
  - now rewrite Heof.
  - rewrite IH. destruct (tk_kind t); congruence.
Qed.

(** C10. [dump_tokens] writes, between the brackets and in list
    order, one line for each token strictly before the first [TK_EOF]:
    the text of the object with the kind, text, line and file of the
    token and, for a number, its value.  The [TK_EOF] token and all
    tokens after it are left out, and a list that starts with [TK_EOF]
    gives an array with no element. *)
Theorem dump_tokens_stops_at_eof (tok : list Token) :
  dump_tokens tok =
    ("[" +:+ nl)
    +:+ join ("," +:+ nl) (map token_json (tokens_before_eof tok))
    +:+ (nl +:+ "]" +:+ nl)
  /\ (forall (pre post : list Token) (eof : Token),
        tok = pre ++ eof :: post ->
        Forall (fun t => tk_kind t <> TK_EOF) pre ->
        tk_kind eof = TK_EOF ->
        tokens_before_eof tok = pre /\ dump_tokens tok = dump_tokens pre)
  /\ (forall (eof : Token) (post : list Token),
        tok = eof :: post -> tk_kind eof = TK_EOF ->
        dump_tokens tok = "[" +:+ nl +:+ nl +:+ "]" +:+ nl).
Proof.
  assert (Hmain : forall l, dump_tokens l =
            ("[" +:+ nl)
            +:+ join ("," +:+ nl) (map token_json (tokens_before_eof l))
            +:+ (nl +:+ "]" +:+ nl)).
  { intros l. unfold dump_tokens. now rewrite dump_tokens_loop_first. }
  split; [apply Hmain | split].
  - intros pre post eof -> Hpre Heof.
    split; [now apply tokens_before_eof_split | ].
    rewrite !Hmain, tokens_before_eof_split by assumption.
    replace (tokens_before_eof pre) with pre; [reflexivity | ].
    clear -Hpre. induction Hpre as [ | t pre Ht Hpre IH]; [reflexivity | ].
    cbn [tokens_before_eof]. rewrite <- IH.
    destruct (tk_kind t); congruence.
  - intros eof post -> Heof.
    rewrite Hmain. cbn [tokens_before_eof]. rewrite Heof. reflexivity.
Qed.

(** C7 as amended. Dumping a program with no object writes
    [{"globals":[], a line feed, a line feed, ]}] and a line feed: the
    JSON text [{"globals":[]}] once the three line feeds are removed. *)
Theorem dump_ast_empty_program (st : ObjStore) :
  dump_ast st [] = "{" +:+ quoted "globals" +:+ ":[" +:+ nl +:+ nl +:+ "]}" +:+ nl
  /\ without_newlines (dump_ast st []) = "{" +:+ quoted "globals" +:+ ":[]}".
Proof. split; reflexivity. Qed.

Lemma dump_node_at_unfold (node : Node) (depth : Z) :
  dump_node_at node depth = dump_node_body dump_node_at node depth.
Proof. destruct node; reflexivity. Qed.

Lemma node_kind_name_plain (k : NodeKind) :
  json_escape (node_kind_name k) = node_kind_name k.
Proof. destruct k; vm_compute; reflexivity. Qed.

End DumpTheorems.


(** ** Induction over nodes *)

Section NodeInduction.
Context `{LongDouble}.
Variable P : Node -> Prop.
Hypothesis step : forall n : Node, Forall P (children n) -> P n.

Lemma Forall_option_list (rec : forall n, P n) (o : option Node) :
  Forall P (option_list o).
Proof. destruct o as [c | ]; simpl; [constructor; [apply rec | constructor] | constructor]. Qed.

Fixpoint Node_children_ind (n : Node) : P n.
Proof.
  apply step.
  destruct n as [k ty tok lhs rhs cond then_ els init inc body args var member
                 brk cont cases begin_ end_ label ulabel val fval asm
                 cas_addr cas_old cas_new].
  unfold children; cbn [nd_lhs nd_rhs nd_cond nd_then nd_els nd_init nd_inc
                        nd_body nd_args nd_cas_addr nd_cas_old nd_cas_new].
  assert (Hopt : forall o : option Node,
             match o with Some c => P c | None => True end ->
             Forall P (option_list o)).
  { intros [c | ] Hc; simpl; [constructor; [exact Hc | constructor] | constructor]. }
  assert (Hlist : forall l : list Node,
             (fix all (l : list Node) : Prop :=
                match l with [] => True | c :: r => P c /\ all r end) l ->
             Forall P l).
  { induction l as [ | c r IH]; intros Hl; [constructor | ].
    destruct Hl as [Hc Hr]. constructor; [exact Hc | exact (IH Hr)]. }
  repeat apply Forall_app_2.
  - apply Hopt. destruct lhs as [c | ]; [apply Node_children_ind | exact I].
  - apply Hopt. destruct rhs as [c | ]; [apply Node_children_ind | exact I].
  - apply Hopt. destruct cond as [c | ]; [apply Node_children_ind | exact I].
  - apply Hopt. destruct then_ as [c | ]; [apply Node_children_ind | exact I].
  - apply Hopt. destruct els as [c | ]; [apply Node_children_ind | exact I].
  - apply Hopt. destruct init as [c | ]; [apply Node_children_ind | exact I].
  - apply Hopt. destruct inc as [c | ]; [apply Node_children_ind | exact I].
  - apply Hlist.
    induction body as [ | c r IH]; [exact I | split; [apply Node_children_ind | exact IH]].
  - apply Hlist.
    induction args as [ | c r IH]; [exact I | split; [apply Node_children_ind | exact IH]].
  - apply Hopt. destruct cas_addr as [c | ]; [apply Node_children_ind | exact I].
  - apply Hopt. destruct cas_old as [c | ]; [apply Node_children_ind | exact I].
  - apply Hopt. destruct cas_new as [c | ]; [apply Node_children_ind | exact I].
Qed.

End NodeInduction.

(** The same with the hypothesis on the children of the children too:
    a statement expression generates the expression of its last
    statement itself. *)
Lemma Node_children_ind2 `{LongDouble} (P : Node -> Prop) :
  (forall n : Node,
     Forall P (children n) ->
     Forall (fun c => Forall P (children c)) (children n) ->
     P n) ->
  forall n : Node, P n.
Proof.
  intros step n.
  enough (Hn : P n /\ Forall P (children n)) by apply Hn.
  induction n as [n IH] using Node_children_ind.
  assert (H1 : Forall P (children n)).
  { eapply List.Forall_impl; [ | exact IH]. simpl. tauto. }
  assert (H2 : Forall (fun c => Forall P (children c)) (children n)).
  { eapply List.Forall_impl; [ | exact IH]. simpl. tauto. }
  split; [now apply step | exact H1].
Qed.

(** ** What the generators write is appended to the stream *)

Section Appends.
Context `{LongDouble}.
#[local] Open Scope cg_scope.

Lemma appends_ret {A} (a : A) : appends (ret a).
Proof. intros s. exists []. simpl. now rewrite app_nil_r. Qed.

Lemma appends_skip : appends skip.
Proof. apply appends_ret. Qed.

Lemma appends_stop {A} (f : failure) : appends (@stop _ A f).
Proof. intros s. exists []. simpl. now rewrite app_nil_r. Qed.

Lemma appends_bind {A B} (m : M A) (k : A -> M B) :
  appends m -> (forall a, appends (k a)) -> appends (bind m k).
Proof.
  intros Hm Hk s. unfold bind.
  destruct (Hm s) as [l1 E1]. destruct (m s) as [[a | f] s1]; simpl in *.
  - destruct (Hk a s1) as [l2 E2]. exists (l1 ++ l2).
    now rewrite E2, E1, app_assoc.
  - now exists l1.
Qed.

Lemma appends_println fmt args : appends (println fmt args).
Proof. intros s. eexists. reflexivity. Qed.

Lemma appends_fprintf fmt args : appends (fprintf fmt args).
Proof. intros s. eexists. reflexivity. Qed.

Lemma appends_indent : appends indent.
Proof. intros s. exists []. simpl. now rewrite app_nil_r. Qed.

Lemma appends_dedent : appends dedent.
Proof. intros s. exists []. simpl. now rewrite app_nil_r. Qed.

Lemma appends_set_indent_level n : appends (set_indent_level n).
Proof. intros s. exists []. simpl. now rewrite app_nil_r. Qed.

Lemma appends_opt {A} (f : A -> M unit) (o : option A) :
  (forall a, o = Some a -> appends (f a)) -> appends (opt f o).
Proof. intros Hf. destruct o as [a | ]; simpl; [now apply Hf | apply appends_skip]. Qed.

Lemma appends_must {A} (f : A -> M unit) (o : option A) :
  (forall a, o = Some a -> appends (f a)) -> appends (must f o).
Proof. intros Hf. destruct o as [a | ]; simpl; [now apply Hf | apply appends_stop]. Qed.

Lemma appends_for_each {A} (f : A -> M unit) (l : list A) :
  Forall (fun a => appends (f a)) l -> appends (for_each f l).
Proof.
  induction 1 as [ | a r Ha Hr IH]; simpl; [apply appends_skip | ].
  apply appends_bind; [exact Ha | intros _; exact IH].
Qed.

Lemma appends_for_each_all {A} (f : A -> M unit) (l : list A) :
  (forall a, appends (f a)) -> appends (for_each f l).
Proof. intros Hf. apply appends_for_each, Forall_forall. auto. Qed.

Lemma gen_expr_unfold st n :
  gen_expr st n = gen_expr_body st (gen_expr st) (gen_stmt st) n.
Proof. destruct n; reflexivity. Qed.

Lemma gen_stmt_unfold st n :
  gen_stmt st n = gen_stmt_body (gen_expr st) (gen_stmt st) n.
Proof. destruct n; reflexivity. Qed.

Lemma gen_addr_unfold st n :
  gen_addr st n =
  match nd_kind n with
  | ND_VAR =>
    match nd_var n with
    | None => stop invalid_read
    | Some var =>
      if ref_is_local var then
        println "(i32.add (local.get $__bp) (i32.const %d))"
                [Int (offset_of st (ref_id var))]
      else
        println "(i32.const %d) ;; &%s"
                [Int (offset_of st (ref_id var)); Str (ref_name var)]
    end
  | ND_DEREF => opt (gen_expr st) (nd_lhs n)
  | ND_COMMA =>
    opt (gen_expr st) (nd_lhs n) ;;
    println "(drop)" [] ;;
    must (gen_addr st) (nd_rhs n)
  | ND_MEMBER =>
    must (gen_addr st) (nd_lhs n) ;;
    match nd_member n with
    | None => stop invalid_read
    | Some member =>
      println "(i32.const %d)" [Int (mem_offset member)] ;;
      println "(i32.add)" []
    end
  | k => stop (error_tok "not an lvalue (wasm gen_addr)" k)
  end.
Proof. destruct n; reflexivity. Qed.

(** What the induction hypothesis on the children gives for each field. *)
Lemma children_fields (P : Node -> Prop) (n : Node) :
  Forall P (children n) ->
  (forall c, nd_lhs n = Some c -> P c) /\
  (forall c, nd_rhs n = Some c -> P c) /\
  (forall c, nd_cond n = Some c -> P c) /\
  (forall c, nd_then n = Some c -> P c) /\
  (forall c, nd_els n = Some c -> P c) /\
  (forall c, nd_init n = Some c -> P c) /\
  (forall c, nd_inc n = Some c -> P c) /\
  Forall P (nd_body n) /\
  Forall P (nd_args n).
Proof.
  unfold children. rewrite !Forall_app.
  intros (Hl & Hr & Hc & Ht & He & Hi & Hn & Hb & Ha & _).
  repeat split; try assumption;
    intros c E; rewrite E in *; simpl in *;
    match goal with Hx : Forall P [c] |- _ => now inversion Hx end.
Qed.

End Appends.

Ltac appends_step :=
  first
    [ apply appends_bind; [ | intros _ ]
    | apply appends_println
    | apply appends_fprintf
    | apply appends_indent
    | apply appends_dedent
    | apply appends_set_indent_level
    | apply appends_skip
    | apply appends_stop
    | apply appends_ret ].

Section GeneratorsAppend.
Context `{LongDouble}.
#[local] Open Scope cg_scope.

Lemma appends_wasm_load ty : appends (wasm_load ty).
Proof.
  unfold wasm_load. destruct ty as [t | ]; [ | apply appends_skip].
  repeat match goal with
         | |- appends (if ?b then _ else _) => destruct b
         | |- appends (let _ := _ in _) => cbv zeta
         end; repeat appends_step.
Qed.

Lemma appends_wasm_store ty : appends (wasm_store ty).
Proof.
  unfold wasm_store. destruct ty as [t | ]; [ | apply appends_skip].
  repeat match goal with
         | |- appends (if ?b then _ else _) => destruct b
         | |- appends (let _ := _ in _) => cbv zeta
         end; repeat appends_step.
Qed.

Lemma appends_gen_cast from to : appends (gen_cast from to).
Proof.
  unfold gen_cast.
  destruct from as [f | ], to as [t | ]; try apply appends_skip.
  repeat match goal with
         | |- appends (if ?b then _ else _) => destruct b
         end; repeat appends_step.
Qed.

Lemma appends_gen_binary (g : Node -> M unit) (n : Node) :
  (forall c, nd_lhs n = Some c -> appends (g c)) ->
  (forall c, nd_rhs n = Some c -> appends (g c)) ->
  appends (gen_binary g n).
Proof.
  intros Hl Hr. unfold gen_binary.
  destruct (nd_lhs n) as [l | ]; [ | apply appends_stop].
  destruct (nd_rhs n) as [r | ]; [ | apply appends_stop].
  cbv zeta.
  apply appends_bind; [now apply Hl | intros _].
  apply appends_bind; [now apply Hr | intros _].
  destruct (nd_kind n);
    repeat match goal with
           | |- appends (if ?b then _ else _) => destruct b
           end; repeat appends_step.
Qed.

Lemma appends_gen_stmt_expr_body (ge gs : Node -> M unit) (l : list Node) :
  Forall (fun c => (forall d, nd_lhs c = Some d -> appends (ge d)) /\ appends (gs c)) l ->
  appends (gen_stmt_expr_body ge gs l).
Proof.
  induction 1 as [ | c r [Hce Hcs] Hr IH]; cbn [gen_stmt_expr_body];
    [apply appends_skip | ].
  apply appends_bind; [ | intros _; exact IH].
  destruct r as [ | c' r']; [ | exact Hcs].
  destruct (nd_kind c);
    try (apply appends_bind; [exact Hcs | intros _; apply appends_println]).
  apply appends_opt. exact Hce.
Qed.

(** The three generators only append, on every node. *)
Lemma generators_append (st : ObjStore) (n : Node) :
  appends (gen_expr st n) /\ appends (gen_stmt st n) /\ appends (gen_addr st n).
Proof.
  induction n as [n IH IH2] using Node_children_ind2.
  assert (IHe : Forall (fun c => appends (gen_expr st c)) (children n))
    by (eapply List.Forall_impl; [ | exact IH]; simpl; tauto).
  assert (IHs : Forall (fun c => appends (gen_stmt st c)) (children n))
    by (eapply List.Forall_impl; [ | exact IH]; simpl; tauto).
  assert (IHa : Forall (fun c => appends (gen_addr st c)) (children n))
    by (eapply List.Forall_impl; [ | exact IH]; simpl; tauto).
  apply children_fields in IHe as (El & Er & Ec & Et & Ee & Ei & En & Eb & Ea).
  apply children_fields in IHs as (Sl & Sr & Sc & St & Se & Si & Sn & Sb & Sa).
  apply children_fields in IHa as (Al & Ar & _).
  apply children_fields in IH2 as (_ & _ & _ & _ & _ & _ & _ & Gb & _).
  assert (Haddr : appends (gen_addr st n)).
  { rewrite gen_addr_unfold.
    destruct (nd_kind n); try apply appends_stop.
    - apply appends_bind; [now apply appends_opt | intros _].
      apply appends_bind; [apply appends_println | intros _].
      now apply appends_must.
    - apply appends_bind; [now apply appends_must | intros _].
      destruct (nd_member n); repeat appends_step.
    - now apply appends_opt.
    - destruct (nd_var n) as [v | ]; [ | apply appends_stop].
      destruct (ref_is_local v); apply appends_println. }
  assert (Hbody : appends (gen_stmt_expr_body (gen_expr st) (gen_stmt st) (nd_body n))).
  { apply appends_gen_stmt_expr_body.
    rewrite List.Forall_forall in Sb, Gb. apply List.Forall_forall.
    intros c Hc. split; [ | now apply Sb].
    intros d Hd. specialize (Gb c Hc).
    apply children_fields in Gb as (Gl & _). now apply Gl. }
  split; [ | split; [ | exact Haddr]].
  - rewrite gen_expr_unfold. unfold gen_expr_body.
    change (gen_addr_body st (gen_expr st)) with (gen_addr st).
    destruct (nd_kind n);
      try (apply appends_gen_binary; assumption);
      try exact Hbody;
      repeat match goal with
             | |- appends (if ?b then _ else _) => destruct b
             | |- appends (let _ := _ in _) => cbv zeta
             | |- appends (bind _ _) => apply appends_bind; [ | intros _]
             | |- appends (opt _ _) => apply appends_opt; assumption
             | |- appends (must _ _) => apply appends_must; assumption
             | |- appends (wasm_load _) => apply appends_wasm_load
             | |- appends (wasm_store _) => apply appends_wasm_store
             | |- appends (gen_cast _ _) => apply appends_gen_cast
             | |- appends (gen_addr st n) => exact Haddr
             | |- appends (for_each _ _) => apply appends_for_each; assumption
             | |- appends (match nd_els n with _ => _ end) =>
               destruct (nd_els n) as [c | ] eqn:?; [now apply Ee | ]
             | |- appends (match nd_lhs n with _ => _ end) =>
               destruct (nd_lhs n) as [c | ] eqn:?
             | |- appends (match nd_kind ?c with _ => _ end) =>
               destruct (nd_kind c)
             | |- appends (match nd_var ?c with _ => _ end) =>
               destruct (nd_var c)
             | |- appends (match ref_ty ?c with _ => _ end) =>
               destruct (ref_ty c)
             | |- _ => appends_step
             end.
  - rewrite gen_stmt_unfold. unfold gen_stmt_body.
    destruct (nd_kind n);
      repeat match goal with
             | |- appends (if ?b then _ else _) => destruct b
             | |- appends (bind _ _) => apply appends_bind; [ | intros _]
             | |- appends (opt _ _) => apply appends_opt; assumption
             | |- appends (for_each (gen_stmt st) _) =>
               apply appends_for_each; assumption
             | |- appends (for_each _ _) =>
               apply appends_for_each_all; intros ?
             | |- appends (match nd_els n with _ => _ end) =>
               destruct (nd_els n) as [c | ] eqn:?
             | |- appends (match nd_cond n with _ => _ end) =>
               destruct (nd_cond n) as [c | ] eqn:?
             | |- appends (match nd_inc n with _ => _ end) =>
               destruct (nd_inc n) as [c | ] eqn:?
             | |- appends (match nd_lhs n with _ => _ end) =>
               destruct (nd_lhs n) as [c | ] eqn:?
             | |- appends (match nd_ty ?c with _ => _ end) =>
               destruct (nd_ty c)
             | |- appends (gen_expr st ?c) => auto
             | |- appends (gen_stmt st ?c) => auto
             | |- _ => appends_step
             end.
Qed.

End GeneratorsAppend.


(** ** The text of a node tree *)

Section NodeText.
Context `{LongDouble}.
#[local] Arguments String.append : simpl nomatch.

Lemma children_all_fields (P : Node -> Prop) (n : Node) :
  Forall P (children n) ->
  (forall c, nd_lhs n = Some c -> P c) /\
  (forall c, nd_rhs n = Some c -> P c) /\
  (forall c, nd_cond n = Some c -> P c) /\
  (forall c, nd_then n = Some c -> P c) /\
  (forall c, nd_els n = Some c -> P c) /\
  (forall c, nd_init n = Some c -> P c) /\
  (forall c, nd_inc n = Some c -> P c) /\
  Forall P (nd_body n) /\
  Forall P (nd_args n) /\
  (forall c, nd_cas_addr n = Some c -> P c) /\
  (forall c, nd_cas_old n = Some c -> P c) /\
  (forall c, nd_cas_new n = Some c -> P c).
Proof.
  unfold children. rewrite !Forall_app.
  intros (Hl & Hr & Hc & Ht & He & Hi & Hn & Hb & Ha & H1 & H2 & H3).
  repeat split; try assumption;
    intros c E; rewrite E in *; simpl in *;
    match goal with Hx : Forall P [c] |- _ => now inversion Hx end.
Qed.

Section Fields.
(** [f] is [dump_node] on the sub-nodes, [d] the depth it is called
    with and [child] the value that stands for a sub-node. *)
Variable f : Node -> Z -> string.
Variable child : Node -> json.

Lemma always_text (key : string) (o : option Node) (d : Z) :
  (forall c, o = Some c -> f c d = print_json (child c)) ->
  dump_node_field_of f key o d = members_text (always child key o).
Proof.
  intros Ho. unfold dump_node_field_of, always.
  destruct o as [c | ]; [rewrite (Ho c eq_refl) | ]; texts; reflexivity.
Qed.

Lemma if_present_text (key : string) (o : option Node) (d : Z) :
  (forall c, o = Some c -> f c d = print_json (child c)) ->
  field_if_set f key o d = members_text (if_present child key o).
Proof.
  intros Ho. unfold field_if_set, if_present.
  destruct o as [c | ] eqn:E; [ | reflexivity].
  rewrite always_text by exact Ho. reflexivity.
Qed.

Lemma all_of_text (key : string) (l : list Node) (d : Z) :
  Forall (fun c => f c d = print_json (child c)) l ->
  dump_node_list_of f key l d = members_text (all_of child key l).
Proof.
  intros Hl. unfold dump_node_list_of, all_of.
  match goal with
  | |- context [?F l true] =>
    is_fix F;
    assert (Hrest : forall r, Forall (fun c => f c d = print_json (child c)) r ->
                              F r false = items_text (map child r))
  end.
  { induction 1 as [ | c r Hc Hr IH]; [reflexivity | ].
    cbn [map items_text]. rewrite <- IH, <- Hc. reflexivity. }
  destruct Hl as [ | c r Hc Hr].
  - texts; reflexivity.
  - cbn [map]. cbn [members_text]. unfold member_text. cbn [fst snd].
    rewrite print_json_arr, <- (Hrest r Hr), <- Hc.
    texts; reflexivity.
Qed.

Lemma label_if_set_text (label : option string) :
  label_if_set label = members_text (text_if_present "label" label).
Proof.
  unfold label_if_set, text_if_present. destruct label; texts; reflexivity.
Qed.

Lemma name_if_var_text (var : option ObjRef) :
  name_if_var var = members_text (name_of var).
Proof.
  unfold name_if_var, name_of. destruct var; texts; reflexivity.
Qed.

(** The kind-specific fields of a node whose sub-nodes are written as
    the text of their values. *)
Lemma dump_node_fields_text (n : Node) (d : Z) :
  Forall (fun c => f c (d + 1) = print_json (child c)) (children n) ->
  dump_node_fields f n d = members_text (kind_members child n).
Proof.
  intros Hc.
  apply children_all_fields in Hc
    as (Cl & Cr & Cc & Ct & Ce & Ci & Cn & Cb & Ca & C1 & C2 & C3).
  unfold dump_node_fields, kind_members.
  rewrite is_flonum_floating.
  destruct (nd_kind n); rewrite ?members_text_app;
    repeat first
      [ rewrite label_if_set_text
      | rewrite name_if_var_text
      | rewrite always_text by assumption
      | rewrite if_present_text by assumption
      | rewrite all_of_text by assumption ];
    try reflexivity.
  all: try (destruct (floating (nd_ty n)); texts; reflexivity).
  all: try (destruct (nd_asm_str n); unfold text_if_present; texts; reflexivity).
  all: try (destruct (nd_member n) as [m | ]; [destruct (mem_name m) | ];
            simpl; unfold text_if_present; texts; reflexivity).
  all: try (texts; reflexivity).
Qed.

End Fields.

Lemma levels_at_step (d : Z) :
  d <= MAX_DEPTH -> levels_at d = S (levels_at (d + 1)).
Proof. unfold levels_at, MAX_DEPTH. lia. Qed.

Lemma levels_at_none (d : Z) : MAX_DEPTH < d -> levels_at d = O.
Proof. unfold levels_at, MAX_DEPTH. lia. Qed.

(** What [dump_node] writes for a node at a depth is the text of the
    value of the tree with the levels left at that depth. *)
Lemma dump_node_at_value (n : Node) :
  forall d : Z, dump_node_at n d = print_json (node_value (levels_at d) n).
Proof.
  induction n as [n IH] using Node_children_ind. intros d.
  rewrite dump_node_at_unfold. unfold dump_node_body.
  destruct (Z.gtb_spec d MAX_DEPTH) as [Hgt | Hle].
  - rewrite levels_at_none by exact Hgt. reflexivity.
  - rewrite levels_at_step by exact Hle. cbn [node_value].
    assert (Hc : Forall (fun c => dump_node_at c (d + 1) =
                                  print_json (node_value (levels_at (d + 1)) c))
                        (children n)).
    { eapply List.Forall_impl; [ | exact IH]. intros c Hd. apply Hd. }
    rewrite (dump_node_fields_text dump_node_at
               (node_value (levels_at (d + 1))) n d Hc).
    unfold node_members. cbn [app]. rewrite print_json_obj.
    rewrite !members_text_app.
    destruct (nd_ty n), (nd_tok n); texts; reflexivity.
Qed.

(** C6 as amended. [dump_node] writes the text of the value of the
    tree with 21 levels from the root, depth 0: a node at a depth up
    to 20 is written in full, as the object of its kind, its type, its
    line and the members of its kind, with every sub-node written one
    level deeper; a node above depth 20 is replaced by the sentinel,
    so that in a tree nested more than 21 levels deep the sentinel
    stands at depth 21 and nothing below depth 20 is written. *)
Theorem dump_node_truncates_above_20 (node : Node) (depth : Z) :
  dump_node (Some node) depth =
    print_json (node_value (levels_at depth) node)
  /\ (depth <= 20 ->
      node_value (levels_at depth) node =
      JObj (node_members (node_value (levels_at (depth + 1))) node))
  /\ (20 < depth -> node_value (levels_at depth) node = cut)
  /\ print_json cut = truncated.
Proof.
  split; [apply dump_node_at_value | split; [ | split]].
  - intros Hd. rewrite levels_at_step by exact Hd. reflexivity.
  - intros Hd. rewrite levels_at_none by exact Hd. reflexivity.
  - reflexivity.
Qed.

Lemma dump_local_value (st : ObjStore) (p : Obj) :
  dump_local st true p = print_json (local_value st p).
Proof.
  unfold dump_local, local_value, dump_type_json.
  rewrite print_json_obj. texts; reflexivity.
Qed.

Lemma dump_locals_rest (st : ObjStore) (l : list Obj) :
  dump_locals st l false = items_text (map (local_value st) l).
Proof.
  induction l as [ | p l IH]; [reflexivity | ].
  cbn [dump_locals map items_text]. rewrite IH, <- dump_local_value.
  unfold dump_local. texts; reflexivity.
Qed.

Lemma dump_locals_value (st : ObjStore) (l : list Obj) :
  "[" +:+ dump_locals st l true +:+ "]" =
  print_json (JArr (map (local_value st) l)).
Proof.
  destruct l as [ | p l]; [reflexivity | ].
  cbn [dump_locals map]. rewrite print_json_arr, dump_locals_rest,
    dump_local_value.
  now rewrite !append_assoc.
Qed.

(** What [dump_ast] writes for an object is the text of its value. *)
Lemma dump_obj_value (st : ObjStore) (o : Obj) :
  dump_obj st true o = obj_json st o.
Proof.
  unfold dump_obj, obj_json, obj_value, dump_type_json, dump_node, dump_node_of.
  cbn [app]. rewrite print_json_obj.
  pose proof (dump_locals_value st (obj_params o)) as Hp.
  pose proof (dump_locals_value st (obj_locals o)) as Hl.
  destruct (obj_is_function o).
  - destruct (obj_body o) as [b | ];
      [pose proof (dump_node_at_value b 0) as Hb | pose proof I as Hb];
      destruct (obj_ty o) as [ty | ];
      try destruct (ty_return_ty ty);
      cbn [app members_text]; unfold member_text; cbn [fst snd];
      rewrite <- ?Hp, <- ?Hl, <- ?Hb;
      unfold bool_text; texts; reflexivity.
  - clear Hp Hl.
    destruct (obj_is_tentative o), (obj_is_tls o), (obj_init_data o),
      (obj_ty o) as [ty | ];
      unfold bool_text; texts; reflexivity.
Qed.

End NodeText.


(** ** Memory layout *)

Lemma wrap32_in_range (z : Z) : - 2^31 <= z < 2^31 -> wrap32 z = z.
Proof.
  intros Hz. unfold wrap32.
  rewrite Z.mod_small by lia. lia.
Qed.

Lemma align_to_ge (n a : Z) : 1 <= a -> n <= align_to n a.
Proof.
  intros Ha. unfold align_to.
  pose proof (Z.div_mod (n + a - 1) a ltac:(lia)) as Hdm.
  pose proof (Z.mod_pos_bound (n + a - 1) a ltac:(lia)) as Hb.
  nia.
Qed.

Section LayoutTheorems.
Context `{LongDouble}.
#[local] Open Scope cg_scope.

Lemma spec_layout_final_ge (vars : list (positive * CType)) (offset : Z) :
  Forall (fun v => 0 <= ty_size (snd v)) vars ->
  offset <= snd (spec_layout vars offset).
Proof.
  intros Hv. revert offset.
  induction Hv as [ | [id ty] rest Hty Hrest IH]; intros offset; simpl; [lia | ].
  specialize (IH (align_to offset (Z.max (ty_align ty) 1) + ty_size ty)).
  destruct (spec_layout rest _) as [assigned final]. simpl in *.
  pose proof (align_to_ge offset (Z.max (ty_align ty) 1) ltac:(lia)).
  lia.
Qed.

(** Within the range of an [int] the result of [align_to] is kept as it
    is. *)
Lemma int_align_to_in_range (n a : Z) :
  - 2^31 <= align_to n a < 2^31 -> int_align_to n a = align_to n a.
Proof. intros Hr. unfold int_align_to. now apply wrap32_in_range. Qed.

(** The loop of [assign_global_offsets] against the layout of the
    specification, from any running offset. *)
Lemma assign_global_offsets_from_spec (prog : list Obj) (offset : Z)
      (st : ObjStore) :
  Forall (fun o => obj_is_function o = false -> obj_ty o <> None) prog ->
  Forall (fun v => 0 <= ty_size (snd v)) (variables prog) ->
  0 <= offset ->
  align_to (snd (spec_layout (variables prog) offset)) 16 < 2^31 ->
  assign_global_offsets_from prog offset st =
  (Ok (align_to (snd (spec_layout (variables prog) offset)) 16),
   write_offsets (fst (spec_layout (variables prog) offset)) st).
Proof.
  intros Hty. revert offset st.
  induction Hty as [ | o rest Ho Hrest IH]; intros offset st Hsz Hoff Hfin.
  - cbn [assign_global_offsets_from variables spec_layout fst snd] in *.
    pose proof (align_to_ge offset 16 ltac:(lia)).
    rewrite int_align_to_in_range by lia. reflexivity.
  - cbn [assign_global_offsets_from variables] in *.
    destruct (obj_is_function o) eqn:Hf; [now apply IH | ].
    destruct (obj_ty o) as [ty | ] eqn:Hoty; [ | now exfalso; apply Ho].
    inversion Hsz as [ | v vs Hv Hvs]; subst. simpl in Hv.
    assert (Hmax : (if (ty_align ty >? 0)%Z then ty_align ty else 1)
                   = Z.max (ty_align ty) 1).
    { destruct (Z.gtb_spec (ty_align ty) 0); lia. }
    cbn [spec_layout] in *. rewrite Hmax.
    set (at_ := align_to offset (Z.max (ty_align ty) 1)) in *.
    assert (Hat : offset <= at_) by (apply align_to_ge; lia).
    pose proof (spec_layout_final_ge (variables rest) (at_ + ty_size ty) Hvs) as Hge.
    destruct (spec_layout (variables rest) (at_ + ty_size ty))
      as [assigned final] eqn:Hsl.
    simpl in Hfin, Hge.
    pose proof (align_to_ge final 16 ltac:(lia)) as Hfinal.
    unfold bind, store_offset.
    rewrite (int_align_to_in_range offset) by (fold at_; lia). fold at_.
    unfold int_add. rewrite wrap32_in_range by lia.
    rewrite IH by (try assumption; try lia; rewrite Hsl; simpl; lia).
    rewrite Hsl. reflexivity.
Qed.

Lemma assign_local_offsets_ok (locals : list Obj) (offset : Z) (st : ObjStore) :
  Forall (fun l => obj_ty l <> None) locals ->
  exists r st', assign_local_offsets locals offset st = (Ok r, st').
Proof.
  intros Hl. revert offset st.
  induction Hl as [ | l rest Hl Hrest IH]; intros offset st; simpl.
  - eexists _, _. reflexivity.
  - destruct (obj_ty l) as [ty | ]; [ | congruence].
    unfold bind, store_offset. apply IH.
Qed.

Lemma assign_wasm_offsets_ok (prog : list Obj) (st : ObjStore) :
  has_types prog ->
  exists st', assign_wasm_offsets prog st = (Ok tt, st').
Proof.
  intros Hp. revert st.
  induction Hp as [ | o rest Ho Hrest IH]; intros st; simpl.
  - eexists. reflexivity.
  - unfold bind at 1.
    destruct (obj_is_function o); simpl.
    + unfold bind at 1.
      destruct (assign_local_offsets_ok (obj_locals o) 0 st Ho) as (r & st1 & ->).
      simpl. apply IH.
    + apply IH.
Qed.

(** [emit_data] and [emit_functions] only append. *)
Lemma appends_emit_data_bytes data i n : appends (emit_data_bytes data i n).
Proof.
  revert i. induction n as [ | n IH]; intros i; simpl; [apply appends_skip | ].
  destruct (nth_error data i); [ | apply appends_stop].
  apply appends_bind; [ | intros _; apply IH].
  destruct (_ && _); apply appends_fprintf.
Qed.

Lemma appends_emit_data st prog : appends (emit_data st prog).
Proof.
  induction prog as [ | o rest IH]; simpl; [apply appends_skip | ].
  apply appends_bind; [ | intros _; exact IH].
  destruct (obj_is_function o); [apply appends_skip | ].
  destruct (obj_init_data o); [ | apply appends_skip].
  destruct (obj_ty o); [ | apply appends_stop].
  repeat (apply appends_bind; [ | intros _]);
    try apply appends_println; try apply appends_fprintf.
  apply appends_emit_data_bytes.
Qed.

Lemma appendsG_bind {A B} (g : G A) (k : A -> G B) :
  appendsG g -> (forall a, appendsG (k a)) -> appendsG (bind g k).
Proof.
  intros Hg Hk s. unfold bind.
  destruct (Hg s) as [l1 E1]. destruct (g s) as [[a | f] s1]; simpl in *.
  - destruct (Hk a s1) as [l2 E2]. exists (l1 ++ l2).
    now rewrite E2, E1, app_assoc.
  - now exists l1.
Qed.

Lemma appendsG_lift {A} (m : M A) : appends m -> appendsG (lift m).
Proof.
  intros Hm s. unfold lift. destruct (Hm (st_emitter s)) as [l E].
  destruct (m (st_emitter s)) as [r e]. simpl in *. now exists l.
Qed.

Lemma appendsG_skip : appendsG skip.
Proof. intros s. exists []. simpl. now rewrite app_nil_r. Qed.

Lemma appendsG_emit_function st fn : appendsG (emit_function st fn).
Proof.
  unfold emit_function.
  apply appendsG_bind; [intros s; exists []; simpl; now rewrite app_nil_r | intros _].
  apply appendsG_bind; [intros s; exists []; simpl; now rewrite app_nil_r | intros _].
  apply appendsG_lift.
  repeat match goal with
         | |- appends (bind _ _) => apply appends_bind; [ | intros _]
         | |- appends (if ?b then _ else _) => destruct b
         | |- appends (match obj_ty fn with _ => _ end) => destruct (obj_ty fn)
         | |- appends (let _ := _ in _) => cbv zeta
         | |- appends (for_each _ _) => apply appends_for_each_all; intros ?
         | |- appends (wasm_store _) => apply appends_wasm_store
         | |- appends (opt (gen_stmt st) _) =>
           apply appends_opt; intros ? _; apply generators_append
         | |- _ => appends_step
         end.
Qed.

Lemma appendsG_emit_functions st prog : appendsG (emit_functions st prog).
Proof.
  induction prog as [ | fn rest IH]; simpl; [apply appendsG_skip | ].
  apply appendsG_bind; [ | intros _; exact IH].
  destruct (_ || _); [apply appendsG_skip | ].
  destruct (negb _); [apply appendsG_skip | apply appendsG_emit_function].
Qed.

Lemma has_types_variables (prog : list Obj) :
  has_types prog ->
  Forall (fun o => obj_is_function o = false -> obj_ty o <> None) prog.
Proof.
  intros Hp. eapply List.Forall_impl; [ | exact Hp].
  intros o Ho Hf. simpl in Ho. now rewrite Hf in Ho.
Qed.

(** What the emission part of [codegen_wasm] writes to a fresh stream
    starts with the module header. *)
Lemma emission_starts_with_header (st : ObjStore) (prog : list Obj)
      (stack_start : Z) (cf : option positive) (lc : Z) :
  exists rest,
    output_file (st_emitter (snd (
      (lift (
         println "(module" [] ;;
         indent ;;
         println ("(memory (export " +:+ quoted "memory" +:+ ") 2)") [] ;;
         fprintf nl [] ;;
         println ";; Stack pointer (grows downward from %d)" [Int stack_start] ;;
         println "(global $__sp (mut i32) (i32.const %d))" [Int stack_start] ;;
         fprintf nl [] ;;
         emit_data st prog ;;
         fprintf nl []) ;;
       emit_functions st prog ;;
       lift (dedent ;; println ")" []))
      {| st_emitter := {| output_file := []; indent_level := 0 |};
         current_fn := cf; wasm_label_count := lc |})))
    = module_header stack_start ++ rest.
Proof.
  set (tail := (emit_data st prog ;; fprintf nl [])).
  assert (Htail : appends tail).
  { apply appends_bind; [apply appends_emit_data | intros _; apply appends_fprintf]. }
  set (rest_g := (emit_functions st prog ;; lift (dedent ;; println ")" []))).
  assert (Hrest : appendsG rest_g).
  { apply appendsG_bind; [apply appendsG_emit_functions | intros _].
    apply appendsG_lift.
    apply appends_bind; [apply appends_dedent | intros _; apply appends_println]. }
  unfold bind at 1. unfold lift at 1.
  unfold bind at 1. unfold println at 1.
  unfold bind at 1. unfold indent at 1.
  unfold bind at 1. unfold println at 1.
  unfold bind at 1. unfold fprintf at 1.
  unfold bind at 1. unfold println at 1.
  unfold bind at 1. unfold println at 1.
  unfold bind at 1. unfold fprintf at 1.
  cbn [output_file indent_level st_emitter current_fn wasm_label_count app].
  match goal with
  | |- context [tail ?e] =>
    destruct (Htail e) as [l1 E1]; destruct (tail e) as [[[] | f] e1]
  end; cbn [snd output_file] in E1.
  - match goal with
    | |- context [rest_g ?s] =>
      destruct (Hrest s) as [l2 E2]; destruct (rest_g s) as [r2 s2]
    end. cbn [snd st_emitter] in *.
    exists (l1 ++ l2). rewrite E2, E1. unfold module_header.
    simpl. reflexivity.
  - exists l1. cbn [snd st_emitter]. rewrite E1. reflexivity.
Qed.

Lemma layout_insert_all_other (l : list (positive * Z)) (m : gmap positive Z)
      (k : positive) :
  ~ In k (map fst l) -> insert_all l m !! k = m !! k.
Proof.
  revert m. induction l as [ | [k' v'] l IH]; intros m Hk; [reflexivity | ].
  unfold insert_all in *. cbn [fold_left fst snd map In] in *.
  rewrite IH by tauto.
  apply lookup_insert_ne. intros ->. tauto.
Qed.

Lemma layout_insert_all_lookup (l : list (positive * Z)) (m : gmap positive Z)
      (k : positive) (v : Z) :
  List.NoDup (map fst l) -> In (k, v) l -> insert_all l m !! k = Some v.
Proof.
  revert m. induction l as [ | [k' v'] l IH]; intros m Hnd Hin; [destruct Hin | ].
  cbn [map fst] in Hnd. apply List.NoDup_cons_iff in Hnd as [Hk' Hnd].
  unfold insert_all in *. cbn [fold_left fst snd].
  destruct Hin as [E | Hin].
  - injection E as -> ->.
    fold (insert_all l (<[k:=v]> m)).
    rewrite layout_insert_all_other by assumption.
    apply lookup_insert_eq.
  - now apply IH.
Qed.

Lemma write_offsets_offsets (l : list (positive * Z)) (st : ObjStore) :
  write_offsets l st =
  {| offsets := insert_all l (offsets st); stack_sizes := stack_sizes st |}.
Proof.
  revert st. induction l as [ | [k v] l IH]; intros st.
  - now destruct st.
  - unfold write_offsets in *. cbn [fold_left]. rewrite IH. reflexivity.
Qed.

Lemma spec_layout_names (vars : list (positive * CType)) (offset : Z) :
  map fst (fst (spec_layout vars offset)) = map fst vars.
Proof.
  revert offset. induction vars as [ | [id ty] rest IH]; intros offset;
    [reflexivity | ].
  cbn [spec_layout]. specialize (IH (align_to offset (Z.max (ty_align ty) 1) + ty_size ty)).
  destruct (spec_layout rest _) as [assigned final]. cbn [fst map] in *.
  now rewrite IH.
Qed.

(** The offsets of a layout of distinct objects, read back from the
    store they were written to. *)
Lemma write_offsets_read_back (vars : list (positive * CType)) (offset : Z)
      (st : ObjStore) :
  List.NoDup (map fst vars) ->
  Forall (fun a => offset_of (write_offsets (fst (spec_layout vars offset)) st)
                             (fst a) = snd a)
         (fst (spec_layout vars offset)).
Proof.
  intros Hnd. apply List.Forall_forall. intros [id o] Hin. cbn [fst snd].
  rewrite write_offsets_offsets. unfold offset_of. cbn [offsets].
  rewrite (layout_insert_all_lookup _ _ id o); [reflexivity | | exact Hin].
  now rewrite spec_layout_names.
Qed.

(** C4. The global-layout pass gives every variable, in declaration
    order, the running offset aligned up to its alignment (1 when the
    alignment is not positive), advances by the size of the variable and
    returns the final offset rounded up to 16: these are the offsets
    read from the objects after the pass.  The module sets [$__sp] to
    [max(65536, align_to(globals_size + 1024, 65536))].
    The variables are distinct objects with types and sizes that are
    not negative, and the stack start fits in an [int]. *)
Theorem global_layout_and_stack_start (prog : list Obj) (w : world) :
  has_types prog ->
  Forall (fun v => 0 <= ty_size (snd v)) (variables prog) ->
  List.NoDup (map fst (variables prog)) ->
  align_to (spec_globals_size prog + 1024) 65536 < 2^31 ->
  (exists st' : ObjStore,
     assign_global_offsets prog (w_objs w) = (Ok (spec_globals_size prog), st') /\
     Forall (fun a => offset_of st' (fst a) = snd a)
            (fst (spec_layout (variables prog) 0)))
  /\ exists rest,
       output_file (st_emitter (w_statics (snd (codegen_wasm prog w)))) =
       module_header (spec_stack_start (spec_globals_size prog)) ++ rest.
Proof.
  intros Hty Hsz Hnd Hfit.
  pose proof (spec_layout_final_ge (variables prog) 0 Hsz) as Hge.
  assert (Hal : snd (spec_layout (variables prog) 0) <= spec_globals_size prog)
    by (apply align_to_ge; lia).
  pose proof (align_to_ge (spec_globals_size prog + 1024) 65536 ltac:(lia)) as Hss.
  assert (Hglob : assign_global_offsets prog (w_objs w) =
                  (Ok (spec_globals_size prog),
                   write_offsets (fst (spec_layout (variables prog) 0)) (w_objs w))).
  { unfold assign_global_offsets, spec_globals_size.
    apply assign_global_offsets_from_spec;
      [now apply has_types_variables | assumption | lia | ].
    fold (spec_globals_size prog). lia. }
  split.
  { eexists. split; [exact Hglob | now apply write_offsets_read_back]. }
  unfold codegen_wasm.
  unfold bind at 1. unfold on_statics at 1. unfold open_output.
  cbn [w_statics w_objs].
  unfold bind at 1. unfold on_objs at 1. cbn [w_objs w_statics].
  rewrite Hglob.
  unfold bind at 1. unfold on_objs at 1. cbn [w_objs w_statics].
  destruct (assign_wasm_offsets_ok prog
              (write_offsets (fst (spec_layout (variables prog) 0)) (w_objs w)) Hty)
    as [st' ->].
  unfold bind at 1. unfold get_objs. cbn [w_objs w_statics].
  unfold on_statics. cbn [w_statics w_objs].
  unfold int_add. rewrite wrap32_in_range by lia.
  rewrite int_align_to_in_range by lia.
  replace (if (align_to (spec_globals_size prog + 1024) 65536 <? 65536)%Z
           then 65536 else align_to (spec_globals_size prog + 1024) 65536)
    with (spec_stack_start (spec_globals_size prog)).
  2:{ unfold spec_stack_start.
      destruct (Z.ltb_spec (align_to (spec_globals_size prog + 1024) 65536) 65536); lia. }
  destruct (emission_starts_with_header st' prog
              (spec_stack_start (spec_globals_size prog))
              (current_fn (w_statics w)) (wasm_label_count (w_statics w)))
    as [rest E].
  exists rest.
  match goal with
  | |- context [let (_, _) := ?g ?s in _] => destruct (g s) as [r s']
  end.
  cbn [snd w_statics] in *. exact E.
Qed.

End LayoutTheorems.


(** ** Two runs of the code generator *)

Section TwoRuns.
Context `{LongDouble}.
#[local] Open Scope cg_scope.

(** *** The layout pass is a sequence of writes fixed by the program *)

Lemma writes_only_ret {A} (a : A) : writes_only (ret a).
Proof. exists (Ok a), []. reflexivity. Qed.

Lemma writes_only_stop {A} (f : failure) : writes_only (@stop _ A f).
Proof. exists (Stop f), []. reflexivity. Qed.

Lemma writes_only_bind {A B} (m : L A) (k : A -> L B) :
  writes_only m -> (forall a, writes_only (k a)) -> writes_only (bind m k).
Proof.
  intros (r & ws & Hm) Hk. destruct r as [a | f].
  - destruct (Hk a) as (r2 & ws2 & Hka).
    exists r2, (ws ++ ws2). intros st. unfold bind.
    rewrite Hm, Hka. unfold apply_writes. now rewrite fold_left_app.
  - exists (Stop f), ws. intros st. unfold bind. now rewrite Hm.
Qed.

Lemma writes_only_store_offset id v : writes_only (store_offset id v).
Proof. exists (Ok tt), [WOffset id v]. reflexivity. Qed.

Lemma writes_only_store_stack_size id v : writes_only (store_stack_size id v).
Proof. exists (Ok tt), [WStackSize id v]. reflexivity. Qed.

Lemma writes_only_assign_local_offsets locals offset :
  writes_only (assign_local_offsets locals offset).
Proof.
  revert offset. induction locals as [ | l rest IH]; intros offset; simpl.
  - apply writes_only_ret.
  - destruct (obj_ty l); [ | apply writes_only_stop].
    apply writes_only_bind; [apply writes_only_store_offset | intros _; apply IH].
Qed.

Lemma writes_only_assign_wasm_offsets prog :
  writes_only (assign_wasm_offsets prog).
Proof.
  induction prog as [ | fn rest IH]; simpl; [apply writes_only_ret | ].
  apply writes_only_bind; [ | intros _; exact IH].
  destruct (negb _); [apply writes_only_ret | ].
  apply writes_only_bind; [apply writes_only_assign_local_offsets | intros a].
  apply writes_only_store_stack_size.
Qed.

Lemma writes_only_assign_global_offsets_from prog offset :
  writes_only (assign_global_offsets_from prog offset).
Proof.
  revert offset. induction prog as [ | o rest IH]; intros offset; simpl.
  - apply writes_only_ret.
  - destruct (obj_is_function o); [apply IH | ].
    destruct (obj_ty o); [ | apply writes_only_stop].
    apply writes_only_bind; [apply writes_only_store_offset | intros _; apply IH].
Qed.

(** *** Writing the same sequence twice *)

Lemma insert_all_union (l : list (positive * Z)) (m : gmap positive Z) :
  insert_all l m = insert_all l ∅ ∪ m.
Proof.
  revert m. induction l as [ | [k v] l IH]; intros m; simpl.
  - now rewrite (left_id_L ∅ (∪)).
  - unfold insert_all in *. simpl.
    rewrite (IH (<[k:=v]> m)), (IH (<[k:=v]> ∅)).
    rewrite <- (assoc_L (∪)). f_equal.
    rewrite <- insert_union_l. now rewrite (left_id_L ∅ (∪)).
Qed.

Lemma insert_all_twice (l : list (positive * Z)) (m : gmap positive Z) :
  insert_all l (insert_all l m) = insert_all l m.
Proof.
  rewrite (insert_all_union l (insert_all l m)), (insert_all_union l m).
  rewrite (assoc_L (∪)). now rewrite (idemp_L (∪)).
Qed.

Lemma apply_writes_fields (ws : list write) (st : ObjStore) :
  apply_writes ws st =
  {| offsets := insert_all (offset_writes ws) (offsets st);
     stack_sizes := insert_all (stack_size_writes ws) (stack_sizes st) |}.
Proof.
  revert st. induction ws as [ | w ws IH]; intros st.
  - destruct st. reflexivity.
  - unfold apply_writes in *. simpl. rewrite IH.
    destruct w; reflexivity.
Qed.

Lemma apply_writes_twice (ws : list write) (st : ObjStore) :
  apply_writes ws (apply_writes ws st) = apply_writes ws st.
Proof.
  rewrite (apply_writes_fields ws (apply_writes ws st)).
  rewrite (apply_writes_fields ws st). simpl.
  now rewrite !insert_all_twice.
Qed.

Lemma writes_only_twice {A} (m : L A) (st : ObjStore) :
  writes_only m -> m (snd (m st)) = m st.
Proof.
  intros (r & ws & Hm). rewrite !Hm. simpl. now rewrite apply_writes_twice.
Qed.

(** *** Emission reads the emitter only *)

Lemma stable_bind {A B} (g : G A) (k : A -> G B) :
  stable g -> (forall a, stable (k a)) -> stable (bind g k).
Proof.
  intros Hg Hk s s' E. unfold bind.
  destruct (Hg s s' E) as (Hr & He & Hc & Hl).
  destruct (g s) as [[a | f] s1], (g s') as [[a' | f'] s1'];
    simpl in *; try discriminate.
  - injection Hr as <-.
    destruct (Hk a s1 s1' He) as (Hr2 & He2 & Hc2 & Hl2).
    repeat split; try assumption.
    + destruct Hc2 as [ | [-> ->]]; [now left | exact Hc].
    + destruct Hl2 as [ | [-> ->]]; [now left | exact Hl].
  - injection Hr as <-.
    split; [reflexivity | split; [exact He | split; [exact Hc | exact Hl]]].
Qed.

Lemma stable_lift {A} (m : M A) : stable (lift m).
Proof.
  intros s s' E. unfold lift. rewrite E.
  destruct (m (st_emitter s')) as [r e]. simpl.
  repeat split; right; split; reflexivity.
Qed.

Lemma stable_skip : stable skip.
Proof.
  intros s s' E. simpl. repeat split; try assumption; right; split; reflexivity.
Qed.

Lemma stable_emit_function st fn : stable (emit_function st fn).
Proof.
  unfold emit_function.
  apply stable_bind; [ | intros _; apply stable_bind; [ | intros _; apply stable_lift]].
  - intros s s' E. simpl. repeat split; try assumption;
      [now left | right; split; reflexivity].
  - intros s s' E. simpl. repeat split; try assumption;
      [right; split; reflexivity | now left].
Qed.

Lemma stable_emit_functions st prog : stable (emit_functions st prog).
Proof.
  induction prog as [ | fn rest IH]; simpl; [apply stable_skip | ].
  apply stable_bind; [ | intros _; exact IH].
  destruct (_ || _); [apply stable_skip | ].
  destruct (negb _); [apply stable_skip | apply stable_emit_function].
Qed.

Lemma codegen_wasm_phases (prog : list Obj) (w : world) :
  codegen_wasm prog w =
  let s0 := snd (open_output (w_statics w)) in
  match layout prog (w_objs w) with
  | (Ok data_size, st) =>
    (fst (emission prog data_size st s0),
     {| w_statics := snd (emission prog data_size st s0); w_objs := st |})
  | (Stop f, st) => (Stop f, {| w_statics := s0; w_objs := st |})
  end.
Proof.
  unfold codegen_wasm, layout.
  unfold bind at 1. unfold on_statics at 1. unfold open_output.
  cbn [w_statics w_objs fst snd].
  unfold bind at 1. unfold on_objs at 1. cbn [w_objs w_statics].
  change (bind (assign_global_offsets prog)
               (fun data_size => assign_wasm_offsets prog ;; ret data_size)
               (w_objs w))
    with (match assign_global_offsets prog (w_objs w) with
          | (Ok a, s') => (assign_wasm_offsets prog ;; ret a) s'
          | (Stop f, s') => (Stop f, s')
          end).
  destruct (assign_global_offsets prog (w_objs w)) as [[ds | f] st1];
    [ | reflexivity].
  unfold bind at 1. unfold on_objs at 1. cbn [w_objs w_statics].
  change ((assign_wasm_offsets prog ;; ret ds) st1)
    with (match assign_wasm_offsets prog st1 with
          | (Ok _, s') => (Ok ds, s')
          | (Stop f, s') => (Stop f, s')
          end).
  destruct (assign_wasm_offsets prog st1) as [[[] | f] st2]; [ | reflexivity].
  unfold bind at 1. unfold get_objs. cbn [w_objs w_statics].
  unfold on_statics. cbn [w_objs w_statics ret].
  fold (emission prog ds st2).
  destruct (emission prog ds st2 _) as [r s'].
  reflexivity.
Qed.

Lemma writes_only_layout prog : writes_only (layout prog).
Proof.
  unfold layout, assign_global_offsets.
  apply writes_only_bind;
    [apply writes_only_assign_global_offsets_from | intros ds].
  apply writes_only_bind; [apply writes_only_assign_wasm_offsets | intros _].
  apply writes_only_ret.
Qed.

Lemma stable_emission prog ds st : stable (emission prog ds st).
Proof.
  unfold emission. cbv zeta.
  apply stable_bind; [apply stable_lift | intros _].
  apply stable_bind; [apply stable_emit_functions | intros _].
  apply stable_lift.
Qed.

(** C8. A second run of [codegen_wasm] on the program graph the first
    run left behind ends the same way, writes the same bytes, and
    leaves the statics and the graph as the first run left them. *)
Theorem codegen_wasm_twice (prog : list Obj) (w : world) :
  codegen_wasm prog (snd (codegen_wasm prog w)) = codegen_wasm prog w
  /\ output_of (snd (codegen_wasm prog (snd (codegen_wasm prog w)))) =
     output_of (snd (codegen_wasm prog w)).
Proof.
  enough (E : codegen_wasm prog (snd (codegen_wasm prog w)) = codegen_wasm prog w)
    by (split; [exact E | now rewrite E]).
  rewrite (codegen_wasm_phases prog w).
  pose proof (writes_only_twice (layout prog) (w_objs w) (writes_only_layout prog))
    as Htwice.
  destruct (layout prog (w_objs w)) as [[ds | f] st] eqn:Hlay; cbn [snd] in *.
  - rewrite codegen_wasm_phases. cbn [w_objs w_statics]. rewrite Htwice.
    set (s0 := snd (open_output (w_statics w))).
    set (s1 := snd (emission prog ds st s0)).
    set (s0' := snd (open_output s1)).
    destruct (stable_emission prog ds st s0 s0' eq_refl) as (Hr & He & Hc & Hl).
    fold s1 in He, Hc, Hl.
    assert (Hs : snd (emission prog ds st s0') = s1).
    { destruct (snd (emission prog ds st s0')) as [e' c' l'] eqn:E'.
      destruct s1 as [e1 c1 l1] eqn:E1. simpl in *.
      f_equal; [congruence | | ].
      - destruct Hc as [ | [_ ->]]; congruence.
      - destruct Hl as [ | [_ ->]]; congruence. }
    rewrite Hs, <- Hr. reflexivity.
  - rewrite codegen_wasm_phases. cbn [w_objs w_statics]. rewrite Htwice.
    reflexivity.
Qed.

End TwoRuns.


(** ** Stack discipline *)

Section ValidatesRules.
Context `{LongDouble}.
Variable ctx : vctx.
#[local] Open Scope cg_scope.

Lemma validate_app (a b : list item) (v : vstate) :
  validate ctx (a ++ b) v =
  match validate ctx a v with
  | Some v' => validate ctx b v'
  | None => None
  end.
Proof.
  revert v. induction a as [ | i a IH]; intros v; simpl; [reflexivity | ].
  destruct (step ctx i v); [apply IH | reflexivity].
Qed.

Lemma validates_ret {A} (a : A) (v : vstate) : validates ctx (ret a) 0 v v.
Proof.
  intros s. exists a, []. split; [ | reflexivity].
  unfold ret. destruct s. simpl. now rewrite app_nil_r, Z.add_0_r.
Qed.

Lemma validates_skip (v : vstate) : validates ctx skip 0 v v.
Proof. apply validates_ret. Qed.

Lemma validates_bind {A B} (m : M A) (k : A -> M B) (d1 d2 : Z)
      (pre mid post : vstate) :
  validates ctx m d1 pre mid ->
  (forall a, validates ctx (k a) d2 mid post) ->
  validates ctx (bind m k) (d1 + d2) pre post.
Proof.
  intros Hm Hk s. unfold bind.
  destruct (Hm s) as (a & l1 & -> & V1).
  destruct (Hk a {| output_file := output_file s ++ l1;
                    indent_level := indent_level s + d1 |})
    as (b & l2 & -> & V2).
  exists b, (l1 ++ l2). simpl. split.
  - now rewrite app_assoc, Z.add_assoc.
  - now rewrite validate_app, V1.
Qed.

Lemma validates_depth {A} (m : M A) (d d' : Z) (pre post : vstate) :
  validates ctx m d pre post -> d = d' -> validates ctx m d' pre post.
Proof. now intros Hm <-. Qed.

Lemma validates_eq {A} (m : M A) (d d' : Z) (pre post post' : vstate) :
  validates ctx m d pre post -> d = d' -> post = post' ->
  validates ctx m d' pre post'.
Proof. now intros Hm <- <-. Qed.

Lemma validates_println (fmt : string) (args : list arg) (i : winstr)
      (pre post : vstate) :
  parse_line fmt args = Some i ->
  exec ctx i pre = Some post ->
  validates ctx (println fmt args) 0 pre post.
Proof.
  intros Hp He s. exists tt, [Line (indent_level s) fmt args]. split.
  - unfold println. now rewrite Z.add_0_r.
  - simpl. now rewrite Hp, He.
Qed.

Lemma validates_indent (v : vstate) : validates ctx indent 1 v v.
Proof.
  intros s. exists tt, []. split; [ | reflexivity].
  unfold indent. now rewrite app_nil_r.
Qed.

Lemma validates_dedent (v : vstate) : validates ctx dedent (-1) v v.
Proof.
  intros s. exists tt, []. split; [ | reflexivity].
  unfold dedent. rewrite app_nil_r. f_equal.
Qed.

Lemma validates_opt {A} (f : A -> M unit) (o : option A) (a : A)
      (d : Z) (pre post : vstate) :
  o = Some a -> validates ctx (f a) d pre post ->
  validates ctx (opt f o) d pre post.
Proof. now intros ->. Qed.

Lemma validates_must {A} (f : A -> M unit) (o : option A) (a : A)
      (d : Z) (pre post : vstate) :
  o = Some a -> validates ctx (f a) d pre post ->
  validates ctx (must f o) d pre post.
Proof. now intros ->. Qed.

Lemma validates_opt_none {A} (f : A -> M unit) (v : vstate) :
  validates ctx (opt f None) 0 v v.
Proof. apply validates_skip. Qed.

End ValidatesRules.

(** One printed line: its instruction is read off the tables, and run. *)
Ltac line :=
  eapply validates_println; [reflexivity | reflexivity].

(** A sequence of lines, indentation changes and known computations. *)
Ltac lines :=
  repeat first
    [ eapply validates_bind; [ | intros _ ]
    | line
    | apply validates_indent
    | apply validates_dedent
    | apply validates_skip
    | eassumption ].

(** The same when the lines are more than one: the depths add up. *)
Ltac block := eapply validates_depth; [lines | reflexivity].

(** Lines and generators whose effect is a hypothesis for every stack. *)
Ltac known :=
  match goal with
  | V : forall stack frames, validates _ ?m _ _ _ |- validates _ ?m _ _ _ =>
    apply V
  end.

Ltac flow :=
  cbn [opt must];
  eapply validates_depth;
  [ repeat first
      [ eapply validates_bind; [ | intros _ ]
      | line
      | known
      | apply validates_indent
      | apply validates_dedent
      | apply validates_skip ]
  | reflexivity ].

Ltac split_typed :=
  repeat match goal with
         | H : _ && _ = true |- _ => apply andb_prop in H; destruct H
         | H : negb _ = true |- _ => apply negb_true_iff in H
         end.

Section Pieces.
Context `{LongDouble}.
Variable ctx : vctx.
#[local] Open Scope cg_scope.

Lemma result_eqb_eq (a b : option valtype) : result_eqb a b = true -> a = b.
Proof. destruct a as [[]|], b as [[]|]; simpl; congruence. Qed.

Lemma valtype_eqb_eq (a b : valtype) : valtype_eqb a b = true -> a = b.
Proof. destruct a, b; simpl; congruence. Qed.

Lemma stack_eqb_eq (a b : list valtype) : stack_eqb a b = true -> a = b.
Proof.
  revert b. induction a as [ | x a IH]; intros [ | y b]; simpl; try congruence.
  intros E. apply andb_prop in E as [E1 E2].
  apply valtype_eqb_eq in E1. apply IH in E2. congruence.
Qed.

Lemma has_result_eq (n : Node) (t : valtype) :
  has_result n t = true -> node_result n = Some t.
Proof. apply result_eqb_eq. Qed.

Lemma has_value_eq (n : Node) :
  has_value n = true -> node_result n = Some (value_type (nd_ty n)).
Proof.
  unfold has_value, node_result. destruct (is_void (nd_ty n)); congruence.
Qed.

Lemma wasm_type_name (ty : option CType) :
  wasm_type ty = valtype_name (value_type ty).
Proof.
  unfold wasm_type, value_type, is_wasm_f32, is_wasm_f64, is_wasm_i64.
  destruct ty as [t | ]; [ | reflexivity].
  destruct (ty_kind t); try reflexivity.
  simpl. destruct (ty_size t =? 8)%Z; reflexivity.
Qed.

Lemma valtype_of_name_name (t : valtype) :
  valtype_of_name (valtype_name t) = Some t.
Proof. destruct t; reflexivity. Qed.

Lemma value_type_not_float (ty : option CType) :
  is_wasm_float ty = false -> is_wasm_i64 ty = false -> value_type ty = I32.
Proof.
  unfold is_wasm_float, value_type. intros Hf ->.
  apply orb_false_elim in Hf as [-> ->]. reflexivity.
Qed.

Lemma wasm_load_validates (ty : option CType) (stack : list valtype) frames :
  load_ok ty = true ->
  validates ctx (wasm_load ty) 0
            (VS (I32 :: stack) frames) (VS (value_type ty :: stack) frames).
Proof.
  unfold load_ok, is_void, is_kind, value_type, wasm_load, wasm_size,
    is_wasm_f32, is_wasm_f64, is_wasm_i64.
  destruct ty as [t | ]; [ | intros _; apply validates_skip].
  destruct (ty_kind t); simpl; intros Hok; try discriminate;
    repeat match goal with
           | |- context [if ?b then _ else _] => destruct b eqn:?
           end; try discriminate; try apply validates_skip; line.
Qed.

Lemma wasm_store_validates (ty : option CType) (stack : list valtype) frames :
  store_ok ty = true ->
  validates ctx (wasm_store ty) 0
            (VS (value_type ty :: I32 :: stack) frames) (VS stack frames).
Proof.
  unfold store_ok, load_ok, is_void, is_kind, value_type, wasm_store, wasm_size,
    is_wasm_f32, is_wasm_f64, is_wasm_i64.
  destruct ty as [t | ]; [ | discriminate].
  destruct (ty_kind t); simpl; intros Hok; try discriminate;
    repeat match goal with
           | |- context [if ?b then _ else _] => destruct b eqn:?
           end; try discriminate; first [line | block].
Qed.

Lemma is_float_value_type (ty : option CType) :
  is_wasm_float ty = true -> value_type ty = F32 \/ value_type ty = F64.
Proof.
  unfold is_wasm_float, value_type.
  destruct (is_wasm_f32 ty); [now left | ].
  destruct (is_wasm_f64 ty); [now right | discriminate].
Qed.

Lemma gen_cast_validates (from to : option CType) (tin tout : valtype)
      (stack : list valtype) frames :
  cast_out from to tin = Some tout ->
  validates ctx (gen_cast from to) 0
            (VS (tin :: stack) frames) (VS (tout :: stack) frames).
Proof.
  unfold cast_out, gen_cast.
  destruct from as [f | ], to as [t | ];
    try (intros [= <-]; apply validates_skip).
  repeat match goal with
         | |- context [if ?b then _ else _] => destruct b eqn:?
         end;
    destruct tin; simpl; intros E; try discriminate;
    injection E as <-; try apply validates_skip; first [line | block].
Qed.

End Pieces.

Section Discipline.
Context `{LongDouble}.
Variable ctx : vctx.
Variable st : ObjStore.
#[local] Open Scope cg_scope.

Lemma typed_expr_unfold (n : Node) :
  typed_expr ctx n =
  typed_expr_body ctx (typed_expr ctx) (typed_stmt ctx) n.
Proof. destruct n; reflexivity. Qed.

Lemma typed_stmt_unfold (n : Node) :
  typed_stmt ctx n =
  typed_stmt_body ctx (typed_expr ctx) (typed_stmt ctx) n.
Proof. destruct n; reflexivity. Qed.

Lemma typed_addr_unfold (n : Node) :
  typed_addr ctx n =
  match nd_kind n with
  | ND_VAR => match nd_var n with Some _ => true | None => false end
  | ND_DEREF =>
    match nd_lhs n with
    | Some l => typed_expr ctx l && has_result l I32
    | None => false
    end
  | ND_COMMA =>
    match nd_lhs n, nd_rhs n with
    | Some l, Some r => typed_expr ctx l && has_value l && typed_addr ctx r
    | _, _ => false
    end
  | ND_MEMBER =>
    match nd_lhs n, nd_member n with
    | Some l, Some _ => typed_addr ctx l
    | _, _ => false
    end
  | _ => false
  end.
Proof. destruct n; reflexivity. Qed.

(** A value of a known type on the stack. *)
Lemma expr_ok_value (n : Node) (t : valtype) :
  expr_ok ctx st n -> typed_expr ctx n = true -> node_result n = Some t ->
  forall stack frames,
    validates ctx (gen_expr st n) 0 (VS stack frames) (VS (t :: stack) frames).
Proof.
  intros Hn Ht Hr stack frames. specialize (Hn Ht stack frames).
  now rewrite Hr in Hn.
Qed.

Lemma addr_step (n : Node) :
  Forall (node_ok ctx st) (children n) -> addr_ok ctx st n.
Proof.
  intros IH Ht stack frames.
  apply children_fields in IH as (Hl & Hr & _).
  rewrite typed_addr_unfold in Ht. rewrite gen_addr_unfold.
  destruct (nd_kind n); try discriminate.
  - (* ND_COMMA *)
    destruct (nd_lhs n) as [l | ] eqn:El; [ | discriminate].
    destruct (nd_rhs n) as [r | ] eqn:Er; [ | discriminate].
    split_typed.
    destruct (Hl l eq_refl) as (Hle & _). destruct (Hr r eq_refl) as (_ & _ & Hra).
    assert (Vl : forall stack frames,
               validates ctx (gen_expr st l) 0 (VS stack frames)
                         (VS (value_type (nd_ty l) :: stack) frames))
      by (apply (expr_ok_value l _ Hle); [assumption | now apply has_value_eq]).
    assert (Va := Hra ltac:(assumption)).
    cbn [opt must].
    eapply validates_depth;
      [eapply validates_bind; [apply Vl | intros _];
       eapply validates_bind; [line | intros _]; apply Va
      | reflexivity].
  - (* ND_MEMBER *)
    destruct (nd_lhs n) as [l | ] eqn:El; [ | discriminate].
    destruct (nd_member n) as [m | ] eqn:Em; [ | discriminate].
    destruct (Hl l eq_refl) as (_ & _ & Hla). specialize (Hla Ht).
    cbn [opt must].
    eapply validates_depth;
      [eapply validates_bind; [apply Hla | intros _]; lines | reflexivity].
  - (* ND_DEREF *)
    destruct (nd_lhs n) as [l | ] eqn:El; [ | discriminate].
    split_typed.
    destruct (Hl l eq_refl) as (Hle & _).
    cbn [opt]. apply (expr_ok_value l I32 Hle); [assumption | ].
    now apply has_result_eq.
  - (* ND_VAR *)
    destruct (nd_var n) as [v | ]; [ | discriminate].
    destruct (ref_is_local v); line.
Qed.

(** The value of a child that is there, on every stack. *)
Ltac child_value field c t V :=
  assert (V : forall stack frames,
             validates ctx (gen_expr st c) 0 (VS stack frames)
                       (VS (t :: stack) frames))
    by (apply (expr_ok_value c t (proj1 (field c eq_refl)));
        [assumption
        | first [now apply has_result_eq | now apply has_value_eq
                | assumption]]).

Lemma gen_binary_validates (n : Node) :
  Forall (node_ok ctx st) (children n) ->
  typed_binary (typed_expr ctx) n = true ->
  forall stack frames,
    validates ctx (gen_binary (gen_expr st) n) 0
              (VS stack frames) (VS (results (node_result n) ++ stack) frames).
Proof.
  intros IH Ht stack frames.
  apply children_fields in IH as (Hl & Hr & _).
  unfold typed_binary, typed_operands in Ht. unfold gen_binary.
  destruct (nd_lhs n) as [l | ] eqn:El;
    [ | destruct (nd_kind n); try discriminate; split_typed; discriminate].
  destruct (nd_rhs n) as [r | ] eqn:Er;
    [ | destruct (nd_kind n); try discriminate; split_typed; discriminate].
  cbv zeta.
  destruct (is_wasm_float (nd_ty n)) eqn:Hf.
  - destruct (is_float_value_type _ Hf) as [Hv | Hv];
      rewrite wasm_type_name, Hv in *;
      destruct (nd_kind n); try discriminate; split_typed; try discriminate;
      match goal with Hn : has_result n _ = true |- _ =>
        rewrite (has_result_eq _ _ Hn) end;
      [ child_value Hl l F32 Vl; child_value Hr r F32 Vr
      | child_value Hl l F32 Vl; child_value Hr r F32 Vr
      | child_value Hl l F32 Vl; child_value Hr r F32 Vr
      | child_value Hl l F32 Vl; child_value Hr r F32 Vr
      | child_value Hl l F64 Vl; child_value Hr r F64 Vr
      | child_value Hl l F64 Vl; child_value Hr r F64 Vr
      | child_value Hl l F64 Vl; child_value Hr r F64 Vr
      | child_value Hl l F64 Vl; child_value Hr r F64 Vr ];
      flow.
  - destruct (nd_kind n); try discriminate; split_typed; try discriminate;
      match goal with Hn : has_result n _ = true |- _ =>
        rewrite (has_result_eq _ _ Hn) end;
      child_value Hl l I32 Vl; child_value Hr r I32 Vr;
      destruct (type_is_unsigned (nd_ty l)); flow.
Qed.

Lemma pop_app (ts stack : list valtype) : pop ts (ts ++ stack) = Some stack.
Proof.
  induction ts as [ | t ts IH]; simpl; [reflexivity | ].
  destruct t; simpl; exact IH.
Qed.

Lemma args_validate (args : list Node) (ts : list valtype) :
  Forall (expr_ok ctx st) args ->
  forallb (typed_expr ctx) args = true ->
  arg_types args = Some ts ->
  forall stack frames,
    validates ctx (for_each (gen_expr st) args) 0
              (VS stack frames) (VS (rev ts ++ stack) frames).
Proof.
  intros Hargs. revert ts.
  induction Hargs as [ | a rest Ha Hrest IH]; intros ts Ht Hts stack frames.
  - injection Hts as <-. apply validates_skip.
  - simpl in Ht, Hts. apply andb_prop in Ht as [Hta Htr].
    destruct (node_result a) as [t | ] eqn:Hra; [ | discriminate].
    destruct (arg_types rest) as [ts' | ]; [ | discriminate].
    injection Hts as <-.
    pose proof (Ha Hta stack frames) as Va. rewrite Hra in Va.
    pose proof (IH ts' Htr eq_refl (t :: stack) frames) as Vr.
    cbn [for_each rev].
    rewrite <- app_assoc. cbn [app].
    eapply validates_depth;
      [eapply validates_bind; [exact Va | intros _; exact Vr] | reflexivity].
Qed.

Lemma stmt_expr_validate (node : Node) (body : list Node) :
  Forall (node_ok ctx st) body ->
  Forall (fun c => Forall (node_ok ctx st) (children c)) body ->
  typed_stmt_expr_body (typed_expr ctx) (typed_stmt ctx) node body = true ->
  forall stack frames,
    validates ctx (gen_stmt_expr_body (gen_expr st) (gen_stmt st) body) 0
              (VS stack frames)
              (VS (results (node_result node) ++ stack) frames).
Proof.
  intros Hb. induction Hb as [ | c rest Hc Hrest IH];
    intros Hg Ht stack frames.
  - cbn in Ht. apply result_eqb_eq in Ht. rewrite Ht. apply validates_skip.
  - inversion Hg as [ | c' rest' Hgc Hgrest]; subst.
    cbn [typed_stmt_expr_body gen_stmt_expr_body] in *.
    destruct Hc as (Hce & Hcs & _).
    destruct rest as [ | c2 rest2].
    + match goal with
      | |- validates _ (bind ?m _) _ _ _ =>
        assert (Vlast : validates ctx m 0 (VS stack frames)
                          (VS (results (node_result node) ++ stack) frames))
      end.
      { apply children_fields in Hgc as (Hl & _).
        destruct (nd_kind c);
          try (split_typed;
               match goal with Hn : has_result node _ = true |- _ =>
                 rewrite (has_result_eq _ _ Hn) end;
               assert (Vc := Hcs ltac:(assumption)); flow).
        destruct (nd_lhs c) as [e | ] eqn:Ee.
        - split_typed.
          match goal with Hn : result_eqb _ _ = true |- _ =>
            apply result_eqb_eq in Hn; rewrite <- Hn end.
          cbn [opt]. apply (proj1 (Hl e eq_refl)). assumption.
        - apply result_eqb_eq in Ht. rewrite Ht. apply validates_skip. }
      eapply validates_depth;
        [eapply validates_bind; [exact Vlast | intros _; apply validates_skip]
        | reflexivity].
    + apply andb_prop in Ht as [Htc Htr].
      assert (Vc := Hcs Htc).
      assert (Vr := IH Hgrest Htr).
      eapply validates_depth;
        [eapply validates_bind; [apply Vc | intros _; apply Vr] | reflexivity].
Qed.

Lemma repeat_shift {A} (x : A) (k : nat) (l : list A) :
  repeat x k ++ x :: l = x :: repeat x k ++ l.
Proof. induction k as [ | k IH]; simpl; [reflexivity | now rewrite IH]. Qed.

Lemma open_cases_validate (cases : list Z) (frames : list (frame_kind * list valtype)) :
  validates ctx
    (for_each (fun begin =>
                 println "(local.get $__tmp_i32)" [] ;;
                 println "(i32.const %ld)" [Int begin] ;;
                 println "(i32.eq)" [] ;;
                 println "(if (then" [] ;;
                 indent) cases)
    (Z.of_nat (length cases))
    (VS [] frames)
    (VS [] (repeat (InThenOnly, []) (length cases) ++ frames)).
Proof.
  revert frames. induction cases as [ | b rest IH]; intros frames.
  - apply validates_skip.
  - cbn [for_each].
    eapply validates_eq.
    + eapply validates_bind; [ | intros _; apply IH].
      eapply validates_depth;
        [ eapply validates_bind; [line | intros _];
          eapply validates_bind; [line | intros _];
          eapply validates_bind; [line | intros _];
          eapply validates_bind; [line | intros _];
          apply validates_indent
        | reflexivity ].
    + cbn [length]. lia.
    + cbn [length repeat app]. f_equal. apply repeat_shift.
Qed.

Lemma close_cases_validate (cases : list Z) (frames : list (frame_kind * list valtype)) :
  validates ctx
    (for_each (fun _ : Z => dedent ;; println "))" []) cases)
    (- Z.of_nat (length cases))
    (VS [] (repeat (InThenOnly, []) (length cases) ++ frames))
    (VS [] frames).
Proof.
  induction cases as [ | b rest IH].
  - apply validates_skip.
  - cbn [for_each length repeat app].
    eapply validates_depth.
    + eapply validates_bind; [ | intros _; apply IH].
      eapply validates_depth;
        [ eapply validates_bind; [apply validates_dedent | intros _]; line
        | reflexivity ].
    + lia.
Qed.

Lemma load_ok_result (n : Node) :
  load_ok (nd_ty n) = true -> node_result n = Some (value_type (nd_ty n)).
Proof.
  unfold load_ok, node_result. intros Hok. split_typed.
  now match goal with Hv : is_void _ = false |- _ => rewrite Hv end.
Qed.

Lemma store_ok_load_ok (ty : option CType) :
  store_ok ty = true -> load_ok ty = true.
Proof. unfold store_ok. now destruct ty. Qed.

Lemma load_ok_not_i64 (ty : option CType) :
  load_ok ty = true -> is_wasm_i64 ty = false.
Proof. unfold load_ok. intros Hok. now split_typed. Qed.

Lemma expr_step (n : Node) :
  Forall (node_ok ctx st) (children n) ->
  Forall (fun c => Forall (node_ok ctx st) (children c)) (children n) ->
  addr_ok ctx st n ->
  expr_ok ctx st n.
Proof.
  intros IH IH2 Ha Ht stack frames.
  rewrite typed_expr_unfold in Ht. unfold typed_expr_body in Ht.
  change (typed_addr_body (typed_expr ctx)) with (typed_addr ctx) in Ht.
  rewrite gen_expr_unfold. unfold gen_expr_body.
  change (gen_addr_body st (gen_expr st)) with (gen_addr st).
  pose proof IH as IHf.
  apply children_fields in IHf as (Hl & Hr & Hc & Hth & He & Hi & Hn & Hb & Hargs).
  apply children_fields in IH2 as (_ & _ & _ & _ & _ & _ & _ & Gb & _).
  destruct (nd_kind n) eqn:K;
    try (apply gen_binary_validates; assumption);
    try (unfold typed_binary in Ht; rewrite K in Ht; discriminate).
  - (* ND_NULL_EXPR *)
    rewrite (has_result_eq _ _ Ht). line.
  - (* ND_NEG *)
    destruct (nd_lhs n) as [l | ] eqn:El; [ | discriminate].
    split_typed.
    match goal with Hv : has_value n = true |- _ =>
      rewrite (has_value_eq _ Hv) end.
    destruct (is_wasm_f32 (nd_ty n)) eqn:F1;
      [ | destruct (is_wasm_f64 (nd_ty n)) eqn:F2].
    + assert (Hv : value_type (nd_ty n) = F32)
        by (unfold value_type; now rewrite F1).
      rewrite Hv in *. child_value Hl l F32 Vl. flow.
    + assert (Hv : value_type (nd_ty n) = F64)
        by (unfold value_type; now rewrite F1, F2).
      rewrite Hv in *. child_value Hl l F64 Vl. flow.
    + assert (Hv : value_type (nd_ty n) = I32).
      { unfold value_type. rewrite F1, F2.
        now match goal with Hi : is_wasm_i64 _ = false |- _ => rewrite Hi end. }
      rewrite Hv in *. child_value Hl l I32 Vl. flow.
  - (* ND_ASSIGN *)
    destruct (nd_lhs n) as [l | ] eqn:El; [ | discriminate].
    destruct (nd_rhs n) as [r | ] eqn:Er; [ | discriminate].
    split_typed.
    match goal with Hs : store_ok _ = true |- _ =>
      pose proof (store_ok_load_ok _ Hs) as Hload;
      pose proof (fun stack frames =>
                    wasm_store_validates ctx _ stack frames Hs) as Vs
    end.
    rewrite (load_ok_result _ Hload).
    assert (Vaddr := proj2 (proj2 (Hl l eq_refl)) ltac:(assumption)).
    destruct (is_wasm_float (nd_ty n)) eqn:Hf.
    + rewrite wasm_type_name.
      destruct (is_float_value_type _ Hf) as [Hv | Hv]; rewrite Hv in *.
      * child_value Hr r F32 Vr. flow.
      * child_value Hr r F64 Vr. flow.
    + rewrite (value_type_not_float _ Hf (load_ok_not_i64 _ Hload)) in *.
      child_value Hr r I32 Vr. flow.
  - (* ND_COND *)
    destruct (nd_cond n) as [c | ] eqn:Ec; [ | discriminate].
    destruct (nd_then n) as [t | ] eqn:Et; [ | discriminate].
    destruct (nd_els n) as [e | ] eqn:Ee; split_typed;
      match goal with Hv : has_value n = true |- _ =>
        rewrite (has_value_eq _ Hv) end;
      rewrite wasm_type_name;
      child_value Hc c I32 Vc;
      destruct (value_type (nd_ty n)) eqn:Hv.
    all: try (child_value Hth t I32 Vt).
    all: try (child_value Hth t I64 Vt).
    all: try (child_value Hth t F32 Vt).
    all: try (child_value Hth t F64 Vt).
    all: try (child_value He e I32 Ve).
    all: try (child_value He e I64 Ve).
    all: try (child_value He e F32 Ve).
    all: try (child_value He e F64 Ve).
    all: flow.
  - (* ND_COMMA *)
    destruct (nd_lhs n) as [l | ] eqn:El; [ | discriminate].
    destruct (nd_rhs n) as [r | ] eqn:Er; [ | discriminate].
    split_typed.
    child_value Hl l (value_type (nd_ty l)) Vl.
    assert (Vr : forall stack frames,
               validates ctx (gen_expr st r) 0 (VS stack frames)
                         (VS (results (node_result n) ++ stack) frames)).
    { match goal with Hq : result_eqb _ _ = true |- _ =>
        apply result_eqb_eq in Hq; rewrite <- Hq end.
      apply (proj1 (Hr r eq_refl)). assumption. }
    flow.
  - (* ND_MEMBER *)
    split_typed.
    match goal with Hk : load_ok _ = true |- _ =>
      rewrite (load_ok_result _ Hk);
      pose proof (fun stack frames =>
                    wasm_load_validates ctx _ stack frames Hk) as Vload
    end.
    assert (Vaddr := Ha ltac:(assumption)). flow.
  - (* ND_ADDR *)
    destruct (nd_lhs n) as [l | ] eqn:El; [ | discriminate].
    split_typed.
    match goal with Hq : has_result n _ = true |- _ =>
      rewrite (has_result_eq _ _ Hq) end.
    cbn [must]. apply (proj2 (proj2 (Hl l eq_refl))). assumption.
  - (* ND_DEREF *)
    destruct (nd_lhs n) as [l | ] eqn:El; [ | discriminate].
    split_typed.
    match goal with Hk : load_ok _ = true |- _ =>
      rewrite (load_ok_result _ Hk);
      pose proof (fun stack frames =>
                    wasm_load_validates ctx _ stack frames Hk) as Vload
    end.
    child_value Hl l I32 Vl. flow.
  - (* ND_NOT *)
    destruct (nd_lhs n) as [l | ] eqn:El; [ | discriminate].
    split_typed.
    match goal with Hq : has_result n _ = true |- _ =>
      rewrite (has_result_eq _ _ Hq) end.
    child_value Hl l I32 Vl. flow.
  - (* ND_BITNOT *)
    destruct (nd_lhs n) as [l | ] eqn:El; [ | discriminate].
    split_typed.
    match goal with Hq : has_result n _ = true |- _ =>
      rewrite (has_result_eq _ _ Hq) end.
    child_value Hl l I32 Vl. flow.
  - (* ND_LOGAND *)
    unfold typed_operands in Ht.
    destruct (nd_lhs n) as [l | ] eqn:El; [ | discriminate].
    destruct (nd_rhs n) as [r | ] eqn:Er; [ | discriminate].
    split_typed.
    match goal with Hq : has_result n _ = true |- _ =>
      rewrite (has_result_eq _ _ Hq) end.
    child_value Hl l I32 Vl. child_value Hr r I32 Vr. flow.
  - (* ND_LOGOR *)
    unfold typed_operands in Ht.
    destruct (nd_lhs n) as [l | ] eqn:El; [ | discriminate].
    destruct (nd_rhs n) as [r | ] eqn:Er; [ | discriminate].
    split_typed.
    match goal with Hq : has_result n _ = true |- _ =>
      rewrite (has_result_eq _ _ Hq) end.
    child_value Hl l I32 Vl. child_value Hr r I32 Vr. flow.
  - (* ND_FUNCALL *)
    apply andb_prop in Ht as [Hta Htc].
    destruct (nd_lhs n) as [callee | ] eqn:El; [ | discriminate].
    destruct (nd_kind callee) eqn:Kc; try discriminate.
    destruct (nd_var callee) as [var | ]; [ | discriminate].
    destruct (arg_types (nd_args n)) as [ts | ] eqn:Hts; [ | discriminate].
    destruct (functions ctx (ref_name var)) as [[params r] | ] eqn:Hfn;
      [ | discriminate].
    unfold signature_eqb in Htc. cbn [fst snd] in Htc.
    apply andb_prop in Htc as [Hp Hres].
    apply stack_eqb_eq in Hp. apply result_eqb_eq in Hres. subst params r.
    assert (Vargs : forall stack frames,
               validates ctx (for_each (gen_expr st) (nd_args n)) 0
                         (VS stack frames) (VS (rev ts ++ stack) frames)).
    { apply args_validate; [ | assumption | assumption].
      eapply List.Forall_impl; [ | exact Hargs]. intros a Hna. apply Hna. }
    eapply validates_depth;
      [ eapply validates_bind; [apply Vargs | intros _];
        eapply validates_println; [reflexivity | ];
        cbn [exec]; rewrite Hfn, pop_app; reflexivity
      | reflexivity ].
  - (* ND_STMT_EXPR *)
    now apply stmt_expr_validate.
  - (* ND_VAR *)
    split_typed.
    match goal with Hk : load_ok _ = true |- _ =>
      rewrite (load_ok_result _ Hk);
      pose proof (fun stack frames =>
                    wasm_load_validates ctx _ stack frames Hk) as Vload
    end.
    assert (Vaddr := Ha ltac:(assumption)). flow.
  - (* ND_NUM *)
    rewrite (has_value_eq _ Ht). unfold value_type.
    destruct (is_wasm_f32 (nd_ty n)); [line | ].
    destruct (is_wasm_f64 (nd_ty n)); [line | ].
    destruct (is_wasm_i64 (nd_ty n)); line.
  - (* ND_CAST *)
    destruct (nd_lhs n) as [l | ] eqn:El; [ | discriminate].
    apply andb_prop in Ht as [Htl Htc].
    destruct (node_result l) as [tin | ] eqn:Hrl; [ | discriminate].
    destruct (cast_out (nd_ty l) (nd_ty n) tin) as [tout | ] eqn:Hco;
      [ | discriminate].
    rewrite (has_result_eq _ _ Htc).
    child_value Hl l tin Vl.
    pose proof (fun stack frames =>
                  gen_cast_validates ctx _ _ _ _ stack frames Hco) as Vc.
    flow.
Qed.

(** A child statement that is there keeps every stack. *)
Ltac child_stmt field c V :=
  assert (V : forall stack frames,
             validates ctx (gen_stmt st c) 0 (VS stack frames)
                       (VS stack frames))
    by (apply (proj1 (proj2 (field c eq_refl))); assumption).

Lemma block_validate (body : list Node) :
  Forall (node_ok ctx st) body ->
  forallb (typed_stmt ctx) body = true ->
  forall stack frames,
    validates ctx (for_each (gen_stmt st) body) 0
              (VS stack frames) (VS stack frames).
Proof.
  induction 1 as [ | c rest Hc Hrest IH]; intros Ht stack frames.
  - apply validates_skip.
  - simpl in Ht. apply andb_prop in Ht as [Htc Htr].
    assert (Vc := proj1 (proj2 Hc) Htc). assert (Vr := IH Htr).
    cbn [for_each]. flow.
Qed.

Lemma is_void_kind (t : CType) :
  is_void (Some t) = TypeKind_eqb (ty_kind t) TY_VOID.
Proof. reflexivity. Qed.

Lemma stmt_step (n : Node) :
  Forall (node_ok ctx st) (children n) -> stmt_ok ctx st n.
Proof.
  intros IH Ht stack frames.
  rewrite typed_stmt_unfold in Ht. unfold typed_stmt_body in Ht.
  rewrite gen_stmt_unfold. unfold gen_stmt_body.
  pose proof IH as IHf.
  apply children_fields in IHf as (Hl & Hr & Hc & Hth & He & Hi & Hn & Hb & Hargs).
  destruct (nd_kind n) eqn:K; try discriminate.
  - (* ND_RETURN *)
    destruct (nd_lhs n) as [e | ] eqn:El.
    + split_typed.
      match goal with Hq : result_eqb _ _ = true |- _ =>
        apply result_eqb_eq in Hq; rename Hq into Hret end.
      assert (Ve := proj1 (Hl e eq_refl) ltac:(assumption)).
      cbn [opt].
      eapply validates_depth;
        [ eapply validates_bind; [apply Ve | intros _];
          eapply validates_println; [reflexivity | ];
          cbn [exec]; rewrite <- Hret, pop_app; reflexivity
        | reflexivity ].
    + apply result_eqb_eq in Ht. cbn [opt].
      eapply validates_depth;
        [ eapply validates_bind; [apply validates_skip | intros _];
          eapply validates_println; [reflexivity | ];
          cbn [exec]; rewrite <- Ht; reflexivity
        | reflexivity ].
  - (* ND_IF *)
    unfold typed_condition in Ht.
    destruct (nd_cond n) as [c | ] eqn:Ec; [ | discriminate].
    destruct (nd_then n) as [t | ] eqn:Et;
      destruct (nd_els n) as [e | ] eqn:Ee;
      cbn [typed_opt] in Ht; split_typed;
      child_value Hc c I32 Vc;
      try child_stmt Hth t Vt; try child_stmt He e Ve; flow.
  - (* ND_FOR *)
    destruct (nd_init n) as [i | ] eqn:Ei;
      destruct (nd_cond n) as [c | ] eqn:Ec;
      destruct (nd_then n) as [t | ] eqn:Et;
      destruct (nd_inc n) as [u | ] eqn:Eu;
      cbn [typed_opt] in Ht; split_typed;
      try child_stmt Hi i Vi; try child_value Hc c I32 Vc;
      try child_stmt Hth t Vt;
      try child_value Hn u (value_type (nd_ty u)) Vu; flow.
  - (* ND_DO *)
    unfold typed_condition in Ht.
    destruct (nd_cond n) as [c | ] eqn:Ec;
      [ | split_typed; discriminate].
    destruct (nd_then n) as [t | ] eqn:Et;
      cbn [typed_opt] in Ht; split_typed;
      child_value Hc c I32 Vc; try child_stmt Hth t Vt; flow.
  - (* ND_SWITCH *)
    unfold typed_condition in Ht.
    destruct (nd_cond n) as [c | ] eqn:Ec; [ | discriminate].
    assert (Vt : forall stack frames,
               validates ctx (opt (gen_stmt st) (nd_then n)) 0
                         (VS stack frames) (VS stack frames)).
    { destruct (nd_then n) as [t | ] eqn:Et; cbn [typed_opt opt] in *;
        split_typed; [ | intros; apply validates_skip].
      apply (proj1 (proj2 (Hth t eq_refl))). assumption. }
    split_typed. child_value Hc c I32 Vc. cbn [opt].
    eapply validates_eq.
    + eapply validates_bind; [apply Vc | intros _].
      eapply validates_bind; [line | intros _].
      eapply validates_bind; [line | intros _].
      eapply validates_bind; [apply validates_indent | intros _].
      eapply validates_bind; [apply open_cases_validate | intros _].
      eapply validates_bind; [apply Vt | intros _].
      eapply validates_bind; [apply close_cases_validate | intros _].
      eapply validates_bind; [apply validates_dedent | intros _].
      line.
    + lia.
    + reflexivity.
  - (* ND_CASE *)
    destruct (nd_lhs n) as [l | ] eqn:El; cbn [typed_opt opt] in *;
      [ | apply validates_skip].
    apply (proj1 (proj2 (Hl l eq_refl))). assumption.
  - (* ND_BLOCK *)
    now apply block_validate.
  - (* ND_GOTO *)
    line.
  - (* ND_LABEL *)
    destruct (nd_lhs n) as [l | ] eqn:El; cbn [typed_opt] in Ht;
      try child_stmt Hl l Vl; flow.
  - (* ND_EXPR_STMT *)
    destruct (nd_lhs n) as [e | ] eqn:El; [ | flow].
    split_typed.
    destruct (nd_ty e) as [lty | ] eqn:Ety; [ | discriminate].
    assert (Ve := proj1 (Hl e eq_refl) ltac:(assumption)).
    unfold node_result in Ve. rewrite Ety, is_void_kind in Ve.
    destruct (TypeKind_eqb (ty_kind lty) TY_VOID); cbn [negb results app] in *;
      flow.
Qed.

(** The stack discipline of the three generators on every node. *)
Lemma generators_disciplined (n : Node) : node_ok ctx st n.
Proof.
  induction n as [n IH IH2] using Node_children_ind2.
  pose proof (addr_step n IH) as Ha.
  split; [now apply expr_step | split; [now apply stmt_step | exact Ha]].
Qed.

End Discipline.


Section GeneratorTheorems.
Context `{LongDouble}.
#[local] Open Scope cg_scope.


Lemma is_wasm_f32_name (ty : CType) :
  wasm_type_is ty "f32" = is_wasm_f32 (Some ty).
Proof.
  unfold wasm_type_is, wasm_type, is_wasm_f32.
  destruct (ty_kind ty); try reflexivity.
  destruct (ty_size ty =? 8)%Z; reflexivity.
Qed.

Lemma is_wasm_f64_name (ty : CType) :
  wasm_type_is ty "f64" = is_wasm_f64 (Some ty).
Proof.
  unfold wasm_type_is, wasm_type, is_wasm_f64.
  destruct (ty_kind ty); try reflexivity.
  destruct (ty_size ty =? 8)%Z; reflexivity.
Qed.

Lemma is_wasm_i64_name (ty : CType) :
  wasm_type_is ty "i64" = is_wasm_i64 (Some ty).
Proof.
  unfold wasm_type_is, wasm_type, is_wasm_i64.
  destruct (ty_kind ty); try reflexivity.
  simpl. destruct (ty_size ty =? 8)%Z; reflexivity.
Qed.

Lemma is_wasm_f32_type (ty : CType) :
  is_wasm_f32 (Some ty) = true -> wasm_type (Some ty) = "f32".
Proof.
  unfold wasm_type, is_wasm_f32. destruct (ty_kind ty); simpl; congruence.
Qed.

Lemma is_wasm_f64_type (ty : CType) :
  is_wasm_f64 (Some ty) = true -> wasm_type (Some ty) = "f64".
Proof.
  unfold wasm_type, is_wasm_f64. destruct (ty_kind ty); simpl; congruence.
Qed.

(** [gen_cast] writes the lines of the rules, on every emitter state. *)
Lemma gen_cast_rules (from to : CType) (s : emitter) :
  gen_cast (Some from) (Some to) s =
  for_each (fun i => println i []) (cast_rule from to) s.
Proof.
  unfold gen_cast, cast_rule, spec_is_float, is_wasm_float.
  rewrite !is_wasm_f32_name, !is_wasm_f64_name, !is_wasm_i64_name.
  destruct (is_wasm_f32 (Some from)) eqn:F1;
    destruct (is_wasm_f64 (Some from)) eqn:F2;
    destruct (is_wasm_f32 (Some to)) eqn:T1;
    destruct (is_wasm_f64 (Some to)) eqn:T2;
    destruct (is_wasm_i64 (Some from)) eqn:F3;
    destruct (is_wasm_i64 (Some to)) eqn:T3;
    cbn [negb andb orb];
    rewrite ?(is_wasm_f32_type _ F1), ?(is_wasm_f64_type _ F2),
      ?(is_wasm_f32_type _ T1), ?(is_wasm_f64_type _ T2);
    unfold sign_suffix;
    repeat match goal with
           | |- context [if ?b then _ else _] => destruct b
           end; reflexivity.
Qed.

(** C5. A cast evaluates its operand and then writes the lines of the
    conversion rules, tried in the order of the specification. *)
Theorem cast_conversion_rules (st : ObjStore) (node lhs : Node)
        (from to : CType) (s : emitter) :
  nd_kind node = ND_CAST ->
  nd_lhs node = Some lhs ->
  nd_ty lhs = Some from ->
  nd_ty node = Some to ->
  gen_expr st node s =
  (gen_expr st lhs ;; for_each (fun i => println i []) (cast_rule from to)) s.
Proof.
  intros Hk Hl Hfrom Hto.
  rewrite gen_expr_unfold. unfold gen_expr_body.
  rewrite Hk, Hl, Hfrom, Hto. cbn [opt]. unfold bind.
  destruct (gen_expr st lhs s) as [[[] | f] s1]; [ | reflexivity].
  apply gen_cast_rules.
Qed.

End GeneratorTheorems.

(** ** The theorems at the sample inputs *)

Section AtSamples.
#[local] Existing Instance zero_only.



(** C2. On [for (;; f()) ;] with [void f(void)] the generator writes
    [(drop)] after the call of the increment, and the loop body does not
    validate: the drop finds the operand stack empty. *)
Theorem for_void_inc_drops :
  output_file (snd (gen_stmt empty_store for_void_inc (mkEmitter [] 0))) =
    [ Line 0 "(block $%s ;; break target" [Str "L1"];
      Line 1 "(loop $%s ;; continue target" [Str "L2"];
      Line 2 "(call $%s)" [Str "f"];
      Line 2 "(drop)" [];
      Line 2 "(br $%s)" [Str "L2"];
      Line 1 ") ;; end loop" [];
      Line 0 ") ;; end block" [] ]
  /\ validate ctx_f
       (output_file (snd (gen_stmt empty_store for_void_inc (mkEmitter [] 0))))
       (VS [] []) = None
  /\ output_file (snd (gen_stmt empty_store (stmt_of call_f) (mkEmitter [] 0))) =
       [ Line 0 "(call $%s)" [Str "f"] ].
Proof. repeat split; reflexivity. Qed.

(** C5 at [(char)7]. *)
Lemma cast_conversion_rules_witness :
  gen_expr empty_store cast_char (mkEmitter [] 0) =
  (Ok tt, mkEmitter [Line 0 "(i32.const %d)" [Int 7];
                     Line 0 "(i32.extend8_s)" []] 0).
Proof.
  rewrite (cast_conversion_rules empty_store cast_char num7 ty_int ty_char);
    reflexivity.
Defined.

(** C3 at float, long of both sizes, a pointer and char. *)
Lemma wasm_type_and_size_mapping_witness :
  wasm_type (Some ty_float) = "f32" /\
  wasm_type (Some ty_long8) = "i64" /\
  wasm_type (Some ty_long) = "i32" /\
  wasm_size (Some ty_long8) = 4 /\
  wasm_size (Some ty_ptr_int) = 4 /\
  wasm_size (Some ty_char) = 1.
Proof.
  destruct (wasm_type_and_size_mapping ty_float) as (Hf32 & _).
  destruct (wasm_type_and_size_mapping ty_long8)
    as (_ & _ & Hi64 & _ & _ & Hlong & _).
  destruct (wasm_type_and_size_mapping ty_long) as (_ & _ & _ & Hi32 & _).
  destruct (wasm_type_and_size_mapping ty_ptr_int)
    as (_ & _ & _ & _ & Hptr & _).
  destruct (wasm_type_and_size_mapping ty_char)
    as (_ & _ & _ & _ & _ & _ & Hsize).
  split; [apply Hf32; reflexivity | ].
  split; [apply Hi64; reflexivity | ].
  split; [apply Hi32; simpl; congruence | ].
  split; [apply Hlong; reflexivity | ].
  split; [apply Hptr; left; reflexivity | ].
  apply Hsize; simpl; congruence.
Defined.

(** C10 at the tokens [a], end of file, [b]. *)
Lemma dump_tokens_stops_at_eof_witness :
  dump_tokens [tok_of TK_IDENT "a"; tok_of TK_EOF ""; tok_of TK_IDENT "b"]
  = dump_tokens [tok_of TK_IDENT "a"].
Proof.
  apply (dump_tokens_stops_at_eof
           [tok_of TK_IDENT "a"; tok_of TK_EOF ""; tok_of TK_IDENT "b"])
    with (pre := [tok_of TK_IDENT "a"]) (eof := tok_of TK_EOF "")
         (post := [tok_of TK_IDENT "b"]).
  - reflexivity.
  - repeat constructor. simpl. congruence.
  - reflexivity.
Defined.

(** C7, counterexample.  The text written for a program with no object
    is not, byte for byte, [{"globals":[]}]. *)
Lemma dump_ast_empty_not_compact :
  dump_ast empty_store [] <> "{" +:+ quoted "globals" +:+ ":[]}".
Proof. intros E. vm_compute in E. discriminate E. Qed.

(** C6, counterexample.  A node at depth 20 is written in full: under
    twenty negations the literal [7] stands at depth 20 and is written
    as a number; under twenty-one it stands at depth 21 and is the
    sentinel. *)
Lemma depth_20_is_written :
  dump_node (Some num7) 20 = num7_json /\
  num7_json <> truncated /\
  dump_node (Some (nested_neg 20)) 0 = Nat.iter 20 neg_json num7_json /\
  dump_node (Some (nested_neg 21)) 0 = Nat.iter 21 neg_json truncated.
Proof.
  split; [reflexivity | split; [ | split; vm_compute; reflexivity]].
  intros E. vm_compute in E. discriminate E.
Qed.

(** C6 as amended, at the literal [7]: at depth 20 it is written with
    its members, at depth 21 the sentinel is written in its place. *)
Lemma dump_node_truncates_above_20_witness :
  dump_node (Some num7) 20 = print_json (JObj (node_members (fun _ => cut) num7)) /\
  dump_node (Some num7) 21 = truncated.
Proof.
  destruct (dump_node_truncates_above_20 num7 20) as (E & Hin & _ & _).
  destruct (dump_node_truncates_above_20 num7 21) as (E' & _ & Hout & Ht).
  split.
  - rewrite E, (Hin ltac:(lia)). reflexivity.
  - rewrite E', (Hout ltac:(lia)). exact Ht.
Defined.

(** C4 at the sample program: [a] at 0, [b] at 4, 16 bytes of globals
    and a stack that starts at 65536. *)
Lemma global_layout_and_stack_start_witness :
  (exists st' : ObjStore,
     assign_global_offsets sample_prog empty_store = (Ok 16, st') /\
     offset_of st' 10 = 0 /\ offset_of st' 11 = 4)
  /\ exists rest,
       output_file (st_emitter (w_statics (snd (codegen_wasm sample_prog fresh_world))))
       = module_header 65536 ++ rest.
Proof.
  destruct (global_layout_and_stack_start sample_prog fresh_world)
    as ((st' & E & Hread) & Hheader).
  - repeat constructor; simpl; congruence.
  - repeat constructor; simpl; lia.
  - repeat constructor; simpl; intuition discriminate.
  - reflexivity.
  - split; [ | exact Hheader].
    exists st'. split; [exact E | ].
    change (fst (spec_layout (variables sample_prog) 0))
      with [(10%positive, 0); (11%positive, 4)] in Hread.
    inversion Hread as [ | a l Ha Hl]; subst.
    inversion Hl as [ | b l' Hb Hl']; subst.
    split; [exact Ha | exact Hb].
Defined.

End AtSamples.


(** ** Escaped texts read back *)

Section EscapeTheorems.
Context `{LongDouble}.
#[local] Arguments String.append : simpl nomatch.

(** What [json_print_escaped] writes for one byte reads back as that
    byte. *)
Lemma json_read_body_byte (c : ascii) (rest : string) :
  json_read_body (json_escape_byte c +:+ rest) = prepend c (json_read_body rest).
Proof.
  destruct c as [[] [] [] [] [] [] [] []]; reflexivity.
Qed.

Lemma json_read_body_escape (s tail : string) :
  json_read_body (json_escape s +:+ dq +:+ tail) = Some (s, tail).
Proof.
  induction s as [ | c s IH]; [reflexivity | ].
  cbn [json_escape]. rewrite append_assoc, json_read_body_byte, IH.
  reflexivity.
Qed.

(** X1. Whatever bytes [json_print_escaped] is given, a JSON reader
    that starts at the text it wrote reads exactly these bytes and stops
    right after the closing quote: the escaping loses nothing, leaves no
    control character or quote bare, and does not run into the text
    that follows. *)
Theorem json_string_reads_back (s tail : string) :
  json_read_string (json_print_escaped s +:+ tail) = Some (s, tail).
Proof.
  unfold json_print_escaped.
  change (dq +:+ json_escape s +:+ dq) with (String "034" (json_escape s +:+ dq)).
  cbn [String.append json_read_string Ascii.eqb Bool.eqb].
  rewrite append_assoc. apply json_read_body_escape.
Qed.

(** X2. [json_print_str] writes different texts for different C
    strings, and tells the null pointer from every string, the string
    [null] included. *)
Theorem json_print_str_injective (a b : option string) :
  c_string_or_null a = true -> c_string_or_null b = true ->
  json_print_str a = json_print_str b -> a = b.
Proof.
  intros _ _ E.
  destruct a as [a | ], b as [b | ]; cbn [json_print_str] in E.
  - pose proof (json_read_body_escape a EmptyString) as Ha.
    pose proof (json_read_body_escape b EmptyString) as Hb.
    change (dq +:+ EmptyString) with dq in Ha, Hb.
    unfold json_print_escaped in E.
    change (dq +:+ json_escape a +:+ dq)
      with (String "034" (json_escape a +:+ dq)) in E.
    change (dq +:+ json_escape b +:+ dq)
      with (String "034" (json_escape b +:+ dq)) in E.
    injection E as E. rewrite E in Ha. rewrite Ha in Hb.
    now injection Hb as ->.
  - unfold json_print_escaped, dq in E. discriminate E.
  - unfold json_print_escaped, dq in E. discriminate E.
  - reflexivity.
Qed.

Lemma wat_read_body_byte (c : ascii) (rest : string) :
  wat_read_body (render_item (data_byte c) +:+ rest) =
  match wat_read_body rest with
  | Some (body, rest') => Some (c :: body, rest')
  | None => None
  end.
Proof.
  destruct c as [[] [] [] [] [] [] [] []]; reflexivity.
Qed.

Lemma wat_read_body_bytes (bytes : list ascii) (tail : string) :
  wat_read_body (render (map data_byte bytes) +:+ dq +:+ tail) =
  Some (bytes, tail).
Proof.
  induction bytes as [ | c bytes IH]; [reflexivity | ].
  cbn [map render]. rewrite append_assoc, wat_read_body_byte, IH.
  reflexivity.
Qed.

Lemma skipn_nth_error {A} (l : list A) (i : nat) (a : A) :
  nth_error l i = Some a -> skipn i l = a :: skipn (S i) l.
Proof.
  revert i. induction l as [ | x l IH]; intros [ | i] E; try discriminate E.
  - now injection E as ->.
  - cbn [nth_error] in E. specialize (IH i E).
    cbn [skipn] in *. exact IH.
Qed.

(** The byte loop of [emit_data] within the initialiser. *)
Lemma emit_data_bytes_items (data : list ascii) (i n : nat) (s : emitter) :
  (i + n <= length data)%nat ->
  emit_data_bytes data i n s =
  (Ok tt, {| output_file :=
               output_file s ++ map data_byte (firstn n (skipn i data));
             indent_level := indent_level s |}).
Proof.
  revert i s. induction n as [ | n IH]; intros i s Hi.
  - cbn [emit_data_bytes firstn map]. rewrite app_nil_r. now destruct s.
  - cbn [emit_data_bytes].
    destruct (nth_error data i) as [c | ] eqn:E.
    2:{ apply nth_error_None in E. lia. }
    rewrite (skipn_nth_error _ _ _ E). cbn [firstn map].
    unfold bind.
    assert (Hc : forall s0 : emitter,
               (if (32 <=? Z.of_N (N_of_ascii c))%Z
                   && (Z.of_N (N_of_ascii c) <? 127)%Z
                   && negb (Ascii.eqb c "034") && negb (Ascii.eqb c "\")
                then fprintf "%c" [Chr c]
                else fprintf "\%02x" [Int (Z.of_N (N_of_ascii c))]) s0 =
               (Ok tt, {| output_file := output_file s0 ++ [data_byte c];
                          indent_level := indent_level s0 |})).
    { intros s0. unfold data_byte. destruct (_ && _); reflexivity. }
    rewrite Hc, IH by (cbn [output_file]; lia).
    cbn [output_file indent_level]. rewrite <- app_assoc. reflexivity.
Qed.

(** X3. For a variable with an initialiser that holds at least [size]
    bytes, [emit_data] writes a comment line, the opening of a data
    segment at the offset of the variable, the bytes and the closing;
    and a reader of the text format reads the first [size] bytes of the
    initialiser back from the text of the bytes. *)
Theorem emit_data_reads_back (st : ObjStore) (var : Obj) (ty : CType)
        (data : list ascii) (s : emitter) :
  obj_is_function var = false ->
  obj_init_data var = Some data ->
  obj_ty var = Some ty ->
  (Z.to_nat (ty_size ty) <= length data)%nat ->
  exists bytes : list item,
    emit_data st [var] s =
    (Ok tt,
     {| output_file :=
          output_file s ++
          [Line (indent_level s) ";; global: %s (offset=%d, size=%d)"
                [Str (obj_name var); Int (offset_of st (obj_id var));
                 Int (ty_size ty)];
           Text ("  (data (i32.const %d) " +:+ dq)
                [Int (offset_of st (obj_id var))]] ++
          bytes ++ [Text (dq +:+ ")" +:+ nl) []];
        indent_level := indent_level s |})
    /\ forall tail : string,
         wat_read_body (render bytes +:+ dq +:+ tail) =
         Some (firstn (Z.to_nat (ty_size ty)) data, tail).
Proof.
  intros Hf Hd Hty Hlen.
  exists (map data_byte (firstn (Z.to_nat (ty_size ty)) data)).
  split; [ | intros tail; apply wat_read_body_bytes].
  cbn [emit_data]. rewrite Hf, Hd, Hty.
  unfold bind at 1. unfold bind at 1. unfold println at 1.
  unfold bind at 1. unfold fprintf at 1.
  unfold bind at 1.
  rewrite emit_data_bytes_items by (cbn; lia).
  cbn [output_file indent_level skipn].
  unfold fprintf, skip, ret. cbn [output_file indent_level].
  rewrite <- !app_assoc. reflexivity.
Qed.

End EscapeTheorems.

(** ** Invariants of the layout *)

Lemma align_to_mod (n a : Z) : 1 <= a -> (align_to n a) mod a = 0.
Proof. intros Ha. unfold align_to. apply Z.mod_mul. lia. Qed.

Lemma align_to_lt (n a : Z) : 1 <= a -> align_to n a < n + a.
Proof.
  intros Ha. unfold align_to.
  pose proof (Z.div_mod (n + a - 1) a ltac:(lia)) as Hdm.
  pose proof (Z.mod_pos_bound (n + a - 1) a ltac:(lia)) as Hb.
  nia.
Qed.

Section LayoutInvariantTheorems.
Context `{LongDouble}.
#[local] Open Scope cg_scope.

(** The layout of the specification lies in order, for every reading
    of the offsets that agrees with it. *)
Lemma spec_layout_laid_out (offset_at : positive -> Z)
      (vars : list (positive * CType)) (offset : Z) :
  (forall id o, In (id, o) (fst (spec_layout vars offset)) -> offset_at id = o) ->
  laid_out offset_at vars offset (snd (spec_layout vars offset)).
Proof.
  revert offset. induction vars as [ | [id ty] rest IH]; intros offset Hat.
  - cbn. lia.
  - cbn [spec_layout laid_out] in *.
    set (a := Z.max (ty_align ty) 1) in *.
    specialize (IH (align_to offset a + ty_size ty)).
    destruct (spec_layout rest (align_to offset a + ty_size ty))
      as [assigned final]. cbn [fst snd] in *.
    assert (E : offset_at id = align_to offset a) by (apply Hat; now left).
    rewrite E.
    pose proof (align_to_ge offset a ltac:(lia)).
    pose proof (align_to_lt offset a ltac:(lia)).
    pose proof (align_to_mod offset a ltac:(lia)).
    repeat split; try assumption.
    apply IH. intros id' o' Hin. apply Hat. now right.
Qed.

Lemma laid_out_weaken (offset_at : positive -> Z)
      (vars : list (positive * CType)) (lo hi hi' : Z) :
  hi <= hi' -> laid_out offset_at vars lo hi -> laid_out offset_at vars lo hi'.
Proof.
  intros Hh. revert lo. induction vars as [ | [id ty] rest IH]; intros lo.
  - cbn. lia.
  - cbn [laid_out]. intros (H1 & H2 & H3). repeat split; try tauto.
    now apply IH.
Qed.

(** The offsets of a layout whose identifiers are distinct, read back
    from the store. *)
Lemma write_offsets_reads (vars : list (positive * CType)) (offset : Z)
      (st : ObjStore) :
  List.NoDup (map fst vars) ->
  forall id o, In (id, o) (fst (spec_layout vars offset)) ->
    offset_of (write_offsets (fst (spec_layout vars offset)) st) id = o.
Proof.
  intros Hnd id o Hin. rewrite write_offsets_offsets.
  unfold offset_of. cbn [offsets].
  rewrite (layout_insert_all_lookup _ _ id o); [reflexivity | | exact Hin].
  now rewrite spec_layout_names.
Qed.

(** X4. When the variables of a program are distinct objects with
    types and sizes that are not negative, and the offsets fit in an
    [int], [assign_global_offsets] returns, the store it leaves has the
    variables in declaration order from offset 0, each at the first
    multiple of its alignment at or after the end of the one before,
    all below the size it returns, which is a multiple of 16; the
    offset of every other object and every stack size are as before. *)
Theorem global_layout_in_order (prog : list Obj) (st : ObjStore) :
  has_types prog ->
  Forall (fun v => 0 <= ty_size (snd v)) (variables prog) ->
  spec_globals_size prog < 2^31 ->
  List.NoDup (map fst (variables prog)) ->
  exists (size : Z) (st' : ObjStore),
    assign_global_offsets prog st = (Ok size, st') /\
    laid_out (offset_of st') (variables prog) 0 size /\
    size mod 16 = 0 /\
    (forall id, ~ In id (map fst (variables prog)) ->
                offset_of st' id = offset_of st id) /\
    stack_sizes st' = stack_sizes st.
Proof.
  intros Hty Hsz Hfit Hnd.
  pose proof (spec_layout_final_ge (variables prog) 0 Hsz) as Hge.
  assert (Hal : snd (spec_layout (variables prog) 0) <= spec_globals_size prog)
    by (apply align_to_ge; lia).
  exists (spec_globals_size prog),
         (write_offsets (fst (spec_layout (variables prog) 0)) st).
  split; [ | split; [ | split; [ | split]]].
  - unfold assign_global_offsets, spec_globals_size.
    apply assign_global_offsets_from_spec;
      [now apply has_types_variables | assumption | lia | exact Hfit].
  - apply laid_out_weaken with (hi := snd (spec_layout (variables prog) 0));
      [exact Hal | ].
    apply spec_layout_laid_out. now apply write_offsets_reads.
  - apply align_to_mod. lia.
  - intros id Hid. rewrite write_offsets_offsets. unfold offset_of.
    cbn [offsets]. rewrite layout_insert_all_other; [reflexivity | ].
    now rewrite spec_layout_names.
  - now rewrite write_offsets_offsets.
Qed.

(** The loop over the locals of a function against the layout of the
    specification, from any running offset. *)
Lemma assign_local_offsets_spec (locals : list Obj) (offset : Z)
      (st : ObjStore) :
  Forall (fun l => obj_ty l <> None) locals ->
  Forall (fun v => 0 <= ty_size (snd v)) (local_vars locals) ->
  0 <= offset ->
  snd (spec_layout (local_vars locals) offset) < 2^31 ->
  assign_local_offsets locals offset st =
  (Ok (snd (spec_layout (local_vars locals) offset)),
   write_offsets (fst (spec_layout (local_vars locals) offset)) st).
Proof.
  intros Hty. revert offset st.
  induction Hty as [ | o rest Ho Hrest IH]; intros offset st Hsz Hoff Hfin;
    [reflexivity | ].
  cbn [assign_local_offsets local_vars flat_map] in *.
  destruct (obj_ty o) as [ty | ] eqn:Hoty; [ | now exfalso; apply Ho].
  cbn [app] in *. fold (local_vars rest) in *.
  inversion Hsz as [ | v vs Hv Hvs]; subst. cbn [snd] in Hv.
  assert (Hmax : (if (ty_align ty >? 0)%Z then ty_align ty else 1)
                 = Z.max (ty_align ty) 1).
  { destruct (Z.gtb_spec (ty_align ty) 0); lia. }
  cbn [spec_layout] in *. rewrite Hmax.
  set (at_ := align_to offset (Z.max (ty_align ty) 1)) in *.
  assert (Hat : offset <= at_) by (apply align_to_ge; lia).
  pose proof (spec_layout_final_ge (local_vars rest) (at_ + ty_size ty) Hvs) as Hge.
  destruct (spec_layout (local_vars rest) (at_ + ty_size ty))
    as [assigned final] eqn:Hsl.
  cbn [fst snd] in Hfin, Hge.
  unfold bind, store_offset.
  rewrite (int_align_to_in_range offset) by (fold at_; lia). fold at_.
  unfold int_add. rewrite wrap32_in_range by lia.
  rewrite IH by (try assumption; try lia; rewrite Hsl; cbn [snd]; lia).
  rewrite Hsl. reflexivity.
Qed.

Lemma write_offsets_writes (l : list (positive * Z)) (st : ObjStore) :
  write_offsets l st =
  apply_writes (map (fun a => WOffset (fst a) (snd a)) l) st.
Proof.
  revert st. induction l as [ | a l IH]; intros st; [reflexivity | ].
  unfold write_offsets, apply_writes in *. cbn [fold_left map]. apply IH.
Qed.

Lemma apply_writes_app (ws1 ws2 : list write) (st : ObjStore) :
  apply_writes (ws1 ++ ws2) st = apply_writes ws2 (apply_writes ws1 st).
Proof. unfold apply_writes. apply fold_left_app. Qed.

(** [assign_wasm_offsets] does the writes of the frame layout. *)
Lemma assign_wasm_offsets_writes (prog : list Obj) (st : ObjStore) :
  has_types prog ->
  Forall frame_fits (functions_of prog) ->
  assign_wasm_offsets prog st = (Ok tt, apply_writes (frame_writes prog) st).
Proof.
  intros Hty. revert st.
  induction Hty as [ | fn rest Hfn Hrest IH]; intros st Hfit; [reflexivity | ].
  cbn [assign_wasm_offsets]. unfold frame_writes, functions_of in *.
  cbn [List.filter] in *. cbn beta in Hfn.
  destruct (obj_is_function fn) eqn:Hf; cbn [negb].
  - apply List.Forall_cons_iff in Hfit as [[Hsz Hfin] Hfits].
    pose proof (spec_layout_final_ge (local_vars (obj_locals fn)) 0 Hsz) as Hge.
    pose proof (align_to_ge (snd (spec_layout (local_vars (obj_locals fn)) 0)) 16
                            ltac:(lia)) as Hal.
    cbn [flat_map]. unfold frame_of at 1. unfold bind at 1. unfold bind at 1.
    rewrite assign_local_offsets_spec; [ | exact Hfn | exact Hsz | lia | lia].
    rewrite int_align_to_in_range by lia.
    unfold store_stack_size.
    rewrite IH by assumption.
    rewrite !apply_writes_app, <- write_offsets_writes. reflexivity.
  - unfold bind at 1. cbn [skip ret]. now apply IH.
Qed.

Lemma offset_writes_app (a b : list write) :
  offset_writes (a ++ b) = offset_writes a ++ offset_writes b.
Proof. apply flat_map_app. Qed.

Lemma stack_size_writes_app (a b : list write) :
  stack_size_writes (a ++ b) = stack_size_writes a ++ stack_size_writes b.
Proof. apply flat_map_app. Qed.

Lemma offset_writes_offsets (l : list (positive * Z)) :
  offset_writes (map (fun a => WOffset (fst a) (snd a)) l) = l /\
  stack_size_writes (map (fun a => WOffset (fst a) (snd a)) l) = [].
Proof.
  induction l as [ | [k v] l [IH1 IH2]]; [split; reflexivity | ].
  split; cbn; [now f_equal | exact IH2].
Qed.

Lemma frame_writes_offsets (fs : list Obj) :
  offset_writes
    (flat_map frame_of fs)
  = flat_map (fun fn => fst (spec_layout (local_vars (obj_locals fn)) 0)) fs.
Proof.
  induction fs as [ | fn fs IH]; [reflexivity | ].
  cbn [flat_map]. unfold frame_of at 1. rewrite !offset_writes_app, IH.
  rewrite (proj1 (offset_writes_offsets _)). cbn [offset_writes flat_map app].
  now rewrite app_nil_r.
Qed.

Lemma frame_writes_stack_sizes (fs : list Obj) :
  stack_size_writes
    (flat_map frame_of fs)
  = map (fun fn =>
           (obj_id fn,
            align_to (snd (spec_layout (local_vars (obj_locals fn)) 0)) 16)) fs.
Proof.
  induction fs as [ | fn fs IH]; [reflexivity | ].
  cbn [flat_map map]. unfold frame_of at 1. rewrite !stack_size_writes_app, IH.
  rewrite (proj2 (offset_writes_offsets _)). reflexivity.
Qed.

Lemma local_vars_ids (locals : list Obj) :
  Forall (fun l => obj_ty l <> None) locals ->
  map fst (local_vars locals) = map obj_id locals.
Proof.
  induction 1 as [ | o rest Ho Hrest IH]; [reflexivity | ].
  cbn [local_vars flat_map map]. destruct (obj_ty o); [ | congruence].
  cbn [app map fst]. f_equal. exact IH.
Qed.

Lemma has_types_functions (prog : list Obj) :
  has_types prog ->
  Forall (fun fn => Forall (fun l => obj_ty l <> None) (obj_locals fn))
         (functions_of prog).
Proof.
  induction 1 as [ | o rest Ho Hrest IH]; [constructor | ].
  unfold functions_of in *. cbn [List.filter].
  destruct (obj_is_function o); [constructor; assumption | exact IH].
Qed.

Lemma frame_offsets_ids (fs : list Obj) :
  Forall (fun fn => Forall (fun l => obj_ty l <> None) (obj_locals fn)) fs ->
  map fst (flat_map (fun fn => fst (spec_layout (local_vars (obj_locals fn)) 0)) fs)
  = flat_map (fun fn => map obj_id (obj_locals fn)) fs.
Proof.
  induction 1 as [ | fn fs Hfn Hfs IH]; [reflexivity | ].
  cbn [flat_map]. rewrite map_app, IH, spec_layout_names, local_vars_ids by exact Hfn.
  reflexivity.
Qed.

(** X5. When the functions of a program and their locals are distinct
    objects, every local has a type and a size that is not negative, and
    every frame fits in an [int], [assign_wasm_offsets] returns, and in
    the store it leaves the locals of every function lie in list order
    from offset 0, each at the first multiple of its alignment at or
    after the end of the one before, all below the stack size of the
    function, which is a multiple of 16. *)
Theorem frame_layout_in_order (prog : list Obj) (st : ObjStore) :
  has_types prog ->
  Forall frame_fits (functions_of prog) ->
  List.NoDup (local_ids prog) ->
  List.NoDup (map obj_id (functions_of prog)) ->
  exists st' : ObjStore,
    assign_wasm_offsets prog st = (Ok tt, st') /\
    forall fn : Obj,
      In fn (functions_of prog) ->
      laid_out (offset_of st') (local_vars (obj_locals fn)) 0
               (stack_size_of st' (obj_id fn)) /\
      (stack_size_of st' (obj_id fn)) mod 16 = 0.
Proof.
  intros Hty Hfit Hnd Hfn.
  exists (apply_writes (frame_writes prog) st).
  split; [now apply assign_wasm_offsets_writes | ].
  intros fn Hin.
  pose proof (has_types_functions prog Hty) as Htys.
  rewrite apply_writes_fields. unfold frame_writes.
  rewrite frame_writes_offsets, frame_writes_stack_sizes.
  set (final := snd (spec_layout (local_vars (obj_locals fn)) 0)).
  assert (Hss : stack_size_of
                  {| offsets :=
                       insert_all
                         (flat_map (fun fn0 => fst (spec_layout (local_vars (obj_locals fn0)) 0))
                                   (functions_of prog)) (offsets st);
                     stack_sizes :=
                       insert_all
                         (map (fun fn0 =>
                                 (obj_id fn0,
                                  align_to (snd (spec_layout (local_vars (obj_locals fn0)) 0)) 16))
                              (functions_of prog)) (stack_sizes st) |}
                  (obj_id fn) = align_to final 16).
  { unfold stack_size_of. cbn [stack_sizes].
    rewrite (layout_insert_all_lookup _ _ (obj_id fn) (align_to final 16));
      [reflexivity | | ].
    - rewrite map_map. cbn [fst]. exact Hfn.
    - apply in_map_iff. exists fn. split; [reflexivity | exact Hin]. }
  rewrite Hss.
  rewrite List.Forall_forall in Hfit. destruct (Hfit fn Hin) as [Hsz Hfin].
  pose proof (spec_layout_final_ge (local_vars (obj_locals fn)) 0 Hsz) as Hge.
  fold final in Hge.
  split; [ | apply align_to_mod; lia].
  apply laid_out_weaken with (hi := final); [apply align_to_ge; lia | ].
  apply spec_layout_laid_out.
  intros id o Hio. unfold offset_of. cbn [offsets].
  rewrite (layout_insert_all_lookup _ _ id o); [reflexivity | | ].
  - rewrite frame_offsets_ids by exact Htys. exact Hnd.
  - apply in_flat_map. exists fn. split; assumption.
Qed.

End LayoutInvariantTheorems.

(** ** The module that [codegen_wasm] writes *)

Section ModuleTheorems.
Context `{LongDouble}.
#[local] Open Scope cg_scope.

Lemma ends_at_bind {A B} (m : M A) (k : A -> M B) (n : Z) :
  (forall a, ends_at (k a) n) -> ends_at (bind m k) n.
Proof.
  intros Hk s b s' E. unfold bind in E.
  destruct (m s) as [[a | f] s1]; [ | discriminate E].
  exact (Hk a s1 b s' E).
Qed.

Lemma ends_at_stop {A} (f : failure) (n : Z) : ends_at (@stop _ A f) n.
Proof. intros s a s' E. discriminate E. Qed.

(** A function that was written leaves the indentation at 1. *)
Lemma emit_function_ends_at_1 (st : ObjStore) (fn : Obj) (s s' : statics) :
  emit_function st fn s = (Ok tt, s') -> indent_level (st_emitter s') = 1.
Proof.
  unfold emit_function.
  unfold bind at 1. unfold set_current_fn at 1.
  unfold bind at 1. unfold set_wasm_label_count at 1.
  unfold lift. cbn [st_emitter current_fn wasm_label_count].
  match goal with
  | |- (let (_, _) := ?m ?e in _) = _ -> _ =>
    assert (Hm : ends_at m 1); [ | destruct (m e) as [[[] | f] e1] eqn:E]
  end.
  - repeat (apply ends_at_bind; intros _).
    destruct (obj_ty fn) as [fty | ]; [ | apply ends_at_stop].
    cbv zeta.
    repeat match goal with
           | |- ends_at (bind ?m _) _ =>
             lazymatch m with
             | set_indent_level 1 => fail
             | _ => apply ends_at_bind; intros _
             end
           end.
    intros e a e' E. cbv in E. now injection E as _ <-.
  - intros E'. injection E' as <-. cbn [st_emitter]. exact (Hm _ _ _ E).
  - intros E'. discriminate E'.
Qed.

Lemma emit_functions_level (st : ObjStore) (prog : list Obj) (s s' : statics) :
  emit_functions st prog s = (Ok tt, s') ->
  indent_level (st_emitter s') = indent_level (st_emitter s) \/
  indent_level (st_emitter s') = 1.
Proof.
  revert s. induction prog as [ | fn rest IH]; intros s E.
  - injection E as <-. now left.
  - cbn [emit_functions] in E. unfold bind in E.
    destruct (negb (obj_is_function fn) || negb (obj_is_definition fn)).
    + cbn [skip ret] in E. now apply IH.
    + destruct (negb (obj_is_live fn)).
      * cbn [skip ret] in E. now apply IH.
      * destruct (emit_function st fn s) as [[[] | f] s1] eqn:E1;
          [ | discriminate E].
        apply emit_function_ends_at_1 in E1.
        destruct (IH s1 E) as [E2 | E2]; right; congruence.
Qed.

Lemma writes_level_bind {A B} (m : M A) (k : A -> M B) :
  writes_level m -> (forall a, writes_level (k a)) -> writes_level (bind m k).
Proof.
  intros Hm Hk s. unfold bind.
  destruct (Hm s) as [l1 E1]. destruct (m s) as [[a | f] s1]; cbn [snd] in *.
  - destruct (Hk a s1) as [l2 E2]. exists (l1 ++ l2).
    rewrite E2, E1. cbn [output_file indent_level]. now rewrite app_assoc.
  - now exists l1.
Qed.

Lemma writes_level_println fmt args : writes_level (println fmt args).
Proof. intros s. eexists. reflexivity. Qed.

Lemma writes_level_fprintf fmt args : writes_level (fprintf fmt args).
Proof. intros s. eexists. reflexivity. Qed.

Lemma writes_level_skip : writes_level skip.
Proof. intros s. exists []. cbn. rewrite app_nil_r. now destruct s. Qed.

Lemma writes_level_stop {A} (f : failure) : writes_level (@stop _ A f).
Proof. intros s. exists []. cbn. rewrite app_nil_r. now destruct s. Qed.

Lemma writes_level_emit_data_bytes data i n :
  writes_level (emit_data_bytes data i n).
Proof.
  revert i. induction n as [ | n IH]; intros i; cbn [emit_data_bytes];
    [apply writes_level_skip | ].
  destruct (nth_error data i); [ | apply writes_level_stop].
  apply writes_level_bind; [ | intros _; apply IH].
  destruct (_ && _); apply writes_level_fprintf.
Qed.

(** [emit_data] writes at the indentation it finds and leaves it. *)
Lemma writes_level_emit_data st prog : writes_level (emit_data st prog).
Proof.
  induction prog as [ | o rest IH]; cbn [emit_data]; [apply writes_level_skip | ].
  apply writes_level_bind; [ | intros _; exact IH].
  destruct (obj_is_function o); [apply writes_level_skip | ].
  destruct (obj_init_data o); [ | apply writes_level_skip].
  destruct (obj_ty o); [ | apply writes_level_stop].
  repeat (apply writes_level_bind; [ | intros _]);
    try apply writes_level_println; try apply writes_level_fprintf.
  apply writes_level_emit_data_bytes.
Qed.

(** The emission part of a run that returns. *)
Lemma emission_closes (prog : list Obj) (ds : Z) (st : ObjStore)
      (cf : option positive) (lc : Z) (s' : statics) :
  emission prog ds st
           {| st_emitter := {| output_file := []; indent_level := 0 |};
              current_fn := cf; wasm_label_count := lc |} = (Ok tt, s') ->
  exists (stack_start : Z) (body : list item),
    65536 <= stack_start /\
    st_emitter s' =
    {| output_file := module_header stack_start ++ body ++ [Line 0 ")" []];
       indent_level := 0 |}.
Proof.
  unfold emission. cbv zeta.
  set (ss := if (int_align_to (int_add ds 1024) 65536 <? 65536)%Z
             then 65536 else int_align_to (int_add ds 1024) 65536).
  assert (Hss : 65536 <= ss).
  { unfold ss. destruct (Z.ltb_spec (int_align_to (int_add ds 1024) 65536) 65536); lia. }
  set (tail := (emit_data st prog ;; fprintf nl [])).
  assert (Htail : writes_level tail).
  { apply writes_level_bind;
      [apply writes_level_emit_data | intros _; apply writes_level_fprintf]. }
  unfold bind at 1. unfold lift at 1.
  unfold bind at 1. unfold println at 1.
  unfold bind at 1. unfold indent at 1.
  unfold bind at 1. unfold println at 1.
  unfold bind at 1. unfold fprintf at 1.
  unfold bind at 1. unfold println at 1.
  unfold bind at 1. unfold println at 1.
  unfold bind at 1. unfold fprintf at 1.
  cbn [output_file indent_level st_emitter current_fn wasm_label_count app].
  match goal with
  | |- context [tail ?e] =>
    destruct (Htail e) as [l1 E1]; destruct (tail e) as [[[] | f] e1]
  end; cbn [snd output_file indent_level] in E1; [ | intros E; discriminate E].
  subst e1.
  unfold bind at 1.
  match goal with
  | |- context [emit_functions st prog ?s] =>
    pose proof (appendsG_emit_functions st prog s) as [l2 E2];
    pose proof (emit_functions_level st prog s) as Hlevel;
    destruct (emit_functions st prog s) as [[[] | f] s2]
  end; [ | intros E; discriminate E].
  cbn [snd st_emitter output_file indent_level] in E2.
  specialize (Hlevel s2 eq_refl). cbn [st_emitter indent_level] in Hlevel.
  assert (Hl : indent_level (st_emitter s2) = 1) by (destruct Hlevel; lia).
  unfold lift, bind, dedent, println. cbn [fst snd].
  intros E. injection E as <-. cbn [st_emitter].
  rewrite E2, Hl. exists ss, (l1 ++ l2).
  split; [exact Hss | ].
  unfold module_header. cbn [app Z.add Z.sub Z.opp Z.pos_sub].
  reflexivity.
Qed.

(** X6. A run of [codegen_wasm] that returns has written one module:
    the header, with a stack start of at least 65536, first, and the
    closing parenthesis at indentation 0 last, and it leaves the
    indentation at 0. *)
Theorem codegen_wasm_closes_module (prog : list Obj) (w w' : world) :
  codegen_wasm prog w = (Ok tt, w') ->
  exists (stack_start : Z) (body : list item),
    65536 <= stack_start /\
    st_emitter (w_statics w') =
    {| output_file := module_header stack_start ++ body ++ [Line 0 ")" []];
       indent_level := 0 |}.
Proof.
  rewrite codegen_wasm_phases. cbv zeta.
  destruct (layout prog (w_objs w)) as [[ds | f] st]; [ | intros E; discriminate E].
  unfold open_output. cbn [snd].
  destruct (emission prog ds st _) as [[[] | f] s'] eqn:E;
    cbn [fst snd]; intros E'; [ | discriminate E'].
  injection E' as <-. cbn [w_statics].
  exact (emission_closes _ _ _ _ _ _ E).
Qed.

(** X7. What [codegen_wasm] returns, writes and leaves in the program
    graph does not depend on the statics it finds: not on an earlier
    output, an earlier indentation, the current function or the label
    counter. *)
Theorem codegen_wasm_ignores_statics (prog : list Obj) (w : world)
        (s : statics) :
  let w0 := {| w_statics := s; w_objs := w_objs w |} in
  fst (codegen_wasm prog w0) = fst (codegen_wasm prog w) /\
  st_emitter (w_statics (snd (codegen_wasm prog w0))) =
    st_emitter (w_statics (snd (codegen_wasm prog w))) /\
  output_of (snd (codegen_wasm prog w0)) = output_of (snd (codegen_wasm prog w)) /\
  w_objs (snd (codegen_wasm prog w0)) = w_objs (snd (codegen_wasm prog w)).
Proof.
  cbv zeta. rewrite !codegen_wasm_phases. cbv zeta. cbn [w_objs w_statics].
  destruct (layout prog (w_objs w)) as [[ds | f] st]; cbn [fst snd w_statics w_objs].
  - destruct (stable_emission prog ds st
                (snd (open_output s)) (snd (open_output (w_statics w))) eq_refl)
      as (Hr & He & _).
    unfold output_of. cbn [w_statics]. rewrite He. now rewrite Hr.
  - unfold output_of. cbn. repeat split; reflexivity.
Qed.

(** X20. When the variables have types and sizes that are not negative
    and the stack start fits in an [int], the stack start
    [codegen_wasm] writes in the header of the module is a multiple of
    65536 that leaves at least 1024 bytes above the globals: the stack,
    which grows downwards from it, starts clear of every global. *)
Theorem stack_starts_above_globals (prog : list Obj) (w : world) :
  has_types prog ->
  Forall (fun v => 0 <= ty_size (snd v)) (variables prog) ->
  align_to (spec_globals_size prog + 1024) 65536 < 2^31 ->
  exists (stack_start : Z) (rest : list item),
    output_file (st_emitter (w_statics (snd (codegen_wasm prog w)))) =
      module_header stack_start ++ rest /\
    fst (assign_global_offsets prog (w_objs w)) = Ok (spec_globals_size prog) /\
    spec_globals_size prog + 1024 <= stack_start < 2^31 /\
    stack_start mod 65536 = 0.
Proof.
  intros Hty Hsz Hfit.
  pose proof (spec_layout_final_ge (variables prog) 0 Hsz) as Hge.
  assert (Hal : snd (spec_layout (variables prog) 0) <= spec_globals_size prog)
    by (apply align_to_ge; lia).
  pose proof (align_to_ge (spec_globals_size prog + 1024) 65536 ltac:(lia)) as Hup.
  assert (Hglob : assign_global_offsets prog (w_objs w) =
                  (Ok (spec_globals_size prog),
                   write_offsets (fst (spec_layout (variables prog) 0)) (w_objs w))).
  { unfold assign_global_offsets, spec_globals_size.
    apply assign_global_offsets_from_spec;
      [now apply has_types_variables | assumption | lia | ].
    fold (spec_globals_size prog). lia. }
  set (ss := if (align_to (spec_globals_size prog + 1024) 65536 <? 65536)%Z
             then 65536 else align_to (spec_globals_size prog + 1024) 65536).
  assert (Hss : spec_globals_size prog + 1024 <= ss < 2^31 /\ ss mod 65536 = 0).
  { pose proof (align_to_mod (spec_globals_size prog + 1024) 65536 ltac:(lia)).
    unfold ss.
    destruct (Z.ltb_spec (align_to (spec_globals_size prog + 1024) 65536) 65536);
      split; try assumption; try lia. reflexivity. }
  rewrite codegen_wasm_phases. cbv zeta. unfold layout.
  unfold bind at 1. rewrite Hglob.
  destruct (assign_wasm_offsets_ok prog
              (write_offsets (fst (spec_layout (variables prog) 0)) (w_objs w)) Hty)
    as [st' Est].
  unfold bind at 1. rewrite Est. cbn [ret snd fst w_statics].
  unfold emission. cbv zeta. unfold int_add. rewrite wrap32_in_range by lia.
  rewrite int_align_to_in_range by lia.
  fold ss. unfold open_output. cbn [snd].
  destruct (emission_starts_with_header st' prog ss
              (current_fn (w_statics w)) (wasm_label_count (w_statics w)))
    as [rest E].
  exists ss, rest. split; [exact E | ]. split; [reflexivity | exact Hss].
Qed.

End ModuleTheorems.

(** ** The objects each pass looks at *)

Section SelectionTheorems.
Context `{LongDouble}.
#[local] Open Scope cg_scope.

Lemma bind_tail {S A B} (m : MS S A) (k k' : A -> MS S B) (s : S) :
  (forall a s1, k a s1 = k' a s1) -> bind m k s = bind m k' s.
Proof.
  intros Hk. unfold bind. destruct (m s) as [[a | f] s1]; [apply Hk | reflexivity].
Qed.

Lemma emit_functions_emitted (st : ObjStore) (prog : list Obj) (s : statics) :
  emit_functions st prog s = emit_functions st (List.filter is_emitted prog) s.
Proof.
  revert s. induction prog as [ | fn rest IH]; intros s; [reflexivity | ].
  cbn [emit_functions List.filter]. unfold is_emitted.
  destruct (obj_is_function fn) eqn:Hf, (obj_is_definition fn) eqn:Hd,
    (obj_is_live fn) eqn:Hl;
    cbn [negb orb andb emit_functions]; rewrite ?Hf, ?Hd, ?Hl;
    cbn [negb orb andb]; try (unfold bind at 1; cbn [skip ret]; apply IH).
  apply bind_tail. intros _ s1. apply IH.
Qed.

Lemma emit_data_has_data (st : ObjStore) (prog : list Obj) (s : emitter) :
  emit_data st prog s = emit_data st (List.filter has_data prog) s.
Proof.
  revert s. induction prog as [ | var rest IH]; intros s; [reflexivity | ].
  cbn [emit_data List.filter]. unfold has_data.
  destruct (obj_is_function var) eqn:Hf; cbn [negb andb].
  - unfold bind at 1. cbn [skip ret]. apply IH.
  - destruct (obj_init_data var) as [data | ] eqn:Hd.
    + cbn [emit_data]. rewrite Hf, Hd.
      apply bind_tail. intros _ s1. apply IH.
    + unfold bind at 1. cbn [skip ret]. apply IH.
Qed.

Lemma assign_wasm_offsets_functions (prog : list Obj) (st : ObjStore) :
  assign_wasm_offsets prog st = assign_wasm_offsets (functions_of prog) st.
Proof.
  revert st. induction prog as [ | fn rest IH]; intros st; [reflexivity | ].
  unfold functions_of in *. cbn [assign_wasm_offsets List.filter].
  destruct (obj_is_function fn) eqn:Hf; cbn [negb].
  - cbn [assign_wasm_offsets]. rewrite Hf. cbn [negb].
    apply bind_tail. intros _ s1. apply IH.
  - unfold bind at 1. cbn [skip ret]. apply IH.
Qed.

Lemma assign_global_offsets_variables (prog : list Obj) (offset : Z)
      (st : ObjStore) :
  assign_global_offsets_from prog offset st =
  assign_global_offsets_from (List.filter is_variable prog) offset st.
Proof.
  revert offset st. induction prog as [ | var rest IH]; intros offset st;
    [reflexivity | ].
  cbn [assign_global_offsets_from List.filter]. unfold is_variable at 1.
  destruct (obj_is_function var) eqn:Hf; cbn [negb]; [apply IH | ].
  cbn [assign_global_offsets_from]. rewrite Hf.
  destruct (obj_ty var) as [ty | ]; [ | reflexivity].
  unfold bind, store_offset. apply IH.
Qed.

(** X8. Each pass of the code generator skips the objects that are not
    its own: [emit_functions] writes for the live function definitions
    only, [emit_data] for the variables with an initialiser only, and
    the two layout passes run over the functions and over the variables
    only.  Removing the other objects from the program changes nothing
    a pass returns, writes or stores. *)
Theorem passes_skip_other_objects (st : ObjStore) (prog : list Obj) :
  (forall s, emit_functions st prog s =
             emit_functions st (List.filter is_emitted prog) s) /\
  (forall s, emit_data st prog s =
             emit_data st (List.filter has_data prog) s) /\
  (forall st0, assign_wasm_offsets prog st0 =
               assign_wasm_offsets (functions_of prog) st0) /\
  (forall st0, assign_global_offsets prog st0 =
               assign_global_offsets (List.filter is_variable prog) st0).
Proof.
  split; [ | split; [ | split]]; intros s.
  - apply emit_functions_emitted.
  - apply emit_data_has_data.
  - apply assign_wasm_offsets_functions.
  - apply assign_global_offsets_variables.
Qed.

End SelectionTheorems.

(** ** The dumper, continued *)

Section MoreDumpTheorems.
Context `{LongDouble}.
#[local] Arguments String.append : simpl nomatch.

Lemma dump_obj_separator (st : ObjStore) (o : Obj) :
  dump_obj st false o = ("," +:+ nl) +:+ obj_json st o.
Proof. rewrite <- dump_obj_value. reflexivity. Qed.

Lemma dump_ast_loop_rest (st : ObjStore) (prog : list Obj) :
  dump_ast_loop st prog false =
  match prog with
  | [] => EmptyString
  | _ :: _ => ("," +:+ nl) +:+ join ("," +:+ nl) (map (obj_json st) prog)
  end.
Proof.
  induction prog as [ | o rest IH]; [reflexivity | ].
  cbn [dump_ast_loop]. rewrite IH, dump_obj_separator.
  destruct rest as [ | u more]; cbn [map join];
    rewrite ?append_empty_r, ?append_assoc; reflexivity.
Qed.

(** X9. [dump_ast] writes one JSON object for every object of the
    program, functions and variables, declarations and definitions
    alike, in list order, with a comma and a line feed between two
    objects, inside [{"globals":[] and []}].  The object of an entry is
    two spaces and the text of [obj_value]: the members name,
    is_function, is_definition, is_static and type, then return_type,
    params, body and locals for a function, is_tentative, is_tls and
    has_init_data for a variable. *)
Theorem dump_ast_lists_every_object (st : ObjStore) (prog : list Obj) :
  dump_ast st prog =
    ("{" +:+ quoted "globals" +:+ ":[" +:+ nl)
    +:+ join ("," +:+ nl) (map (obj_json st) prog)
    +:+ (nl +:+ "]}" +:+ nl).
Proof.
  unfold dump_ast. f_equal.
  destruct prog as [ | o rest]; [reflexivity | ].
  cbn [dump_ast_loop]. rewrite dump_ast_loop_rest, dump_obj_value.
  destruct rest as [ | u more]; cbn [map join];
    rewrite ?append_empty_r; reflexivity.
Qed.

Lemma node_kind_name_injective (a b : NodeKind) :
  node_kind_name a = node_kind_name b -> a = b.
Proof. destruct a, b; intros E; try reflexivity; discriminate E. Qed.

Lemma token_kind_name_injective (a b : TokenKind) :
  token_kind_name a = token_kind_name b -> a = b.
Proof. destruct a, b; intros E; try reflexivity; discriminate E. Qed.

Lemma token_kind_name_plain (k : TokenKind) :
  json_escape (token_kind_name k) = token_kind_name k.
Proof. destruct k; vm_compute; reflexivity. Qed.

(** X10. The names [node_kind_name] and [token_kind_name] give to two
    kinds are equal only when the kinds are, and [json_print_str]
    writes each name as it is between quotes: the kind of a node or of
    a token can be read back from its dump. *)
Theorem kind_names_distinct :
  (forall a b : NodeKind, node_kind_name a = node_kind_name b <-> a = b) /\
  (forall a b : TokenKind, token_kind_name a = token_kind_name b <-> a = b) /\
  (forall k : NodeKind,
     json_print_str (Some (node_kind_name k)) = quoted (node_kind_name k)) /\
  (forall k : TokenKind,
     json_print_str (Some (token_kind_name k)) = quoted (token_kind_name k)).
Proof.
  split; [ | split; [ | split]].
  - intros a b. split; [apply node_kind_name_injective | now intros ->].
  - intros a b. split; [apply token_kind_name_injective | now intros ->].
  - intros k. unfold json_print_str, json_print_escaped, quoted.
    now rewrite node_kind_name_plain.
  - intros k. unfold json_print_str, json_print_escaped, quoted.
    now rewrite token_kind_name_plain.
Qed.

Lemma height_unfold (n : Node) : height n = height_body height n.
Proof. destruct n; reflexivity. Qed.

Lemma height_list_ge (l : list Node) :
  Forall (fun c => (height c <= height_list height l)%nat) l.
Proof.
  induction l as [ | c l IH]; [constructor | ].
  change (height_list height (c :: l))
    with (Nat.max (height c) (height_list height l)).
  constructor; [lia | ].
  eapply List.Forall_impl; [ | exact IH].
  intros a Ha. cbn beta in *. lia.
Qed.

(** Every sub-node is less high than the node. *)
Lemma height_children (n : Node) :
  Forall (fun c => (S (height c) <= height n)%nat) (children n).
Proof.
  rewrite height_unfold. unfold height_body, children.
  assert (Hopt : forall (o : option Node) (k : nat),
             (height_opt height o <= k)%nat ->
             Forall (fun c => (S (height c) <= S k)%nat) (option_list o)).
  { intros [c | ] k Hk; simpl in *; [constructor; [lia | constructor] | constructor]. }
  assert (Hlist : forall (l : list Node) (k : nat),
             (height_list height l <= k)%nat ->
             Forall (fun c => (S (height c) <= S k)%nat) l).
  { intros l k Hk. eapply List.Forall_impl; [ | apply height_list_ge].
    intros a Ha. cbn in *. lia. }
  repeat apply Forall_app_2;
    first [apply Hopt; lia | apply Hlist; lia].
Qed.

Section Members.
Variables f g : Node -> json.

Lemma always_ext (key : string) (o : option Node) :
  (forall c, o = Some c -> f c = g c) -> always f key o = always g key o.
Proof.
  intros Ho. unfold always.
  destruct o as [c | ]; [rewrite (Ho c eq_refl) | ]; reflexivity.
Qed.

Lemma if_present_ext (key : string) (o : option Node) :
  (forall c, o = Some c -> f c = g c) ->
  if_present f key o = if_present g key o.
Proof.
  intros Ho. unfold if_present.
  destruct o as [c | ]; [rewrite (Ho c eq_refl) | ]; reflexivity.
Qed.

Lemma all_of_ext (key : string) (l : list Node) :
  Forall (fun c => f c = g c) l -> all_of f key l = all_of g key l.
Proof.
  intros Hl. unfold all_of. do 3 f_equal.
  induction Hl as [ | c l Hc Hl IH]; [reflexivity | ].
  cbn [map]. now rewrite Hc, IH.
Qed.

(** The members of a node depend on the values of its sub-nodes only. *)
Lemma node_members_ext (n : Node) :
  Forall (fun c => f c = g c) (children n) ->
  node_members f n = node_members g n.
Proof.
  intros Hc.
  apply children_all_fields in Hc
    as (Cl & Cr & Cc & Ct & Ce & Ci & Cn & Cb & Ca & C1 & C2 & C3).
  unfold node_members, kind_members. do 3 f_equal.
  destruct (nd_kind n);
    repeat first
      [ reflexivity
      | apply always_ext; assumption
      | apply if_present_ext; assumption
      | apply all_of_ext; assumption
      | apply (f_equal2 (@app (string * json))) ].
Qed.

End Members.

(** With as many levels as the tree is high, a level more changes
    nothing. *)
Lemma node_value_stable (levels : nat) :
  forall (n : Node) (levels' : nat),
    (height n <= levels)%nat -> (height n <= levels')%nat ->
    node_value levels n = node_value levels' n.
Proof.
  induction levels as [ | k IH]; intros n levels' Hk Hk';
    assert (Hpos : (1 <= height n)%nat)
      by (rewrite height_unfold; unfold height_body; lia);
    [lia | ].
  destruct levels' as [ | k']; [lia | ].
  cbn [node_value]. f_equal. apply node_members_ext.
  eapply List.Forall_impl; [ | apply height_children].
  intros c Hc. cbn beta in Hc. apply IH; lia.
Qed.

Lemma has_cut_arr (items : list json) :
  has_cut (JArr items) = existsb has_cut items.
Proof. reflexivity. Qed.

Lemma has_cut_obj (members : list (string * json)) :
  has_cut (JObj members) =
  is_sentinel members || existsb (fun m => has_cut (snd m)) members.
Proof. reflexivity. Qed.

Lemma node_kind_name_not_sentinel (k : NodeKind) :
  String.eqb (node_kind_name k) "...(truncated)" = false.
Proof. destruct k; reflexivity. Qed.

Section Whole.
Variable child : Node -> json.

Lemma always_whole (key : string) (o : option Node) :
  (forall c, o = Some c -> has_cut (child c) = false) ->
  whole (always child key o).
Proof.
  intros Ho. unfold whole, always. cbn [existsb snd].
  destruct o as [c | ]; [rewrite (Ho c eq_refl) | ]; reflexivity.
Qed.

Lemma if_present_whole (key : string) (o : option Node) :
  (forall c, o = Some c -> has_cut (child c) = false) ->
  whole (if_present child key o).
Proof.
  intros Ho. unfold whole, if_present.
  destruct o as [c | ]; cbn [existsb snd];
    [rewrite (Ho c eq_refl) | ]; reflexivity.
Qed.

Lemma all_of_whole (key : string) (l : list Node) :
  Forall (fun c => has_cut (child c) = false) l ->
  whole (all_of child key l).
Proof.
  intros Hl. unfold whole, all_of. cbn [existsb snd].
  rewrite has_cut_arr, orb_false_r.
  induction Hl as [ | c l Hc Hl IH]; [reflexivity | ].
  cbn [map existsb]. now rewrite Hc, IH.
Qed.

Lemma text_if_present_whole (key : string) (s : option string) :
  whole (text_if_present key s).
Proof. destruct s; reflexivity. Qed.

Lemma name_of_whole (v : option ObjRef) : whole (name_of v).
Proof. destruct v; reflexivity. Qed.

Lemma whole_app (a b : list (string * json)) :
  whole a -> whole b -> whole (a ++ b).
Proof. unfold whole. intros Ha Hb. now rewrite existsb_app, Ha, Hb. Qed.

(** A node whose sub-nodes have values with no sentinel has members
    with no sentinel, and is not the sentinel itself. *)
Lemma node_members_whole (n : Node) :
  Forall (fun c => has_cut (child c) = false) (children n) ->
  has_cut (JObj (node_members child n)) = false.
Proof.
  intros Hc.
  apply children_all_fields in Hc
    as (Cl & Cr & Cc & Ct & Ce & Ci & Cn & Cb & Ca & C1 & C2 & C3).
  rewrite has_cut_obj. apply orb_false_iff. split.
  - unfold node_members. cbn [app is_sentinel].
    match goal with |- context [?a ++ ?b ++ ?c] => destruct (a ++ b ++ c) end;
      [ | reflexivity].
    rewrite node_kind_name_not_sentinel. apply andb_false_r.
  - fold (whole (node_members child n)). unfold node_members.
    repeat apply whole_app; try reflexivity.
    + destruct (nd_ty n); reflexivity.
    + destruct (nd_tok n); reflexivity.
    + unfold kind_members.
      destruct (nd_kind n);
        repeat first
          [ apply always_whole; assumption
          | apply if_present_whole; assumption
          | apply all_of_whole; assumption
          | apply text_if_present_whole
          | apply name_of_whole
          | apply whole_app
          | destruct (floating (nd_ty n)); reflexivity
          | destruct (nd_member n); [apply text_if_present_whole | reflexivity]
          | reflexivity ].
Qed.

End Whole.

(** With as many levels as the tree is high, no node is cut. *)
Lemma node_value_whole (levels : nat) :
  forall n : Node,
    (height n <= levels)%nat -> has_cut (node_value levels n) = false.
Proof.
  induction levels as [ | k IH]; intros n Hk;
    assert (Hpos : (1 <= height n)%nat)
      by (rewrite height_unfold; unfold height_body; lia);
    [lia | ].
  cbn [node_value]. apply node_members_whole.
  eapply List.Forall_impl; [ | apply height_children].
  intros c Hc. cbn beta in Hc. apply IH; lia.
Qed.

(** X11. The depth [dump_node] is called with is a budget only.  A
    tree that fits, with its height, in the 21 levels from the depth it
    is dumped at is written as the text of its value at any number of
    levels that is at least its height, the same from every such depth,
    and this value holds no sentinel: every node of the tree is written
    with its members and none is cut.  At depth 0, where [dump_obj]
    dumps the body of a function, this is a body of height at most 21. *)
Theorem dump_node_depth_is_a_budget (n : Node) (d : Z) (levels : nat) :
  d + Z.of_nat (height n) <= 21 ->
  (height n <= levels)%nat ->
  dump_node (Some n) d = print_json (node_value levels n)
  /\ has_cut (node_value levels n) = false.
Proof.
  intros Hd Hl. split; [ | now apply node_value_whole].
  unfold dump_node, dump_node_of. rewrite dump_node_at_value.
  f_equal. apply node_value_stable; [ | exact Hl].
  unfold levels_at. lia.
Qed.

Lemma json_escape_app (a b : string) :
  json_escape (a +:+ b) = json_escape a +:+ json_escape b.
Proof.
  induction a as [ | c a IH]; [reflexivity | ].
  cbn [String.append json_escape]. now rewrite IH, append_assoc.
Qed.

Lemma json_escape_digits (d : Decimal.uint) :
  json_escape (DecimalString.NilEmpty.string_of_uint d) =
  DecimalString.NilEmpty.string_of_uint d.
Proof.
  induction d as [ | d IH | d IH | d IH | d IH | d IH | d IH | d IH | d IH | d IH | d IH];
    cbn [DecimalString.NilEmpty.string_of_uint json_escape];
    [reflexivity | rewrite IH; reflexivity ..].
Qed.

Lemma json_escape_dec (z : Z) : json_escape (dec z) = dec z.
Proof.
  unfold dec, DecimalString.NilZero.string_of_int.
  destruct (Z.to_int z) as [d | d];
    unfold DecimalString.NilZero.string_of_uint;
    (destruct d; [reflexivity | ..]);
    cbn [json_escape]; rewrite ?json_escape_digits; try reflexivity.
  all: try (cbn [DecimalString.NilEmpty.string_of_uint json_escape]; rewrite ?json_escape_digits; reflexivity).
Qed.

Lemma json_escape_cons_plain (c : ascii) (rest : string) :
  json_escape_byte c = String c EmptyString ->
  json_escape (String c rest) = String c (json_escape rest).
Proof. intros E. cbn [json_escape]. now rewrite E. Qed.

Ltac plain_text IH :=
  repeat first
    [ rewrite json_escape_app
    | rewrite json_escape_dec
    | rewrite IH
    | rewrite json_escape_cons_plain by reflexivity
    | progress change (json_escape EmptyString) with EmptyString ];
  reflexivity.

Fixpoint type_to_str_at_plain (ty : CType) :
  json_escape (type_to_str_at ty) = type_to_str_at ty.
Proof.
  destruct ty as [k sz al u base ret len].
  destruct k; cbn [type_to_str_at ty_kind ty_is_unsigned ty_size ty_base ty_return_ty ty_array_len];
    try (destruct u; reflexivity); try reflexivity.
  - destruct base as [b | ]; [pose proof (type_to_str_at_plain b) as IH | pose proof I as IH];
      cbn -[json_escape type_to_str_at dec String.append]; plain_text IH.
  - destruct ret as [b | ]; [pose proof (type_to_str_at_plain b) as IH | pose proof I as IH];
      cbn -[json_escape type_to_str_at dec String.append]; plain_text IH.
  - destruct base as [b | ]; [pose proof (type_to_str_at_plain b) as IH | pose proof I as IH];
      cbn -[json_escape type_to_str_at dec String.append]; plain_text IH.
  - destruct base as [b | ]; [pose proof (type_to_str_at_plain b) as IH | pose proof I as IH];
      cbn -[json_escape type_to_str_at dec String.append]; plain_text IH.
  - pose proof I as IH.
    cbn -[json_escape type_to_str_at dec String.append]; plain_text IH.
  - pose proof I as IH.
    cbn -[json_escape type_to_str_at dec String.append]; plain_text IH.
Qed.

(** X15. The text [type_to_str] gives for a type holds no character
    [json_print_str] escapes: [dump_type_json] writes the text of the
    type, or [(null)] for the null type, as it is between quotes. *)
Theorem dump_type_json_is_quoted_text (ty : option CType) :
  dump_type_json ty = quoted (type_to_str ty).
Proof.
  unfold dump_type_json, json_print_str, json_print_escaped, quoted.
  destruct ty as [t | ]; [ | reflexivity].
  cbn [type_to_str]. now rewrite type_to_str_at_plain.
Qed.

End MoreDumpTheorems.

(** ** Types and memory accesses *)

Section AccessTheorems.
Context `{LongDouble}.
#[local] Open Scope cg_scope.

(** X12. The three predicates on types agree with [wasm_type], on every
    type and on the null type: [is_wasm_i64], [is_wasm_f32] and
    [is_wasm_f64] hold exactly when [wasm_type] is [i64], [f32] and
    [f64], and none of them holds exactly when it is [i32]. *)
Theorem wasm_predicates_agree_with_wasm_type (ty : option CType) :
  (is_wasm_i64 ty = true <-> wasm_type ty = "i64") /\
  (is_wasm_f32 ty = true <-> wasm_type ty = "f32") /\
  (is_wasm_f64 ty = true <-> wasm_type ty = "f64") /\
  (is_wasm_i64 ty || is_wasm_float ty = false <-> wasm_type ty = "i32").
Proof.
  unfold is_wasm_float, is_wasm_i64, is_wasm_f32, is_wasm_f64, wasm_type.
  destruct ty as [t | ]; [ | repeat split; intros E; discriminate E || reflexivity].
  destruct (ty_kind t); cbn [TypeKind_eqb andb orb];
    try destruct (ty_size t =? 8)%Z;
    repeat split; intros E; try reflexivity; discriminate E.
Qed.

(** X13. For a type a value is loaded of, [wasm_load] and [wasm_store]
    each write one instruction, and the two access memory at the same
    value type and the same width: what is stored for a variable is
    what is loaded for it. *)
Theorem load_and_store_agree (t : CType) (s : emitter) :
  is_loaded t = true ->
  exists (load store : string) (access : valtype * Z),
    wasm_load (Some t) s =
      (Ok tt, {| output_file := output_file s ++ [Line (indent_level s) load []];
                 indent_level := indent_level s |}) /\
    wasm_store (Some t) s =
      (Ok tt, {| output_file := output_file s ++ [Line (indent_level s) store []];
                 indent_level := indent_level s |}) /\
    load_access load = Some access /\
    store_access store = Some access.
Proof.
  unfold is_loaded, wasm_load, wasm_store, wasm_size.
  destruct (ty_kind t); cbn [TypeKind_eqb orb negb]; intros E;
    try discriminate E;
    repeat match goal with
           | |- context [(?a =? ?b)%Z] => destruct (a =? b)%Z
           | |- context [ty_is_unsigned t] => destruct (ty_is_unsigned t)
           end;
    eexists _, _, _; repeat split; reflexivity.
Qed.

(** X14. [gen_addr] on a well-typed lvalue returns and pushes exactly
    one [i32], the address; on a node of any other kind than a
    variable, a dereference, a comma or a member it stops with the
    error [not an lvalue] and writes nothing. *)
Theorem gen_addr_pushes_address (ctx : vctx) (st : ObjStore) (n : Node) :
  (typed_addr ctx n = true ->
   forall stack frames,
     validates ctx (gen_addr st n) 0 (VS stack frames) (VS (I32 :: stack) frames)) /\
  (is_lvalue_kind (nd_kind n) = false ->
   forall s : emitter,
     gen_addr st n s =
     (Stop (error_tok "not an lvalue (wasm gen_addr)" (nd_kind n)), s)).
Proof.
  split.
  - intros Ht. destruct (generators_disciplined ctx st n) as (_ & _ & Ha).
    now apply Ha.
  - intros Hk s. rewrite gen_addr_unfold.
    destruct (nd_kind n); try discriminate Hk; reflexivity.
Qed.

Lemma wrap32_range (z : Z) : - 2^31 <= wrap32 z < 2^31.
Proof.
  unfold wrap32.
  pose proof (Z.mod_pos_bound (z + 2^31) (2^32) ltac:(lia)). lia.
Qed.

Lemma wrap32_congruent (z : Z) : (wrap32 z - z) mod 2^32 = 0.
Proof.
  unfold wrap32.
  rewrite (Z.mod_eq (z + 2^31) (2^32)) by lia.
  replace (z + 2 ^ 31 - 2 ^ 32 * ((z + 2 ^ 31) / 2 ^ 32) - 2 ^ 31 - z)
    with (- ((z + 2 ^ 31) / 2 ^ 32) * 2 ^ 32) by lia.
  apply Z.mod_mul. lia.
Qed.

(** X19. For a number of a type that is neither floating point nor a
    64-bit [long], [gen_expr] writes one [i32.const] whose operand is
    the value of the node reduced to 32 bits in two's complement: it
    always fits an [i32], whatever the 64-bit value of the node. *)
Theorem int_literal_fits_i32 (st : ObjStore) (n : Node) (s : emitter) :
  nd_kind n = ND_NUM ->
  value_type (nd_ty n) = I32 ->
  exists v : Z,
    gen_expr st n s =
      (Ok tt, {| output_file :=
                   output_file s ++ [Line (indent_level s) "(i32.const %d)" [Int v]];
                 indent_level := indent_level s |}) /\
    - 2^31 <= v < 2^31 /\
    (v - nd_val n) mod 2^32 = 0.
Proof.
  intros Hk Hty. exists (wrap32 (nd_val n)).
  split; [ | split; [apply wrap32_range | apply wrap32_congruent]].
  rewrite gen_expr_unfold. unfold gen_expr_body. rewrite Hk.
  unfold value_type in Hty.
  destruct (is_wasm_f32 (nd_ty n)); [discriminate Hty | ].
  destruct (is_wasm_f64 (nd_ty n)); [discriminate Hty | ].
  destruct (is_wasm_i64 (nd_ty n)); [discriminate Hty | ].
  reflexivity.
Qed.

End AccessTheorems.

(** ** Indentation *)

Section Indentation.
Context `{LongDouble}.
#[local] Open Scope cg_scope.

Lemma shifts_bind {A B} (m : M A) (k : A -> M B) (d1 d : Z) :
  shifts m d1 -> (forall a, shifts (k a) (d - d1)) -> shifts (bind m k) d.
Proof.
  intros Hm Hk s b s' E. unfold bind in E.
  destruct (m s) as [[a | f] s1] eqn:E1; [ | discriminate E].
  specialize (Hm _ _ _ E1). specialize (Hk _ _ _ _ E). lia.
Qed.

Lemma shifts_ret {A} (a : A) (d : Z) : d = 0 -> shifts (ret a) d.
Proof. intros -> s b s' E. injection E as _ <-. lia. Qed.

Lemma shifts_skip (d : Z) : d = 0 -> shifts skip d.
Proof. apply shifts_ret. Qed.

Lemma shifts_stop {A} (f : failure) (d : Z) : shifts (@stop _ A f) d.
Proof. intros s a s' E. discriminate E. Qed.

Lemma shifts_println fmt args (d : Z) : d = 0 -> shifts (println fmt args) d.
Proof. intros -> s b s' E. injection E as _ <-. cbn. lia. Qed.

Lemma shifts_indent (d : Z) : d = 1 -> shifts indent d.
Proof. intros -> s b s' E. injection E as _ <-. cbn. lia. Qed.

Lemma shifts_dedent (d : Z) : d = -1 -> shifts dedent d.
Proof. intros -> s b s' E. injection E as _ <-. cbn. lia. Qed.

Lemma shifts_eq {A} (m : M A) (d d' : Z) : shifts m d -> d = d' -> shifts m d'.
Proof. now intros Hm <-. Qed.

Lemma shifts_opt {A} (f : A -> M unit) (o : option A) (d : Z) :
  (forall a, o = Some a -> shifts (f a) 0) -> d = 0 -> shifts (opt f o) d.
Proof.
  intros Hf ->. destruct o as [a | ]; cbn [opt]; [now apply Hf | now apply shifts_skip].
Qed.

Lemma shifts_must {A} (f : A -> M unit) (o : option A) (d : Z) :
  (forall a, o = Some a -> shifts (f a) 0) -> d = 0 -> shifts (must f o) d.
Proof.
  intros Hf ->. destruct o as [a | ]; cbn [must]; [now apply Hf | apply shifts_stop].
Qed.

Lemma shifts_for_each {A} (f : A -> M unit) (l : list A) (d : Z) :
  Forall (fun a => shifts (f a) 0) l -> d = 0 -> shifts (for_each f l) d.
Proof.
  intros Hl ->. induction Hl as [ | a r Ha Hr IH]; cbn [for_each];
    [now apply shifts_skip | ].
  apply (shifts_bind _ _ 0); [exact Ha | intros _].
  eapply shifts_eq; [exact IH | lia].
Qed.

Lemma shifts_for_each_by {A} (f : A -> M unit) (l : list A) (d1 d : Z) :
  (forall a, shifts (f a) d1) -> d = d1 * Z.of_nat (length l) ->
  shifts (for_each f l) d.
Proof.
  intros Hf ->. induction l as [ | a r IH]; cbn [for_each];
    [apply shifts_skip; cbn; lia | ].
  apply (shifts_bind _ _ d1); [apply Hf | intros _].
  eapply shifts_eq; [exact IH | cbn [length]; lia].
Qed.

Lemma shifts_writes_level {A} (m : M A) (d : Z) :
  writes_level m -> d = 0 -> shifts m d.
Proof.
  intros Hm -> s a s' E. destruct (Hm s) as [l El]. rewrite E in El.
  cbn [snd] in El. subst s'. cbn. lia.
Qed.

Lemma writes_level_wasm_load ty : writes_level (wasm_load ty).
Proof.
  unfold wasm_load. destruct ty as [t | ]; [ | apply writes_level_skip].
  repeat match goal with
         | |- writes_level (if ?b then _ else _) => destruct b
         | |- writes_level (let _ := _ in _) => cbv zeta
         end;
    first [apply writes_level_skip | apply writes_level_println].
Qed.

Lemma writes_level_wasm_store ty : writes_level (wasm_store ty).
Proof.
  unfold wasm_store. destruct ty as [t | ]; [ | apply writes_level_skip].
  repeat match goal with
         | |- writes_level (if ?b then _ else _) => destruct b
         | |- writes_level (let _ := _ in _) => cbv zeta
         end;
    repeat first [ apply writes_level_bind; [ | intros _]
                 | apply writes_level_skip | apply writes_level_println].
Qed.

Lemma writes_level_gen_cast from to : writes_level (gen_cast from to).
Proof.
  unfold gen_cast.
  destruct from as [f | ], to as [t | ]; try apply writes_level_skip.
  repeat match goal with
         | |- writes_level (if ?b then _ else _) => destruct b
         end;
    repeat first [ apply writes_level_bind; [ | intros _]
                 | apply writes_level_skip | apply writes_level_println].
Qed.

End Indentation.

Ltac shifts_step :=
  lazymatch goal with
  | |- shifts (bind indent _) _ =>
    apply (shifts_bind _ _ 1); [apply shifts_indent; reflexivity | intros _]
  | |- shifts (bind dedent _) _ =>
    apply (shifts_bind _ _ (-1)); [apply shifts_dedent; reflexivity | intros _]
  | |- shifts (bind _ _) _ => apply (shifts_bind _ _ 0); [ | intros _]
  | |- shifts (if ?b then _ else _) _ => destruct b
  | |- shifts (let _ := _ in _) _ => cbv zeta
  | |- shifts (println _ _) _ => apply shifts_println; lia
  | |- shifts skip _ => apply shifts_skip; lia
  | |- shifts (ret _) _ => apply shifts_ret; lia
  | |- shifts (stop _) _ => apply shifts_stop
  | |- shifts indent _ => apply shifts_indent; lia
  | |- shifts dedent _ => apply shifts_dedent; lia
  | |- shifts (wasm_load _) _ =>
    apply shifts_writes_level; [apply writes_level_wasm_load | lia]
  | |- shifts (wasm_store _) _ =>
    apply shifts_writes_level; [apply writes_level_wasm_store | lia]
  | |- shifts (gen_cast _ _) _ =>
    apply shifts_writes_level; [apply writes_level_gen_cast | lia]
  | |- shifts (opt _ _) _ => apply shifts_opt; [assumption | lia]
  | |- shifts (must _ _) _ => apply shifts_must; [assumption | lia]
  end.

Section GeneratorsIndentation.
Context `{LongDouble}.
#[local] Open Scope cg_scope.

Lemma shifts_gen_binary (g : Node -> M unit) (n : Node) :
  (forall c, nd_lhs n = Some c -> shifts (g c) 0) ->
  (forall c, nd_rhs n = Some c -> shifts (g c) 0) ->
  shifts (gen_binary g n) 0.
Proof.
  intros Hl Hr. unfold gen_binary.
  destruct (nd_lhs n) as [l | ]; [ | apply shifts_stop].
  destruct (nd_rhs n) as [r | ]; [ | apply shifts_stop].
  cbv zeta.
  apply (shifts_bind _ _ 0); [now apply Hl | intros _].
  apply (shifts_bind _ _ 0); [now apply Hr | intros _].
  destruct (nd_kind n); repeat shifts_step.
Qed.

Lemma shifts_gen_stmt_expr_body (ge gs : Node -> M unit) (l : list Node) :
  Forall (fun c => (forall d, nd_lhs c = Some d -> shifts (ge d) 0)
                   /\ shifts (gs c) 0) l ->
  shifts (gen_stmt_expr_body ge gs l) 0.
Proof.
  induction 1 as [ | c r [Hce Hcs] Hr IH]; cbn [gen_stmt_expr_body];
    [now apply shifts_skip | ].
  apply (shifts_bind _ _ 0); [ | intros _; eapply shifts_eq; [exact IH | lia]].
  destruct r as [ | c' r']; [ | exact Hcs].
  destruct (nd_kind c);
    try (apply (shifts_bind _ _ 0); [exact Hcs | intros _; apply shifts_println; lia]).
  now apply shifts_opt.
Qed.

(** The three generators leave the indentation as they found it when
    they return, on every node. *)
Lemma generators_keep_level (st : ObjStore) (n : Node) :
  shifts (gen_expr st n) 0 /\ shifts (gen_stmt st n) 0 /\ shifts (gen_addr st n) 0.
Proof.
  induction n as [n IH IH2] using Node_children_ind2.
  assert (IHe : Forall (fun c => shifts (gen_expr st c) 0) (children n))
    by (eapply List.Forall_impl; [ | exact IH]; simpl; tauto).
  assert (IHs : Forall (fun c => shifts (gen_stmt st c) 0) (children n))
    by (eapply List.Forall_impl; [ | exact IH]; simpl; tauto).
  assert (IHa : Forall (fun c => shifts (gen_addr st c) 0) (children n))
    by (eapply List.Forall_impl; [ | exact IH]; simpl; tauto).
  apply children_fields in IHe as (El & Er & Ec & Et & Ee & Ei & En & Eb & Ea).
  apply children_fields in IHs as (Sl & Sr & Sc & St & Se & Si & Sn & Sb & Sa).
  apply children_fields in IHa as (Al & Ar & _).
  apply children_fields in IH2 as (_ & _ & _ & _ & _ & _ & _ & Gb & _).
  assert (Haddr : shifts (gen_addr st n) 0).
  { rewrite gen_addr_unfold.
    destruct (nd_kind n); try apply shifts_stop; repeat shifts_step.
    - destruct (nd_member n); repeat shifts_step.
    - destruct (nd_var n) as [v | ]; repeat shifts_step. }
  assert (Hbody : shifts (gen_stmt_expr_body (gen_expr st) (gen_stmt st) (nd_body n)) 0).
  { apply shifts_gen_stmt_expr_body.
    rewrite List.Forall_forall in Sb, Gb. apply List.Forall_forall.
    intros c Hc. split; [ | now apply Sb].
    intros d Hd. specialize (Gb c Hc).
    apply children_fields in Gb as (Gl & _). now apply Gl. }
  split; [ | split; [ | exact Haddr]].
  - rewrite gen_expr_unfold. unfold gen_expr_body.
    change (gen_addr_body st (gen_expr st)) with (gen_addr st).
    destruct (nd_kind n);
      try (apply shifts_gen_binary; assumption);
      try exact Hbody;
      repeat match goal with
             | |- shifts (gen_addr st n) _ =>
               eapply shifts_eq; [exact Haddr | lia]
             | |- shifts (for_each _ _) _ =>
               apply shifts_for_each; [assumption | lia]
             | |- shifts (match nd_els n with _ => _ end) _ =>
               destruct (nd_els n) as [c | ] eqn:?
             | |- shifts (match nd_lhs n with _ => _ end) _ =>
               destruct (nd_lhs n) as [c | ] eqn:?
             | |- shifts (match nd_kind ?c with _ => _ end) _ =>
               destruct (nd_kind c)
             | |- shifts (match nd_var ?c with _ => _ end) _ =>
               destruct (nd_var c)
             | |- shifts (match ref_ty ?c with _ => _ end) _ =>
               destruct (ref_ty c)
             | |- shifts (gen_expr st ?c) _ =>
               eapply shifts_eq; [eauto | lia]
             | |- _ => shifts_step
             end.
  - rewrite gen_stmt_unfold. unfold gen_stmt_body.
    destruct (nd_kind n);
      try (repeat match goal with
             | |- shifts (for_each (gen_stmt st) _) _ =>
               apply shifts_for_each; [assumption | lia]
             | |- shifts (match nd_els n with _ => _ end) _ =>
               destruct (nd_els n) as [c | ] eqn:?
             | |- shifts (match nd_cond n with _ => _ end) _ =>
               destruct (nd_cond n) as [c | ] eqn:?
             | |- shifts (match nd_inc n with _ => _ end) _ =>
               destruct (nd_inc n) as [c | ] eqn:?
             | |- shifts (match nd_lhs n with _ => _ end) _ =>
               destruct (nd_lhs n) as [c | ] eqn:?
             | |- shifts (match nd_ty ?c with _ => _ end) _ =>
               destruct (nd_ty c)
             | |- shifts (gen_expr st ?c) _ =>
               eapply shifts_eq; [eauto | lia]
             | |- shifts (gen_stmt st ?c) _ =>
               eapply shifts_eq; [eauto | lia]
             | |- shifts (bind (for_each _ _) _) _ => fail 1
             | |- _ => shifts_step
             end; fail).
    apply (shifts_bind _ _ 0); [apply shifts_opt; [assumption | lia] | intros _].
    apply (shifts_bind _ _ 0); [apply shifts_println; lia | intros _].
    apply (shifts_bind _ _ 0); [apply shifts_println; lia | intros _].
    apply (shifts_bind _ _ 1); [apply shifts_indent; lia | intros _].
    apply (shifts_bind _ _ (1 * Z.of_nat (length (nd_case_next n)))).
    { apply shifts_for_each_by with (d1 := 1); [ | lia].
      intros a. repeat shifts_step. }
    intros _.
    apply (shifts_bind _ _ 0); [apply shifts_opt; [assumption | lia] | intros _].
    apply (shifts_bind _ _ (-1 * Z.of_nat (length (nd_case_next n)))).
    { apply shifts_for_each_by with (d1 := -1); [ | lia].
      intros a. repeat shifts_step. }
    intros _. repeat shifts_step.
Qed.

(** X16. On every node, well typed or not, a generator that returns
    leaves the indentation as it found it: every [indent] of
    [gen_expr], [gen_stmt] and [gen_addr] is undone before the call
    returns, in a [switch] once for each case. *)
Theorem generators_restore_indentation (st : ObjStore) (n : Node)
        (s s' : emitter) :
  (gen_expr st n s = (Ok tt, s') -> indent_level s' = indent_level s) /\
  (gen_stmt st n s = (Ok tt, s') -> indent_level s' = indent_level s) /\
  (gen_addr st n s = (Ok tt, s') -> indent_level s' = indent_level s).
Proof.
  destruct (generators_keep_level st n) as (He & Hs & Ha).
  repeat split; intros E.
  - specialize (He _ _ _ E). lia.
  - specialize (Hs _ _ _ E). lia.
  - specialize (Ha _ _ _ E). lia.
Qed.

End GeneratorsIndentation.

(** ** Values that are dropped *)

Section Drops.
Context `{LongDouble}.
Variable ctx : vctx.
Variable st : ObjStore.
#[local] Open Scope cg_scope.

(** X17. [gen_expr] on a [ND_MEMZERO] node of a variable with a type
    returns and leaves no value on the operand stack: the three
    operands of [memory.fill] are all it pushes. *)
Theorem memzero_pushes_nothing (n : Node) (v : ObjRef) (ty : CType) :
  nd_kind n = ND_MEMZERO -> nd_var n = Some v -> ref_ty v = Some ty ->
  pushes_nothing ctx st n.
Proof.
  intros Hk Hv Hty stack frames s.
  rewrite gen_expr_unfold. unfold gen_expr_body. rewrite Hk, Hv, Hty.
  cbv zeta. unfold bind, println. cbn [output_file indent_level].
  eexists tt, _. split.
  - rewrite <- !app_assoc. cbn [app]. rewrite Z.add_0_r. reflexivity.
  - reflexivity.
Qed.

(** X18. After the left operand of a comma [gen_expr] writes [(drop)]
    whether the operand left a value or not.  When the operand leaves
    none (the call of a [void] function, a [ND_MEMZERO]) the lines
    written for the comma do not validate from an empty operand stack:
    the drop finds nothing to drop. *)
Theorem comma_drops_unconditionally (n l : Node) :
  nd_kind n = ND_COMMA -> nd_lhs n = Some l ->
  pushes_nothing ctx st l ->
  forall (s : emitter) (frames : list (frame_kind * list valtype)),
  exists items : list item,
    output_file (snd (gen_expr st n s)) = output_file s ++ items /\
    validate ctx items (VS [] frames) = None.
Proof.
  intros Hk Hl Hp s frames.
  rewrite gen_expr_unfold. unfold gen_expr_body. rewrite Hk, Hl. cbn [opt].
  destruct (Hp [] frames s) as (a & items1 & E1 & V1).
  unfold bind at 1. rewrite E1.
  unfold bind at 1. unfold println at 1. cbn [output_file indent_level].
  assert (Hr : appends (opt (gen_expr st) (nd_rhs n))).
  { apply appends_opt. intros c _. apply generators_append. }
  match goal with
  | |- context [opt (gen_expr st) (nd_rhs n) ?s2] =>
    destruct (Hr s2) as [l2 E2]
  end.
  cbn [output_file] in E2.
  exists (items1 ++ [Line (indent_level s + 0) "(drop)" []] ++ l2). split.
  - rewrite E2, <- !app_assoc. reflexivity.
  - rewrite validate_app, V1. reflexivity.
Qed.

End Drops.


(** ** The further theorems at the sample inputs *)

Section AtFurtherSamples.
#[local] Existing Instance zero_only.

(** X2 at the string [a.c]. *)
Lemma json_print_str_injective_witness :
  c_string_or_null (Some "a.c") = true /\
  json_print_str (Some "a.c") = quoted "a.c" /\
  Some "a.c" = Some "a.c".
Proof.
  split; [reflexivity | split; [reflexivity | ]].
  apply (json_print_str_injective (Some "a.c") (Some "a.c")); reflexivity.
Defined.

(** X3 at [char msg[4] = "hi\n";]. *)
Lemma emit_data_reads_back_witness :
  exists bytes : list item,
    emit_data empty_store [msg] (mkEmitter [] 1) =
    (Ok tt,
     mkEmitter
       ([Line 1 ";; global: %s (offset=%d, size=%d)" [Str "msg"; Int 0; Int 4];
         Text ("  (data (i32.const %d) " +:+ dq) [Int 0]] ++
        bytes ++ [Text (dq +:+ ")" +:+ nl) []]) 1)
    /\ forall tail : string,
         wat_read_body (render bytes +:+ dq +:+ tail) = Some (msg_data, tail).
Proof.
  apply (emit_data_reads_back empty_store msg ty_char4 msg_data (mkEmitter [] 1));
    [reflexivity | reflexivity | reflexivity | cbn; lia].
Defined.

Lemma sample_prog_has_types : has_types full_prog.
Proof. repeat constructor; simpl; congruence. Qed.

(** X4 at the sample program with [msg] and [g]: [a] at 0, [b] at 4,
    [msg] at 5, 16 bytes of globals. *)
Lemma global_layout_in_order_witness :
  exists (size : Z) (st' : ObjStore),
    assign_global_offsets full_prog empty_store = (Ok size, st') /\
    laid_out (offset_of st') (variables full_prog) 0 size /\
    size mod 16 = 0 /\
    (forall id, ~ In id (map fst (variables full_prog)) ->
                offset_of st' id = offset_of empty_store id) /\
    stack_sizes st' = stack_sizes empty_store.
Proof.
  apply (global_layout_in_order full_prog empty_store).
  - exact sample_prog_has_types.
  - repeat constructor; simpl; lia.
  - reflexivity.
  - repeat constructor; simpl; intuition discriminate.
Defined.

(** X5 at the same program: the locals of [g] at 0, 4 and 8 in a frame
    of 16 bytes. *)
Lemma frame_layout_in_order_witness :
  exists st' : ObjStore,
    assign_wasm_offsets full_prog empty_store = (Ok tt, st') /\
    forall fn : Obj,
      In fn (functions_of full_prog) ->
      laid_out (offset_of st') (local_vars (obj_locals fn)) 0
               (stack_size_of st' (obj_id fn)) /\
      (stack_size_of st' (obj_id fn)) mod 16 = 0.
Proof.
  apply (frame_layout_in_order full_prog empty_store).
  - exact sample_prog_has_types.
  - repeat constructor; simpl; lia.
  - repeat constructor; simpl; intuition discriminate.
  - repeat constructor; simpl; intuition discriminate.
Defined.

(** X6 at the same program. *)
Lemma codegen_wasm_closes_module_witness :
  exists (stack_start : Z) (body : list item),
    65536 <= stack_start /\
    st_emitter (w_statics (snd (codegen_wasm full_prog fresh_world))) =
    {| output_file := module_header stack_start ++ body ++ [Line 0 ")" []];
       indent_level := 0 |}.
Proof.
  apply (codegen_wasm_closes_module full_prog fresh_world).
  vm_compute. reflexivity.
Defined.

(** X11 at [-(-(-7))], of height 4: dumped at depth 5 and at depth 0 it
    is the text of its value at 4 levels, which holds no sentinel. *)
Lemma dump_node_depth_is_a_budget_witness :
  (dump_node (Some (nested_neg 3)) 5 = print_json (node_value 4 (nested_neg 3)) /\
   has_cut (node_value 4 (nested_neg 3)) = false) /\
  (dump_node (Some (nested_neg 3)) 0 = print_json (node_value 4 (nested_neg 3)) /\
   has_cut (node_value 4 (nested_neg 3)) = false).
Proof.
  split.
  - apply (dump_node_depth_is_a_budget (nested_neg 3) 5 4);
      vm_compute; [discriminate | lia].
  - apply (dump_node_depth_is_a_budget (nested_neg 3) 0 4);
      vm_compute; [discriminate | lia].
Defined.

(** X13 at [char]: [i32.load8_s] and [i32.store8]. *)
Lemma load_and_store_agree_witness :
  exists (load store : string) (access : valtype * Z),
    wasm_load (Some ty_char) (mkEmitter [] 0) =
      (Ok tt, mkEmitter ([] ++ [Line 0 load []]) 0) /\
    wasm_store (Some ty_char) (mkEmitter [] 0) =
      (Ok tt, mkEmitter ([] ++ [Line 0 store []]) 0) /\
    load_access load = Some access /\
    store_access store = Some access.
Proof.
  apply (load_and_store_agree ty_char (mkEmitter [] 0)). reflexivity.
Defined.

(** X14 at the local [x] and at the literal [7]. *)
Lemma gen_addr_pushes_address_witness :
  validates ctx_f (gen_addr empty_store var_x) 0 (VS [] []) (VS [I32] []) /\
  gen_addr empty_store num7 (mkEmitter [] 0) =
  (Stop (error_tok "not an lvalue (wasm gen_addr)" ND_NUM), mkEmitter [] 0).
Proof.
  destruct (gen_addr_pushes_address ctx_f empty_store var_x) as (Hvar & _).
  destruct (gen_addr_pushes_address ctx_f empty_store num7) as (_ & Hnum).
  split; [apply Hvar; reflexivity | apply Hnum; reflexivity].
Defined.

(** X16 at the body of the sample function, written at indentation 3. *)
Lemma generators_restore_indentation_witness :
  indent_level (snd (gen_stmt empty_store sample_body (mkEmitter [] 3))) = 3.
Proof.
  destruct (generators_restore_indentation
              empty_store sample_body (mkEmitter [] 3)
              (snd (gen_stmt empty_store sample_body (mkEmitter [] 3))))
    as (_ & Hstmt & _).
  apply Hstmt. vm_compute. reflexivity.
Defined.

(** X17 at [memzero a] for a local [char a[4]]. *)
Lemma memzero_pushes_nothing_witness :
  pushes_nothing ctx_f empty_store memzero_a.
Proof.
  apply (memzero_pushes_nothing ctx_f empty_store memzero_a ref_a ty_char4);
    reflexivity.
Defined.

(** X18 at [(f(), 7)] for a function [void f(void)]. *)
Lemma comma_drops_unconditionally_witness :
  exists items : list item,
    output_file (snd (gen_expr empty_store comma_call (mkEmitter [] 0))) =
      [] ++ items /\
    validate ctx_f items (VS [] []) = None.
Proof.
  apply (comma_drops_unconditionally ctx_f empty_store comma_call call_f);
    [reflexivity | reflexivity | ].
  intros stack frames.
  destruct (generators_disciplined ctx_f empty_store call_f) as (He & _).
  exact (He eq_refl stack frames).
Defined.

(** X19 at the literal [7]. *)
Lemma int_literal_fits_i32_witness :
  exists v : Z,
    gen_expr empty_store num7 (mkEmitter [] 0) =
      (Ok tt, mkEmitter ([] ++ [Line 0 "(i32.const %d)" [Int v]]) 0) /\
    - 2^31 <= v < 2^31 /\
    (v - 7) mod 2^32 = 0.
Proof.
  apply (int_literal_fits_i32 empty_store num7 (mkEmitter [] 0)); reflexivity.
Defined.

(** X20 at the same program: 16 bytes of globals, a stack that starts
    at 65536. *)
Lemma stack_starts_above_globals_witness :
  exists (stack_start : Z) (rest : list item),
    output_file (st_emitter (w_statics (snd (codegen_wasm full_prog fresh_world)))) =
      module_header stack_start ++ rest /\
    fst (assign_global_offsets full_prog (w_objs fresh_world)) =
      Ok (spec_globals_size full_prog) /\
    spec_globals_size full_prog + 1024 <= stack_start < 2^31 /\
    stack_start mod 65536 = 0.
Proof.
  apply (stack_starts_above_globals full_prog fresh_world).
  - exact sample_prog_has_types.
  - repeat constructor; simpl; lia.
  - reflexivity.
Defined.

End AtFurtherSamples.

